(** * PGOMemOPSizeOpt: size-specialisation of memory operations from value profiles

    A shallow embedding of [llvm/lib/Transforms/Instrumentation/PGOMemOPSizeOpt.cpp]:
    the command-line options, the [MemOp] wrapper, the candidate collector
    ([visitMemIntrinsic], [visitCallInst]), the profitability test, count
    scaling, and [MemOPSizeOpt::perform], which plans the versions and rewrites
    the control-flow graph.

    Machine integers are [Z] with the wrap-around written out.  A failing
    [assert] and undefined behaviour are results of their own, so that "the
    assertion holds" and "the division is never by zero" are statements about
    the code. *)

From stdpp Require Import gmap strings list fin_maps pretty.
From Stdlib Require Import ZArith Lia.

Local Open Scope Z_scope.

(** ** Fixed-width integers *)

Definition UINT64_MAX : Z := 2 ^ 64 - 1.
Definition UINT32_MAX : Z := 2 ^ 32 - 1.

(** Conversion to [uint64_t] and to [uint32_t]/[unsigned]. *)
Definition wrap64 (x : Z) : Z := x mod 2 ^ 64.
Definition wrap32 (x : Z) : Z := x mod 2 ^ 32.

(** Conversion of a [uint64_t] to [int64_t] ([int64_t V = VD.Value]). *)
Definition toInt64 (x : Z) : Z :=
  let y := wrap64 x in if y <? 2 ^ 63 then y else y - 2 ^ 64.

Definition is_u64 (x : Z) : Prop := 0 <= x <= UINT64_MAX.
Definition is_u32 (x : Z) : Prop := 0 <= x <= UINT32_MAX.

(** ** Results of a run

    [assert] aborts the program unless the build defines [NDEBUG]; a division
    by zero or a null or dangling pointer is undefined behaviour. *)

Inductive Assertion :=
| AssertMOI                 (* assert(MO.I) *)
| AssertCountLeTotal        (* assert(Count <= TotalCount), isProfitable *)
| AssertRemainGeC           (* assert(RemainCount >= C) *)
| AssertSavedRemainGeCount  (* assert(SavedRemainCount >= VD.Count) *)
| AssertItNotEnd            (* assert(It != DefaultBB->end()) *)
| AssertSizeType            (* assert(SizeType && ...) *)
| AssertUnreachable.        (* llvm_unreachable(...) *)

Inductive UBKind :=
| DivisionByZero
| NullPointer
| Unreachable.

Inductive Outcome (A : Type) : Type :=
| Ret (a : A)
| Abort (a : Assertion)
| Undefined (u : UBKind).

Arguments Ret {A} a.
Arguments Abort {A} a.
Arguments Undefined {A} u.

Definition bind {A B} (m : Outcome A) (k : A -> Outcome B) : Outcome B :=
  match m with
  | Ret a => k a
  | Abort a => Abort a
  | Undefined u => Undefined u
  end.

Declare Scope outcome_scope.
Delimit Scope outcome_scope with outcome.
Notation "x <- m ;; k" := (bind m (fun x => k))
  (at level 100, m at next level, right associativity) : outcome_scope.
Notation "m ;;; k" := (bind m (fun _ => k))
  (at level 100, right associativity) : outcome_scope.
Local Open Scope outcome_scope.

(** ** Options ([cl::opt]) and what the build and the included headers fix *)

Record Options := {
  MemOPCountThreshold : Z;        (* pgo-memop-count-threshold, unsigned, 1000 *)
  DisableMemOPOPT : bool;         (* disable-memop-opt, false *)
  MemOPPercentThreshold : Z;      (* pgo-memop-percent-threshold, unsigned, 40 *)
  MemOPMaxVersion : Z;            (* pgo-memop-max-version, unsigned, 3 *)
  MemOPScaleCount : bool;         (* pgo-memop-scale-count, true *)
  MemOPSizeLarge : Z;             (* extern, unsigned *)
  UseOldMemOpValueProf : bool;    (* extern *)
  MemOPOptMemcmpBcmp : bool;      (* pgo-memop-optimize-memcmp-bcmp, true *)
  MemOpMaxOptSize : Z;            (* memop-value-prof-max-opt-size, unsigned, 128 *)
  (* The constructor reads these two from the extern option MemOPSizeRange
     with getMemOPSizeRangeFromOption. *)
  PreciseRangeStart : Z;
  PreciseRangeLast : Z;
  (* InstrProfIsSingleValRange of InstrProfData.inc, on uint64_t. *)
  InstrProfIsSingleValRange : Z -> bool;
  (* Whether the build compiles assertions out. *)
  NDEBUG : bool
}.

Definition assert (cfg : Options) (cond : bool) (a : Assertion) : Outcome unit :=
  if NDEBUG cfg || cond then Ret tt else Abort a.

(** ** Profile samples *)

Record InstrProfValueData := { Value : Z; Count : Z }.

(** Modelled from the spec: [SaturatingMultiply] of llvm/Support/MathExtras.h,
    at [uint64_t]: the product, or the largest value when the product does not
    fit, with the flag that says so. *)
Definition SaturatingMultiply (X Y : Z) : Z * bool :=
  if X * Y >? UINT64_MAX then (UINT64_MAX, true) else (X * Y, false).

(** ** Profitability, scaling, value kinds *)

Definition isProfitable (cfg : Options) (Count TotalCount : Z) : Outcome bool :=
  assert cfg (Count <=? TotalCount) AssertCountLeTotal ;;;
  if Count <? MemOPCountThreshold cfg then Ret false
  else if Count <? wrap64 (TotalCount * MemOPPercentThreshold cfg) / 100 then Ret false
  else Ret true.

Definition getScaledCount (cfg : Options) (Count Num Denom : Z) : Outcome Z :=
  if negb (MemOPScaleCount cfg) then Ret Count
  else
    let '(ScaleCount, Overflowed) := SaturatingMultiply Count Num in
    if Denom =? 0 then Undefined DivisionByZero else Ret (ScaleCount / Denom).

Inductive MemOPSizeKind := PreciseValue | NonLargeGroup | LargeGroup.

Global Instance MemOPSizeKind_eq_dec : EqDecision MemOPSizeKind.
Proof. solve_decision. Defined.

Definition getMemOPSizeKind (cfg : Options) (V : Z) : MemOPSizeKind :=
  if (V =? MemOPSizeLarge cfg) && negb (MemOPSizeLarge cfg =? 0) then LargeGroup
  else if V =? PreciseRangeLast cfg + 1 then NonLargeGroup
  else PreciseValue.

(** The two [continue]s of the loop: [true] when the sample is skipped. *)
Definition skipValue (cfg : Options) (V : Z) : bool :=
  if UseOldMemOpValueProf cfg
  then negb (bool_decide (getMemOPSizeKind cfg V = PreciseValue))
  else negb (InstrProfIsSingleValRange cfg (wrap64 V)) || (V >? MemOpMaxOptSize cfg).

(** ** The loop of [perform] over the samples *)

Record PlanState := {
  RemainCount : Z;
  SavedRemainCount : Z;
  SizeIds : list Z;
  CaseCounts : list Z;
  MaxCount : Z;
  Version : Z
}.

Inductive LoopCtl := Continue | Break.

Definition initPlan (TotalCount SavedTotalCount : Z) : PlanState :=
  {| RemainCount := TotalCount;
     SavedRemainCount := SavedTotalCount;
     SizeIds := [];
     CaseCounts := [0];
     MaxCount := 0;
     Version := 0 |}.

(** One iteration of [for (auto &VD : VDs)]. *)
Definition planStep (cfg : Options) (ActualCount SavedTotalCount : Z)
    (st : PlanState) (VD : InstrProfValueData) : Outcome (LoopCtl * PlanState) :=
  let V := toInt64 (Value VD) in
  C <- (if MemOPScaleCount cfg
        then getScaledCount cfg (Count VD) ActualCount SavedTotalCount
        else Ret (Count VD)) ;;
  if skipValue cfg V then Ret (Continue, st)
  else
    p <- isProfitable cfg C (RemainCount st) ;;
    if negb p then Ret (Break, st)
    else
      assert cfg (RemainCount st >=? C) AssertRemainGeC ;;;
      assert cfg (SavedRemainCount st >=? Count VD) AssertSavedRemainGeCount ;;;
      let Version' := wrap32 (Version st + 1) in
      let st' :=
        {| RemainCount := wrap64 (RemainCount st - C);
           SavedRemainCount := wrap64 (SavedRemainCount st - Count VD);
           SizeIds := SizeIds st ++ [wrap64 V];
           CaseCounts := CaseCounts st ++ [C];
           MaxCount := if C >? MaxCount st then C else MaxCount st;
           Version := Version' |} in
      if (Version' >? MemOPMaxVersion cfg) && negb (MemOPMaxVersion cfg =? 0)
      then Ret (Break, st')
      else Ret (Continue, st').

Fixpoint planLoop (cfg : Options) (ActualCount SavedTotalCount : Z)
    (VDs : list InstrProfValueData) (st : PlanState) : Outcome PlanState :=
  match VDs with
  | [] => Ret st
  | VD :: rest =>
      r <- planStep cfg ActualCount SavedTotalCount st VD ;;
      match r with
      | (Break, st') => Ret st'
      | (Continue, st') => planLoop cfg ActualCount SavedTotalCount rest st'
      end
  end.

(** ** The intermediate representation

    Instructions and blocks are objects with identity: the model keeps them in
    stores keyed by identifiers, which play the part of the pointers. *)

Abbreviation InstId := nat (only parsing).
Abbreviation BlockId := nat (only parsing).

Inductive Ty := VoidTy | IntegerTy (bits : N) | OtherTy.

Inductive IRValue :=
| ConstantInt (bits : N) (v : Z)
| InstVal (i : InstId)
| OtherVal (n : nat) (ty : Ty).

Global Instance Ty_eq_dec : EqDecision Ty.
Proof. solve_decision. Defined.
Global Instance IRValue_eq_dec : EqDecision IRValue.
Proof. solve_decision. Defined.

Inductive IntrinsicID :=
| Intrinsic_memcpy | Intrinsic_memmove | Intrinsic_memset | Intrinsic_memcpy_inline.

Inductive LibFunc := LibFunc_memcmp | LibFunc_bcmp | LibFunc_other (n : nat).

Global Instance IntrinsicID_eq_dec : EqDecision IntrinsicID.
Proof. solve_decision. Defined.
Global Instance LibFunc_eq_dec : EqDecision LibFunc.
Proof. solve_decision. Defined.

Inductive InstrProfValueKind := IPVK_IndirectCallTarget | IPVK_MemOPSize.

Global Instance InstrProfValueKind_eq_dec : EqDecision InstrProfValueKind.
Proof. solve_decision. Defined.

(** The [MD_prof] attachment of an instruction: a value profile ("VP") record
    or the branch weights of a terminator. *)
Inductive MDProf :=
| MD_VP (Kind : InstrProfValueKind) (Total : Z) (Data : list InstrProfValueData)
| MD_BranchWeights (EdgeCounts : list Z) (Max : Z).

(** A call carries what [TargetLibraryInfo::getLibFunc] answers for it. *)
Inductive InstBody :=
| MemIntrinsic (ID : IntrinsicID) (Args : list IRValue)
| CallInst (Callee : option LibFunc) (Args : list IRValue)
| PHINode (Incoming : list (IRValue * BlockId))
| BranchInst (Dest : BlockId)
| SwitchInst (Cond : IRValue) (DefaultDest : BlockId) (Cases : list (IRValue * BlockId))
| OtherInst (IsTerminator : bool) (Ops : list IRValue).

Record Instruction := {
  Body : InstBody;
  InstTy : Ty;
  Prof : option MDProf;
  Parent : option BlockId
}.

Record BasicBlock := { Name : string; Insts : list InstId }.

Record Function := {
  Blocks : gmap nat BasicBlock;
  Layout : list BlockId;
  Instrs : gmap nat Instruction;
  OptimizeForSize : bool
}.

Record BlockFrequencyInfo := {
  Freqs : gmap nat Z;
  ProfileCountFromFreq : Z -> option Z
}.

Record Remark := {
  RemarkMemop : string;
  RemarkCount : Z;
  RemarkTotal : Z;
  RemarkVersions : Z
}.

(** What [perform] works on: the function, the block frequencies, and the
    remarks emitted so far; [RemarksEnabled] says whether the emitter evaluates
    the closure it is given. *)
Record State := {
  Func : Function;
  BFI : BlockFrequencyInfo;
  ORE : list Remark;
  RemarksEnabled : bool
}.

Definition operands (b : InstBody) : list IRValue :=
  match b with
  | MemIntrinsic _ Args => Args
  | CallInst _ Args => Args
  | PHINode Incoming => Incoming.*1
  | BranchInst _ => []
  | SwitchInst Cond _ Cases => Cond :: Cases.*1
  | OtherInst _ Ops => Ops
  end.

Definition isTerminator (b : InstBody) : bool :=
  match b with
  | BranchInst _ | SwitchInst _ _ _ => true
  | OtherInst t _ => t
  | _ => false
  end.

Definition isPHI (b : InstBody) : bool :=
  match b with PHINode _ => true | _ => false end.

Definition getInst (F : Function) (I : InstId) : Outcome Instruction :=
  match Instrs F !! I with
  | Some i => Ret i
  | None => Undefined NullPointer
  end.

Definition getBlock (F : Function) (B : BlockId) : Outcome BasicBlock :=
  match Blocks F !! B with
  | Some b => Ret b
  | None => Undefined NullPointer
  end.

Definition setInstrs (F : Function) (m : gmap nat Instruction) : Function :=
  {| Blocks := Blocks F; Layout := Layout F; Instrs := m;
     OptimizeForSize := OptimizeForSize F |}.

Definition setBlocks (F : Function) (m : gmap nat BasicBlock) (l : list BlockId) : Function :=
  {| Blocks := m; Layout := l; Instrs := Instrs F;
     OptimizeForSize := OptimizeForSize F |}.

Definition setBody (b : InstBody) (i : Instruction) : Instruction :=
  {| Body := b; InstTy := InstTy i; Prof := Prof i; Parent := Parent i |}.

Definition setParent (p : option BlockId) (i : Instruction) : Instruction :=
  {| Body := Body i; InstTy := InstTy i; Prof := Prof i; Parent := p |}.

Definition setProf (md : option MDProf) (i : Instruction) : Instruction :=
  {| Body := Body i; InstTy := InstTy i; Prof := md; Parent := Parent i |}.

Definition getType (F : Function) (v : IRValue) : Outcome Ty :=
  match v with
  | ConstantInt bits _ => Ret (IntegerTy bits)
  | InstVal i => x <- getInst F i ;; Ret (InstTy x)
  | OtherVal _ ty => Ret ty
  end.

(** *** The [MemOp] wrapper *)

Module MemOp.

(** [dyn_cast<MemIntrinsic>(I)] *)
Definition asMI (i : Instruction) : option (IntrinsicID * list IRValue) :=
  match Body i with
  | MemIntrinsic ID Args => Some (ID, Args)
  | _ => None
  end.

(** [cast<CallInst>(I)]: a memory intrinsic is a call too. *)
Definition asCI (i : Instruction) : Outcome (option LibFunc * list IRValue) :=
  match Body i with
  | MemIntrinsic _ Args => Ret (None, Args)
  | CallInst Callee Args => Ret (Callee, Args)
  | _ => Undefined NullPointer
  end.

(** The length is argument 2 of the intrinsic and of the library call. *)
Definition getLength (i : Instruction) : Outcome IRValue :=
  ci <- asCI i ;;
  match ci.2 !! 2%nat with
  | Some v => Ret v
  | None => Undefined NullPointer
  end.

Definition setLength (Length : IRValue) (i : Instruction) : Instruction :=
  match Body i with
  | MemIntrinsic ID Args => setBody (MemIntrinsic ID (<[2%nat := Length]> Args)) i
  | CallInst Callee Args => setBody (CallInst Callee (<[2%nat := Length]> Args)) i
  | _ => i
  end.

Definition isMemmove (i : Instruction) : bool :=
  match asMI i with
  | Some (ID, _) => bool_decide (ID = Intrinsic_memmove)
  | None => false
  end.

Definition getLibFunc (i : Instruction) : option LibFunc :=
  match Body i with
  | CallInst Callee _ => Callee
  | _ => None
  end.

Definition isMemcmp (i : Instruction) : bool :=
  match asMI i with
  | None => bool_decide (getLibFunc i = Some LibFunc_memcmp)
  | Some _ => false
  end.

Definition isBcmp (i : Instruction) : bool :=
  match asMI i with
  | None => bool_decide (getLibFunc i = Some LibFunc_bcmp)
  | Some _ => false
  end.

Definition getMIName (ID : IntrinsicID) : string :=
  match ID with
  | Intrinsic_memcpy => "memcpy"
  | Intrinsic_memmove => "memmove"
  | Intrinsic_memset => "memset"
  | _ => "unknown"
  end.

(** [llvm_unreachable] is reached for any other call. *)
Definition getName (i : Instruction) : option string :=
  match asMI i with
  | Some (ID, _) => Some (getMIName ID)
  | None =>
      match getLibFunc i with
      | Some LibFunc_memcmp => Some "memcmp"
      | Some LibFunc_bcmp => Some "bcmp"
      | _ => None
      end
  end.

(** [clone]: a copy of the instruction, in no block. *)
Definition clone (i : Instruction) : Instruction := setParent None i.

End MemOp.

(** *** Profile metadata *)

(** Modelled from the spec: [getValueProfDataFromInst] of
    llvm/ProfileData/InstrProf.cpp is not among the sources.  It reads the
    value-profile record of the given kind: nothing when the instruction has
    no such record or the record has no sample, else at most
    [MaxNumValueData] samples, in order, and the total count. *)
Definition getValueProfDataFromInst (i : Instruction) (ValueKind : InstrProfValueKind)
    (MaxNumValueData : Z) : option (list InstrProfValueData * Z) :=
  match Prof i with
  | Some (MD_VP Kind Total Data) =>
      if bool_decide (Kind = ValueKind) then
        match take (Z.to_nat MaxNumValueData) Data with
        | [] => None
        | VDs => Some (VDs, Total)
        end
      else None
  | _ => None
  end.

(** Modelled from the spec: [annotateValueSite] of
    llvm/ProfileData/InstrProf.cpp is not among the sources.  It attaches a
    value-profile record of the given kind with the given total and the given
    samples, at most [MaxMDCount] of them. *)
Definition annotateValueSite (VDs : list InstrProfValueData) (Sum : Z)
    (ValueKind : InstrProfValueKind) (MaxMDCount : Z) (i : Instruction) : Instruction :=
  setProf (Some (MD_VP ValueKind Sum (take (Z.to_nat MaxMDCount) VDs))) i.

(** Modelled from the spec: [setProfMetadata] of PGOInstrumentation.cpp is not
    among the sources.  It attaches branch weights computed from the edge
    counts, normalised against the maximum count; the model keeps the counts
    and the maximum. *)
Definition setProfMetadata (EdgeCounts : list Z) (Max : Z) (i : Instruction) : Instruction :=
  setProf (Some (MD_BranchWeights EdgeCounts Max)) i.

(** *** Block frequencies *)

(** Modelled from the spec: the frequency oracle [BlockFrequencyInfo] is not
    among the sources.  It is one table of block frequencies, and the
    execution counts are read off the frequencies: [getBlockFreq] is the
    recorded frequency of a block (0 when none is recorded),
    [getBlockProfileCount] the execution count that the oracle derives from
    that frequency, when it has one, and [setBlockFreq] records a frequency,
    so that a block given the frequency of another has its count as well. *)
Definition getBlockFreq (B : BlockFrequencyInfo) (BB : BlockId) : Z :=
  default 0 (Freqs B !! BB).

(** Modelled from the spec: [BlockFrequencyInfo::getBlockProfileCount], the
    execution count of the block when the oracle has one; it is a function of
    the frequency of the block. *)
Definition getBlockProfileCount (B : BlockFrequencyInfo) (BB : BlockId) : option Z :=
  ProfileCountFromFreq B (getBlockFreq B BB).

(** Modelled from the spec: [BlockFrequencyInfo::setBlockFreq] records the
    frequency of one block and leaves the others alone. *)
Definition setBlockFreq (B : BlockFrequencyInfo) (BB : BlockId) (Freq : Z) : BlockFrequencyInfo :=
  {| Freqs := <[BB := Freq]> (Freqs B); ProfileCountFromFreq := ProfileCountFromFreq B |}.

(** *** Mutation of the control-flow graph

    The operations of the LLVM IR library that [perform] calls are not among
    the sources; each one is modelled from the spec's description of the
    rewrite and of the mutator it calls. *)

Fixpoint splitBefore (I : InstId) (l : list InstId) : option (list InstId * list InstId) :=
  match l with
  | [] => None
  | x :: r =>
      if decide (x = I) then Some ([], l)
      else match splitBefore I r with
           | Some (a, b) => Some (x :: a, b)
           | None => None
           end
  end.

Fixpoint insertBlockBefore (New Before : BlockId) (l : list BlockId) : list BlockId :=
  match l with
  | [] => [New]
  | x :: r => if decide (x = Before) then New :: l else x :: insertBlockBefore New Before r
  end.

Fixpoint insertBlockAfter (New After : BlockId) (l : list BlockId) : list BlockId :=
  match l with
  | [] => [New]
  | x :: r => if decide (x = After) then x :: New :: r else x :: insertBlockAfter New After r
  end.

Definition replaceIncomingBlock (Old New : BlockId) (i : Instruction) : Instruction :=
  match Body i with
  | PHINode Incoming =>
      setBody (PHINode ((fun p => (p.1, if decide (p.2 = Old) then New else p.2)) <$> Incoming)) i
  | _ => i
  end.

(** Modelled from the spec: [SplitBlock] of
    llvm/Transforms/Utils/BasicBlockUtils.cpp is not among the sources.  It
    splits block [Old] immediately before instruction [I]: the instructions
    from [I] on move to a new block, which comes after [Old] in the function;
    [Old] ends in a branch to the new block; phi nodes that named [Old] as a
    predecessor name the new block. *)
Definition SplitBlock (F : Function) (Old : BlockId) (I : InstId) : Outcome (Function * BlockId) :=
  bb <- getBlock F Old ;;
  match splitBefore I (Insts bb) with
  | None => Undefined NullPointer
  | Some (before, after) =>
      let New := fresh (dom (Blocks F)) in
      let Br := fresh (dom (Instrs F)) in
      let moved := foldr (fun j m => alter (setParent (Some New)) j m)
                         (replaceIncomingBlock Old New <$> Instrs F) after in
      let instrs :=
        <[Br := {| Body := BranchInst New; InstTy := VoidTy; Prof := None;
                   Parent := Some Old |}]> moved in
      let blocks :=
        <[New := {| Name := Name bb +:+ ".split"; Insts := after |}]>
          (<[Old := {| Name := Name bb; Insts := before ++ [Br] |}]> (Blocks F)) in
      Ret (setInstrs (setBlocks F blocks (insertBlockAfter New Old (Layout F))) instrs, New)
  end.

(** Modelled from the spec: [BasicBlock::setName]; the model keeps the name
    asked for. *)
Definition setName (F : Function) (B : BlockId) (n : string) : Function :=
  setBlocks F (alter (fun bb => {| Name := n; Insts := Insts bb |}) B (Blocks F)) (Layout F).

(** Modelled from the spec: [BB->getTerminator()], the last instruction of the block, when it is a
    terminator. *)
Definition getTerminator (F : Function) (B : BlockId) : option InstId :=
  match Blocks F !! B with
  | Some bb =>
      match last (Insts bb) with
      | Some t =>
          match Instrs F !! t with
          | Some i => if isTerminator (Body i) then Some t else None
          | None => None
          end
      | None => None
      end
  | None => None
  end.

Definition removeInst (I : InstId) (bb : BasicBlock) : BasicBlock :=
  {| Name := Name bb; Insts := filter (fun j => j ≠ I) (Insts bb) |}.

(** Modelled from the spec: [I->eraseFromParent()] removes the instruction
    from its block and destroys it. *)
Definition eraseFromParent (F : Function) (I : InstId) : Function :=
  match Instrs F !! I with
  | Some i =>
      let blocks :=
        match Parent i with
        | Some B => alter (removeInst I) B (Blocks F)
        | None => Blocks F
        end in
      setInstrs (setBlocks F blocks (Layout F)) (delete I (Instrs F))
  | None => F
  end.

(** Modelled from the spec: a new instruction appended to block [B] (an
    [IRBuilder] positioned at the end of the block, and
    [getInstList().push_back]). *)
Definition appendInst (F : Function) (B : BlockId) (I : InstId) (i : Instruction) : Function :=
  setInstrs
    (setBlocks F (alter (fun bb => {| Name := Name bb; Insts := Insts bb ++ [I] |}) B (Blocks F))
       (Layout F))
    (<[I := setParent (Some B) i]> (Instrs F)).

(** Modelled from the spec: the position of an [IRBuilder] created at
    [MergeBB->getFirstNonPHI()]; there is none when the block holds phi nodes
    only. *)
Fixpoint insertBeforeFirstNonPHI (F : Function) (New : InstId) (l : list InstId)
    : option (list InstId) :=
  match l with
  | [] => None
  | x :: r =>
      match Instrs F !! x with
      | Some i =>
          if isPHI (Body i)
          then match insertBeforeFirstNonPHI F New r with
               | Some r' => Some (x :: r')
               | None => None
               end
          else Some (New :: l)
      | None => Some (New :: l)
      end
  end.

Definition replaceUse (Old New : IRValue) (v : IRValue) : IRValue :=
  if decide (v = Old) then New else v.

Definition replaceUsesInBody (Old New : IRValue) (b : InstBody) : InstBody :=
  match b with
  | MemIntrinsic ID Args => MemIntrinsic ID (replaceUse Old New <$> Args)
  | CallInst Callee Args => CallInst Callee (replaceUse Old New <$> Args)
  | PHINode Incoming => PHINode ((fun p => (replaceUse Old New p.1, p.2)) <$> Incoming)
  | BranchInst Dest => BranchInst Dest
  | SwitchInst Cond D Cases =>
      SwitchInst (replaceUse Old New Cond) D ((fun p => (replaceUse Old New p.1, p.2)) <$> Cases)
  | OtherInst t Ops => OtherInst t (replaceUse Old New <$> Ops)
  end.

(** Modelled from the spec: [Old->replaceAllUsesWith(New)], every operand
    that is [Old] becomes [New]. *)
Definition replaceAllUsesWith (F : Function) (Old New : InstId) : Function :=
  setInstrs F ((fun i => setBody (replaceUsesInBody (InstVal Old) (InstVal New) (Body i)) i)
               <$> Instrs F).

(** Modelled from the spec: [PHINode::addIncoming] appends an incoming value
    with the block it comes from. *)
Definition addIncoming (V : IRValue) (BB : BlockId) (i : Instruction) : Instruction :=
  match Body i with
  | PHINode Incoming => setBody (PHINode (Incoming ++ [(V, BB)])) i
  | _ => i
  end.

(** Modelled from the spec: [SwitchInst::addCase] appends a case value with
    its target. *)
Definition addCase (OnVal : IRValue) (Dest : BlockId) (i : Instruction) : Instruction :=
  match Body i with
  | SwitchInst Cond D Cases => setBody (SwitchInst Cond D (Cases ++ [(OnVal, Dest)])) i
  | _ => i
  end.

(** An update in place of the instruction [I] points to. *)
Definition updateInst (F : Function) (I : InstId) (f : Instruction -> Instruction) : Function :=
  setInstrs F (alter f I (Instrs F)).

(** ** [MemOPSizeOpt::perform(MemOp MO)] *)

(** What a rewrite created; [perform] itself answers only [true]. *)
Record RewriteInfo := {
  HeadBB : BlockId;
  DefaultBB : BlockId;
  MergeBB : BlockId;
  Switch : InstId;
  PHI : option InstId;
  CaseBBs : list (BlockId * InstId);
  OrigBBFreq : Z
}.

(** A failed assertion on a pointer: the abort, or with [NDEBUG] the use of
    the null pointer that follows. *)
Definition failed {A} (cfg : Options) (a : Assertion) (u : UBKind) : Outcome A :=
  if NDEBUG cfg then Undefined u else Abort a.

(** One iteration of [for (uint64_t SizeId : SizeIds)].  [setID], which tags
    the clone for the repository's logging tools, touches no operand, block
    or metadata and is left out, and so are the dominator-tree updates. *)
Definition createCase (cfg : Options) (MO : InstId) (DefaultBB MergeBB : BlockId)
    (SI : InstId) (PHI : option InstId) (F : Function) (SizeId : Z)
    : Outcome (Function * (BlockId * InstId)) :=
  let CaseBB := fresh (dom (Blocks F)) in
  let F := setBlocks F
             (<[CaseBB := {| Name := "MemOP.Case." +:+ pretty SizeId; Insts := [] |}]> (Blocks F))
             (insertBlockBefore CaseBB DefaultBB (Layout F)) in
  orig <- getInst F MO ;;
  let NewMO := MemOp.clone orig in
  len <- MemOp.getLength NewMO ;;
  ty <- getType F len ;;
  match ty with
  | IntegerTy bits =>
      let CaseSizeId := ConstantInt bits (SizeId mod 2 ^ Z.of_N bits) in
      let NewI := fresh (dom (Instrs F)) in
      let F := appendInst F CaseBB NewI (MemOp.setLength CaseSizeId NewMO) in
      let Br := fresh (dom (Instrs F)) in
      let F := appendInst F CaseBB Br
                 {| Body := BranchInst MergeBB; InstTy := VoidTy; Prof := None; Parent := None |} in
      let F := updateInst F SI (addCase CaseSizeId CaseBB) in
      let F := match PHI with
               | Some P => updateInst F P (addIncoming (InstVal NewI) CaseBB)
               | None => F
               end in
      Ret (F, (CaseBB, NewI))
  | _ => failed cfg AssertSizeType NullPointer
  end.

Fixpoint createCases (cfg : Options) (MO : InstId) (DefaultBB MergeBB : BlockId)
    (SI : InstId) (PHI : option InstId) (SizeIds : list Z) (F : Function)
    : Outcome (Function * list (BlockId * InstId)) :=
  match SizeIds with
  | [] => Ret (F, [])
  | SizeId :: rest =>
      r <- createCase cfg MO DefaultBB MergeBB SI PHI F SizeId ;;
      r' <- createCases cfg MO DefaultBB MergeBB SI PHI rest r.1 ;;
      Ret (r'.1, r.2 :: r'.2)
  end.

(** The merge-block phi: created before the first non-phi instruction of the
    merge block, then every use of the call is redirected to it, then the call
    is registered as the value that comes from the default block. *)
Definition createPHI (F : Function) (MO : InstId) (MemOpTy : Ty) (DefaultBB MergeBB : BlockId)
    : Outcome (Function * InstId) :=
  mb <- getBlock F MergeBB ;;
  let P := fresh (dom (Instrs F)) in
  match insertBeforeFirstNonPHI F P (Insts mb) with
  | None => Undefined NullPointer
  | Some insts =>
      let F := setInstrs
                 (setBlocks F (<[MergeBB := {| Name := Name mb; Insts := insts |}]> (Blocks F))
                    (Layout F))
                 (<[P := {| Body := PHINode []; InstTy := MemOpTy; Prof := None;
                            Parent := Some MergeBB |}]> (Instrs F)) in
      let F := replaceAllUsesWith F MO P in
      let F := updateInst F P (addIncoming (InstVal MO) DefaultBB) in
      Ret (F, P)
  end.

(** Lines 437-520: the rewrite, once the plan is accepted. *)
Definition rewrite (cfg : Options) (st : State) (MO : InstId) (inst : Instruction)
    (VDs : list InstrProfValueData) (pl : PlanState) (CaseCounts : list Z)
    (MaxCount SumForOpt TotalCount : Z) : Outcome (RewriteInfo * State) :=
  let F := Func st in
  let NumVals := Z.of_nat (length VDs) in
  match Parent inst with
  | None => Undefined NullPointer
  | Some BB =>
      let OrigBBFreq := getBlockFreq (BFI st) BB in
      s1 <- SplitBlock F BB MO ;;
      let F := s1.1 in
      let DefaultBB := s1.2 in
      db <- getBlock F DefaultBB ;;
      match Insts db with
      | _ :: It :: _ =>
          s2 <- SplitBlock F DefaultBB It ;;
          let F := s2.1 in
          let MergeBB := s2.2 in
          let F := setName F MergeBB "MemOP.Merge" in
          let bfi := setBlockFreq (BFI st) MergeBB OrigBBFreq in
          let F := setName F DefaultBB "MemOP.Default" in
          match getTerminator F BB with
          | None => Undefined NullPointer
          | Some T =>
              let F := eraseFromParent F T in
              cur <- getInst F MO ;;
              SizeVar <- MemOp.getLength cur ;;
              let SI := fresh (dom (Instrs F)) in
              let F := appendInst F BB SI
                         {| Body := SwitchInst SizeVar DefaultBB []; InstTy := VoidTy;
                            Prof := None; Parent := None |} in
              let MemOpTy := InstTy inst in
              ph <- (if bool_decide (MemOpTy = VoidTy) then Ret (F, None)
                     else r <- createPHI F MO MemOpTy DefaultBB MergeBB ;;
                          Ret (r.1, Some r.2)) ;;
              let F := ph.1 in
              let PHI := ph.2 in
              let F := updateInst F MO (setProf None) in
              let F :=
                if (SavedRemainCount pl >? 0) || negb (Version pl =? NumVals)
                then updateInst F MO
                       (annotateValueSite (drop (Z.to_nat (Version pl)) VDs)
                          (SavedRemainCount pl) IPVK_MemOPSize NumVals)
                else F in
              cs <- createCases cfg MO DefaultBB MergeBB SI PHI (SizeIds pl) F ;;
              let F := cs.1 in
              let F := updateInst F SI (setProfMetadata CaseCounts MaxCount) in
              remarks <-
                (if RemarksEnabled st then
                   fin <- getInst F MO ;;
                   match MemOp.getName fin with
                   | Some n =>
                       Ret (ORE st ++ [{| RemarkMemop := n; RemarkCount := SumForOpt;
                                          RemarkTotal := TotalCount;
                                          RemarkVersions := Version pl |}])
                   | None => failed cfg AssertUnreachable Unreachable
                   end
                 else Ret (ORE st)) ;;
              Ret ({| HeadBB := BB; DefaultBB := DefaultBB; MergeBB := MergeBB;
                      Switch := SI; PHI := PHI; CaseBBs := cs.2;
                      OrigBBFreq := OrigBBFreq |},
                   {| Func := F; BFI := bfi; ORE := remarks;
                      RemarksEnabled := RemarksEnabled st |})
          end
      | _ => failed cfg AssertItNotEnd NullPointer
      end
  end.

(** Lines 326-415: the gates and the plan; [None] is [return false]. *)
Definition performInfo (cfg : Options) (st : State) (MO : InstId)
    : Outcome (option RewriteInfo * State) :=
  match Instrs (Func st) !! MO with
  | None => failed cfg AssertMOI NullPointer
  | Some inst =>
      if MemOp.isMemmove inst then Ret (None, st)
      else if negb (MemOPOptMemcmpBcmp cfg) && (MemOp.isMemcmp inst || MemOp.isBcmp inst)
      then Ret (None, st)
      else
        let MaxNumPromotions := wrap32 (MemOPMaxVersion cfg + 2) in
        match getValueProfDataFromInst inst IPVK_MemOPSize MaxNumPromotions with
        | None => Ret (None, st)
        | Some (VDs, TotalCount) =>
            let SavedTotalCount := TotalCount in
            match (if MemOPScaleCount cfg
                   then match Parent inst with
                        | Some BB => Ret (getBlockProfileCount (BFI st) BB)
                        | None => Undefined NullPointer
                        end
                   else Ret (Some TotalCount)) with
            | Ret None => Ret (None, st)
            | Ret (Some ActualCount) =>
                if ActualCount <? MemOPCountThreshold cfg then Ret (None, st)
                else if TotalCount =? 0 then Ret (None, st)
                else
                  let TotalCount := ActualCount in
                  pl <- planLoop cfg ActualCount SavedTotalCount VDs
                          (initPlan TotalCount SavedTotalCount) ;;
                  if Version pl =? 0 then Ret (None, st)
                  else
                    let CaseCounts := <[0%nat := RemainCount pl]> (CaseCounts pl) in
                    let MaxCount :=
                      if RemainCount pl >? MaxCount pl then RemainCount pl else MaxCount pl in
                    let SumForOpt := wrap64 (TotalCount - RemainCount pl) in
                    r <- rewrite cfg st MO inst VDs pl CaseCounts MaxCount SumForOpt TotalCount ;;
                    Ret (Some r.1, r.2)
            | Abort a => Abort a
            | Undefined u => Undefined u
            end
        end
  end.

Definition perform (cfg : Options) (st : State) (MO : InstId) : Outcome (bool * State) :=
  r <- performInfo cfg st MO ;;
  Ret (bool_decide (is_Some r.1), r.2).

(** ** The candidate collector and the driver *)

Definition isConstantInt (v : IRValue) : bool :=
  match v with ConstantInt _ _ => true | _ => false end.

Definition visitMemIntrinsic (WorkList : list InstId) (I : InstId) (MI : Instruction)
    : Outcome (list InstId) :=
  Length <- MemOp.getLength MI ;;
  if isConstantInt Length then Ret WorkList
  else Ret (WorkList ++ [I]).

Definition visitCallInst (WorkList : list InstId) (I : InstId) (CI : Instruction)
    : Outcome (list InstId) :=
  match MemOp.getLibFunc CI with
  | Some Func =>
      if bool_decide (Func = LibFunc_memcmp) || bool_decide (Func = LibFunc_bcmp) then
        Length <- MemOp.getLength CI ;;
        if negb (isConstantInt Length) then Ret (WorkList ++ [I]) else Ret WorkList
      else Ret WorkList
  | None => Ret WorkList
  end.

(** [InstVisitor] sends a memory intrinsic to [visitMemIntrinsic] and any
    other call to [visitCallInst]. *)
Definition visitInstruction (F : Function) (WorkList : list InstId) (I : InstId)
    : Outcome (list InstId) :=
  inst <- getInst F I ;;
  match Body inst with
  | MemIntrinsic _ _ => visitMemIntrinsic WorkList I inst
  | CallInst _ _ => visitCallInst WorkList I inst
  | _ => Ret WorkList
  end.

Fixpoint visitInsts (F : Function) (WorkList : list InstId) (l : list InstId)
    : Outcome (list InstId) :=
  match l with
  | [] => Ret WorkList
  | i :: rest => w <- visitInstruction F WorkList i ;; visitInsts F w rest
  end.

Fixpoint visitBlocks (F : Function) (WorkList : list InstId) (l : list BlockId)
    : Outcome (list InstId) :=
  match l with
  | [] => Ret WorkList
  | B :: rest =>
      bb <- getBlock F B ;;
      w <- visitInsts F WorkList (Insts bb) ;;
      visitBlocks F w rest
  end.

(** [visit(Func)] on an empty worklist. *)
Definition visit (F : Function) : Outcome (list InstId) :=
  visitBlocks F [] (Layout F).

Record PassResult := {
  Changed : bool;
  Final : State;
  NumOfPGOMemOPAnnotate : Z;
  NumOfPGOMemOPOpt : Z
}.

Fixpoint performWorkList (cfg : Options) (WorkList : list InstId) (r : PassResult)
    : Outcome PassResult :=
  match WorkList with
  | [] => Ret r
  | MO :: rest =>
      p <- perform cfg (Final r) MO ;;
      performWorkList cfg rest
        {| Changed := if p.1 then true else Changed r;
           Final := p.2;
           NumOfPGOMemOPAnnotate := NumOfPGOMemOPAnnotate r + 1;
           NumOfPGOMemOPOpt := if p.1 then NumOfPGOMemOPOpt r + 1 else NumOfPGOMemOPOpt r |}
  end.

(** [MemOPSizeOpt::perform()] *)
Definition performAll (cfg : Options) (st : State) : Outcome PassResult :=
  WorkList <- visit (Func st) ;;
  performWorkList cfg WorkList
    {| Changed := false; Final := st; NumOfPGOMemOPAnnotate := 0; NumOfPGOMemOPOpt := 0 |}.

Definition PGOMemOPSizeOptImpl (cfg : Options) (st : State) : Outcome (bool * State) :=
  if DisableMemOPOPT cfg then Ret (false, st)
  else if OptimizeForSize (Func st) then Ret (false, st)
  else r <- performAll cfg st ;; Ret (Changed r, Final r).

(** ** Configurations and inputs used in the examples *)

(** The same options in a build that checks assertions. *)
Definition withAsserts (cfg : Options) : Options :=
  {| MemOPCountThreshold := MemOPCountThreshold cfg;
     DisableMemOPOPT := DisableMemOPOPT cfg;
     MemOPPercentThreshold := MemOPPercentThreshold cfg;
     MemOPMaxVersion := MemOPMaxVersion cfg;
     MemOPScaleCount := MemOPScaleCount cfg;
     MemOPSizeLarge := MemOPSizeLarge cfg;
     UseOldMemOpValueProf := UseOldMemOpValueProf cfg;
     MemOPOptMemcmpBcmp := MemOPOptMemcmpBcmp cfg;
     MemOpMaxOptSize := MemOpMaxOptSize cfg;
     PreciseRangeStart := PreciseRangeStart cfg;
     PreciseRangeLast := PreciseRangeLast cfg;
     InstrProfIsSingleValRange := InstrProfIsSingleValRange cfg;
     NDEBUG := false |}.

(** The defaults of the options declared in the file, except for those
    given as arguments: the percent threshold, count scaling, the value-kind
    mode and the specialisation of comparison calls.  The extern options
    select the precise range 0..8 with large value 8192, and the build checks
    assertions.  In the direct mode a value is taken as single when it is at
    most 8 or one of 16, 32, 64, 128. *)
Definition optionsWith (percent : Z) (scale old cmp : bool) : Options :=
  {| MemOPCountThreshold := 1000;
     DisableMemOPOPT := false;
     MemOPPercentThreshold := percent;
     MemOPMaxVersion := 3;
     MemOPScaleCount := scale;
     MemOPSizeLarge := 8192;
     UseOldMemOpValueProf := old;
     MemOPOptMemcmpBcmp := cmp;
     MemOpMaxOptSize := 128;
     PreciseRangeStart := 0;
     PreciseRangeLast := 8;
     InstrProfIsSingleValRange :=
       (fun v => (v <=? 8) || bool_decide (v ∈ [16; 32; 64; 128]));
     NDEBUG := false |}.

Definition exampleOptions (scale old : bool) : Options := optionsWith 40 scale old true.

(** Comparison calls are not specialised. *)
Definition noCmpOptions : Options := optionsWith 40 false true false.

(** The percent threshold is 70. *)
Definition percent70Options : Options := optionsWith 70 false true true.

Definition VD (v c : Z) : InstrProfValueData := {| Value := v; Count := c |}.

Definition sumCounts (VDs : list InstrProfValueData) : Z :=
  foldr (fun vd s => Count vd + s) 0 VDs.

Definition sumZ (l : list Z) : Z := foldr Z.add 0 l.

(** The profitability test as a formula, in the arithmetic of the code:
    the product is taken in [uint64_t]. *)
Definition profitable (cfg : Options) (C Remain : Z) : bool :=
  (MemOPCountThreshold cfg <=? C)
  && (wrap64 (Remain * MemOPPercentThreshold cfg) / 100 <=? C).

(** The state after a sample with value [V], scaled count [C] and raw count
    [c] is accepted. *)
Definition accept (st : PlanState) (V C c : Z) : PlanState :=
  {| RemainCount := wrap64 (RemainCount st - C);
     SavedRemainCount := wrap64 (SavedRemainCount st - c);
     SizeIds := SizeIds st ++ [wrap64 V];
     CaseCounts := CaseCounts st ++ [C];
     MaxCount := if C >? MaxCount st then C else MaxCount st;
     Version := wrap32 (Version st + 1) |}.

(** Whether the loop leaves after an acceptance that brings the version
    counter to [v]. *)
Definition capReached (cfg : Options) (v : Z) : bool :=
  (v >? MemOPMaxVersion cfg) && negb (MemOPMaxVersion cfg =? 0).

(** No division by zero was executed. *)
Definition noDivZero {A} (m : Outcome A) : Prop := m <> Undefined DivisionByZero.

(** What holds between two iterations of the planning loop, with [rest] the
    samples still to come, [A] the total planned against and [D] the raw
    total: the remaining counts are in range, the scaled remainder is at least
    the raw remainder scaled, and the accepted counts and the remainder add up
    to the total. *)
Record planInv (A D : Z) (rest : list InstrProfValueData) (st : PlanState) : Prop := {
  inv_remain : 0 <= RemainCount st;
  inv_saved : 0 <= SavedRemainCount st <= D;
  inv_ratio : SavedRemainCount st * A <= RemainCount st * D;
  inv_rest : sumCounts rest <= SavedRemainCount st;
  inv_sum : sumZ (tail (CaseCounts st)) + RemainCount st = A;
  inv_nonneg : Forall (fun c => 0 <= c) (tail (CaseCounts st));
  inv_head : CaseCounts st <> []
}.

(** A function of one block: instruction 0 computes a length, instruction 1
    is the call site, instruction 2 uses [user], instruction 3 returns. *)
Definition mkInst (b : InstBody) (ty : Ty) (md : option MDProf) : Instruction :=
  {| Body := b; InstTy := ty; Prof := md; Parent := Some 0%nat |}.

Definition siteFunction (call : Instruction) (user : list IRValue) : Function :=
  {| Blocks := {[ 0%nat := {| Name := "entry"; Insts := [0; 1; 2; 3]%nat |} ]};
     Layout := [0%nat];
     Instrs :=
       list_to_map
         [ (0%nat, mkInst (OtherInst false [OtherVal 0 (IntegerTy 64)]) (IntegerTy 64) None);
           (1%nat, call);
           (2%nat, mkInst (OtherInst false user) (IntegerTy 64) None);
           (3%nat, mkInst (OtherInst true [InstVal 2]) VoidTy None) ];
     OptimizeForSize := false |}.

(** The block has frequency 77 and, when [count] is given, that execution
    count; counts are proportional to frequencies. *)
Definition siteState (call : Instruction) (user : list IRValue) (count : option Z) : State :=
  {| Func := siteFunction call user;
     BFI := {| Freqs := {[ 0%nat := 77 ]};
               ProfileCountFromFreq := fun f => match count with
                                                | Some c => Some (c * f / 77)
                                                | None => None
                                                end |};
     ORE := [];
     RemarksEnabled := true |}.

Definition memOPSizeProfile (total : Z) (VDs : list InstrProfValueData) : option MDProf :=
  Some (MD_VP IPVK_MemOPSize total VDs).

(** [memcpy(dst, src, len, false)] with [len] the result of instruction 0. *)
Definition memcpyCall (md : option MDProf) : Instruction :=
  mkInst (MemIntrinsic Intrinsic_memcpy
            [OtherVal 1 OtherTy; OtherVal 2 OtherTy; InstVal 0; ConstantInt 1 0])
         VoidTy md.

Definition memmoveCall (md : option MDProf) : Instruction :=
  mkInst (MemIntrinsic Intrinsic_memmove
            [OtherVal 1 OtherTy; OtherVal 2 OtherTy; InstVal 0; ConstantInt 1 0])
         VoidTy md.

(** [memcmp(a, b, len)], an [i32]. *)
Definition memcmpCall (md : option MDProf) : Instruction :=
  mkInst (CallInst (Some LibFunc_memcmp) [OtherVal 1 OtherTy; OtherVal 2 OtherTy; InstVal 0])
         (IntegerTy 32) md.

(** The copy site of the scenario; [other] is the third observed value. *)
Definition scenarioState (other : Z) : State :=
  siteState (memcpyCall (memOPSizeProfile 10000 [VD 16 6000; VD 32 3000; VD other 1000]))
            [InstVal 0] None.

(** A copy site with four profitable sizes. *)
Definition fourSizesState : State :=
  siteState
    (memcpyCall (memOPSizeProfile 10000 [VD 1 5000; VD 2 2500; VD 3 1250; VD 4 1000]))
    [InstVal 0] (Some 10000).

(** A copy site executed 461168601842738791 times, 1000 of them with size
    16. *)
Definition hugeTotalState : State :=
  siteState (memcpyCall (memOPSizeProfile 461168601842738791 [VD 16 1000]))
            [InstVal 0] None.

(** A copy site whose most frequent value, 9, stands for the group of sizes
    above the precise range. *)
Definition groupFirstState : State :=
  siteState (memcpyCall (memOPSizeProfile 10000 [VD 9 5000; VD 4 4500; VD 8 500]))
            [InstVal 0] None.

(** A comparison site whose result is used by instructions 2 and 3. *)
Definition cmpState : State :=
  {| Func :=
       {| Blocks := {[ 0%nat := {| Name := "entry"; Insts := [0; 1; 2; 3]%nat |} ]};
          Layout := [0%nat];
          Instrs :=
            list_to_map
              [ (0%nat, mkInst (OtherInst false [OtherVal 0 (IntegerTy 64)]) (IntegerTy 64) None);
                (1%nat, memcmpCall (memOPSizeProfile 10000 [VD 4 6000; VD 8 3000; VD 9 1000]));
                (2%nat, mkInst (OtherInst false [InstVal 1]) (IntegerTy 32) None);
                (3%nat, mkInst (OtherInst true [InstVal 2; InstVal 1]) VoidTy None) ];
          OptimizeForSize := false |};
     BFI := {| Freqs := {[ 0%nat := 77 ]}; ProfileCountFromFreq := fun _ => None |};
     ORE := [];
     RemarksEnabled := true |}.

(** A move site with the profile of the scenario, and a copy site whose
    profile has total zero. *)
Definition moveState : State :=
  siteState (memmoveCall (memOPSizeProfile 10000 [VD 16 6000; VD 32 3000; VD 9 1000]))
            [InstVal 0] (Some 10000).

Definition zeroTotalState : State :=
  siteState (memcpyCall (memOPSizeProfile 0 [VD 16 6000; VD 32 3000]))
            [InstVal 0] (Some 10000).

(** The case values and targets of a switch, and the profile attached to an
    instruction. *)
Definition switchCases (F : Function) (SI : InstId) : list (IRValue * BlockId) :=
  match Instrs F !! SI with
  | Some i => match Body i with SwitchInst _ _ Cases => Cases | _ => [] end
  | None => []
  end.

Definition profOf (F : Function) (I : InstId) : option MDProf :=
  match Instrs F !! I with
  | Some i => Prof i
  | None => None
  end.

(** A call to [memcmp] or [bcmp], as the library information sees it. *)
Definition isCmp (inst : Instruction) : bool :=
  MemOp.isMemcmp inst || MemOp.isBcmp inst.

(** The total that [perform] plans against. *)
Definition actualTotal (cfg : Options) (st : State) (BB : BlockId) (TotalCount : Z)
    : option Z :=
  if MemOPScaleCount cfg then getBlockProfileCount (BFI st) BB else Some TotalCount.

(** The profile that [perform] reads from a call site. *)
Definition readProfile (cfg : Options) (inst : Instruction)
    : option (list InstrProfValueData * Z) :=
  getValueProfDataFromInst inst IPVK_MemOPSize (wrap32 (MemOPMaxVersion cfg + 2)).

(** The conditions under which a call site, in block [BB], is not a
    candidate. *)
Inductive NotApplicable (cfg : Options) (st : State) (inst : Instruction) (BB : BlockId)
    : Prop :=
| NA_move :
    MemOp.isMemmove inst = true -> NotApplicable cfg st inst BB
| NA_cmp_disabled :
    MemOPOptMemcmpBcmp cfg = false -> isCmp inst = true -> NotApplicable cfg st inst BB
| NA_no_profile :
    readProfile cfg inst = None -> NotApplicable cfg st inst BB
| NA_no_frequency :
    MemOPScaleCount cfg = true -> getBlockProfileCount (BFI st) BB = None ->
    NotApplicable cfg st inst BB
| NA_below_threshold VDs TotalCount ActualCount :
    readProfile cfg inst = Some (VDs, TotalCount) ->
    actualTotal cfg st BB TotalCount = Some ActualCount ->
    ActualCount < MemOPCountThreshold cfg ->
    NotApplicable cfg st inst BB
| NA_zero_total VDs :
    readProfile cfg inst = Some (VDs, 0) -> NotApplicable cfg st inst BB
| NA_no_version VDs TotalCount ActualCount pl :
    readProfile cfg inst = Some (VDs, TotalCount) ->
    actualTotal cfg st BB TotalCount = Some ActualCount ->
    planLoop cfg ActualCount TotalCount VDs (initPlan ActualCount TotalCount) = Ret pl ->
    Version pl = 0 ->
    NotApplicable cfg st inst BB.

(** What the steps between the planning and the case blocks change in an
    instruction: its profile at most. *)
Definition keepsShape (f : Instruction -> Instruction) : Prop :=
  forall i, Body (f i) = Body i /\ Parent (f i) = Parent i /\ InstTy (f i) = InstTy i.

(** No instruction of [F] other than the phi node has the result of [MO]
    among its operands. *)
Definition noOtherUse (F : Function) (MO : InstId) (PHI : option InstId) : Prop :=
  forall j i, Instrs F !! j = Some i -> Some j <> PHI -> InstVal MO ∉ operands (Body i).

(** Instruction [P] of [F] is a phi node of block [M] with the given type
    and incoming values. *)
Definition phiIs (F : Function) (P : InstId) (M : BlockId) (ty : Ty)
    (incoming : list (IRValue * BlockId)) : Prop :=
  exists phi, Instrs F !! P = Some phi /\ Body phi = PHINode incoming
              /\ Parent phi = Some M /\ InstTy phi = ty.

(** The incoming value that a case block contributes: the clone it holds. *)
Definition caseIncoming (c : BlockId * InstId) : IRValue * BlockId := (InstVal c.2, c.1).

(** Every instruction of [F] is an instruction of [F'] with the same
    operands. *)
Definition operandsKept (F F' : Function) : Prop :=
  forall j i, Instrs F !! j = Some i ->
    exists i', Instrs F' !! j = Some i' /\ operands (Body i') = operands (Body i).

(** Every instruction of [F] that has [v] among its operands is an
    instruction of [F'] that has [v] among its operands. *)
Definition usesKept (v : IRValue) (F F' : Function) : Prop :=
  forall j i, Instrs F !! j = Some i -> v ∈ operands (Body i) ->
    exists i', Instrs F' !! j = Some i' /\ v ∈ operands (Body i').

(** Instruction [SI] of [F] is a switch with default target [d] whose case
    targets are, in order, [targets]. *)
Definition switchTargets (F : Function) (SI : InstId) (d : BlockId) (targets : list BlockId)
    : Prop :=
  exists si cond cases,
    Instrs F !! SI = Some si /\ Body si = SwitchInst cond d cases /\ cases.*2 = targets.

(** ** Further notions used below *)

(** The size that an accepted sample contributes to [SizeIds]. *)
Definition sizeOf (vd : InstrProfValueData) : Z := wrap64 (toInt64 (Value vd)).

(** The samples that the value-kind filter lets pass. *)
Definition unskipped (cfg : Options) (VDs : list InstrProfValueData)
    : list InstrProfValueData :=
  filter (fun vd => skipValue cfg (toInt64 (Value vd)) = false) VDs.

(** What the collector looks for: a memory intrinsic, or a call that the
    library information knows as [memcmp] or [bcmp], whose length operand is
    not a constant. *)
Definition isCandidate (inst : Instruction) : bool :=
  match Body inst with
  | MemIntrinsic _ Args =>
      match Args !! 2%nat with
      | Some v => negb (isConstantInt v)
      | None => false
      end
  | CallInst (Some Func) Args =>
      (bool_decide (Func = LibFunc_memcmp) || bool_decide (Func = LibFunc_bcmp))
      && match Args !! 2%nat with
         | Some v => negb (isConstantInt v)
         | None => false
         end
  | _ => false
  end.

Definition candidateId (F : Function) (I : InstId) : bool :=
  match Instrs F !! I with
  | Some inst => isCandidate inst
  | None => false
  end.

(** The instructions of a function in the order in which [visit] meets
    them. *)
Definition instructionsInOrder (F : Function) : list InstId :=
  B ← Layout F; default [] (Insts <$> Blocks F !! B).

(** Every block of the layout and every instruction of those blocks exists,
    and every memory intrinsic and every [memcmp]/[bcmp] call has a length
    operand. *)
Definition visitable (F : Function) : Prop :=
  forall B, B ∈ Layout F ->
    exists bb, Blocks F !! B = Some bb
      /\ forall I, I ∈ Insts bb ->
           exists inst, Instrs F !! I = Some inst
             /\ ((MemOp.asMI inst <> None \/ isCmp inst = true) ->
                 exists v, MemOp.getLength inst = Ret v).

(** The state after the samples of [acc] are accepted one after the other,
    each with the scaled count paired with it. *)
Definition acceptAll (st : PlanState) (acc : list (InstrProfValueData * Z)) : PlanState :=
  foldl (fun s p => accept s (toInt64 (Value p.1)) p.2 (Count p.1)) st acc.

(** The scaled count that the loop computes for a sample. *)
Definition scaledCountIs (cfg : Options) (A D : Z) (p : InstrProfValueData * Z) : Prop :=
  (if MemOPScaleCount cfg then getScaledCount cfg (Count p.1) A D else Ret (Count p.1))
  = Ret p.2.


(** The kind of an instruction: its body without operands and targets. *)
Inductive Opcode :=
| OpMemIntrinsic (ID : IntrinsicID)
| OpCall (Callee : option LibFunc)
| OpPHI
| OpBranch
| OpSwitch
| OpOther (IsTerminator : bool).

Definition opcode (b : InstBody) : Opcode :=
  match b with
  | MemIntrinsic ID _ => OpMemIntrinsic ID
  | CallInst Callee _ => OpCall Callee
  | PHINode _ => OpPHI
  | BranchInst _ => OpBranch
  | SwitchInst _ _ _ => OpSwitch
  | OtherInst t _ => OpOther t
  end.

(** Instruction [i'] is what became of [i]: the same kind of instruction, of
    the same type, and a candidate of the collector when [i] was one. *)
Definition siteKept (i i' : Instruction) : Prop :=
  opcode (Body i') = opcode (Body i)
  /\ InstTy i' = InstTy i
  /\ isCandidate i' = isCandidate i.

(** Every instruction of [F] is an instruction of [G], of the same kind and
    type, and with the same profile when it is not [MO]. *)
Definition keptFrom (MO : InstId) (F G : Function) : Prop :=
  forall j i, Instrs F !! j = Some i ->
    exists i', Instrs G !! j = Some i' /\ siteKept i i' /\ (j <> MO -> Prof i' = Prof i).

(** The value profile that the rewrite leaves on the call: the samples after
    the first [Version] ones with the raw count that remains, or none when no
    count remains and the version counter is the number of samples. *)
Definition residualProfile (VDs : list InstrProfValueData) (pl : PlanState) : option MDProf :=
  if (SavedRemainCount pl >? 0) || negb (Version pl =? Z.of_nat (length VDs))
  then Some (MD_VP IPVK_MemOPSize (SavedRemainCount pl) (drop (Z.to_nat (Version pl)) VDs))
  else None.

(** The samples of the value-profile record of an instruction. *)
Definition profileData (i : Instruction) : list InstrProfValueData :=
  match Prof i with
  | Some (MD_VP _ _ Data) => Data
  | _ => []
  end.

(** The case value of a size for a length of [bits] bits. *)
Definition caseValue (bits : N) (SizeId : Z) : IRValue :=
  ConstantInt bits (SizeId mod 2 ^ Z.of_N bits).

(** Block [c.1] of [F] is the case block of the size [SizeId] for the call
    [call]: it is named after the size and holds instruction [c.2], which is
    [call] with the constant as its length, and then a branch to [M]. *)
Definition caseBlockOf (F : Function) (call : Instruction) (bits : N) (M : BlockId)
    (SizeId : Z) (c : BlockId * InstId) : Prop :=
  exists br,
    Blocks F !! c.1
    = Some {| Name := "MemOP.Case." +:+ pretty SizeId; Insts := [c.2; br] |}
    /\ Instrs F !! c.2
       = Some (setParent (Some c.1) (MemOp.setLength (caseValue bits SizeId) call))
    /\ Instrs F !! br
       = Some {| Body := BranchInst M; InstTy := VoidTy; Prof := None;
                 Parent := Some c.1 |}.

(** The arguments of a call. *)
Definition callArgs (i : Instruction) : list IRValue :=
  match Body i with
  | MemIntrinsic _ Args | CallInst _ Args => Args
  | _ => []
  end.

(** [PGOMemOPSizeOpt::run] answers with the analyses it preserves. *)
Inductive AnalysisID := GlobalsAA | DominatorTreeAnalysis.

Inductive PreservedAnalyses :=
| PA_all
| PA_preserve (l : list AnalysisID).

Definition run (cfg : Options) (st : State) : Outcome (PreservedAnalyses * State) :=
  r <- PGOMemOPSizeOptImpl cfg st ;;
  if negb r.1 then Ret (PA_all, r.2)
  else Ret (PA_preserve [GlobalsAA; DominatorTreeAnalysis], r.2).

(** [PGOMemOPSizeOptLegacyPass::runOnFunction] *)
Definition runOnFunction (cfg : Options) (st : State) : Outcome (bool * State) :=
  PGOMemOPSizeOptImpl cfg st.

(** A call site that the collector found, in a well-formed block: the call
    is an instruction of the block [BB] it names as its parent; the block has
    no instruction twice, only instructions of the function, and ends in a
    terminator; the length operand is not the result of the call itself and
    has an integer type. *)
Record siteOk (st : State) (MO : InstId) (inst : Instruction) (BB : BlockId)
    (bb : BasicBlock) : Prop := {
  site_inst : Instrs (Func st) !! MO = Some inst;
  site_candidate : isCandidate inst = true;
  site_parent : Parent inst = Some BB;
  site_block : Blocks (Func st) !! BB = Some bb;
  site_member : MO ∈ Insts bb;
  site_nodup : NoDup (Insts bb);
  site_dom : forall j, j ∈ Insts bb -> j ∈ dom (Instrs (Func st));
  site_terminator :
    exists t ti, last (Insts bb) = Some t
                 /\ Instrs (Func st) !! t = Some ti /\ isTerminator (Body ti) = true;
  site_length :
    exists len bits, MemOp.getLength inst = Ret len
                     /\ len <> InstVal MO
                     /\ getType (Func st) len = Ret (IntegerTy bits)
}.

(** A profile record that is consistent: the total and the execution count
    of the block are 64-bit numbers, no count is negative, and the counts of
    the samples sum to at most the total. *)
Definition profileOk (cfg : Options) (st : State) (inst : Instruction) (BB : BlockId)
    : Prop :=
  forall VDs T, readProfile cfg inst = Some (VDs, T) ->
    is_u64 T
    /\ Forall (fun vd => 0 <= Count vd) VDs
    /\ sumCounts VDs <= T
    /\ (forall a, getBlockProfileCount (BFI st) BB = Some a -> is_u64 a).

(** Every instruction of [F] is an instruction of [G], in the same block. *)
Definition parentKept (F G : Function) : Prop :=
  forall j i, Instrs F !! j = Some i ->
    exists i', Instrs G !! j = Some i' /\ Parent i' = Parent i.

(** Block [B] of [F] is well formed: it has no instruction twice, each of its
    instructions is an instruction of the function that names [B] as its
    parent, and its last instruction is a terminator. *)
Definition blockOk (F : Function) (B : BlockId) : Prop :=
  exists blk t ti,
    Blocks F !! B = Some blk
    /\ NoDup (Insts blk)
    /\ (forall j, j ∈ Insts blk -> exists i, Instrs F !! j = Some i /\ Parent i = Some B)
    /\ last (Insts blk) = Some t
    /\ Instrs F !! t = Some ti
    /\ isTerminator (Body ti) = true.
(** ** Results: the outcome monad *)

Lemma bind_Ret {A B} (m : Outcome A) (k : A -> Outcome B) (b : B) :
  bind m k = Ret b -> exists a, m = Ret a /\ k a = Ret b.
Proof. destruct m; simpl; [eauto | discriminate | discriminate]. Qed.

Lemma assert_true cfg a : assert cfg true a = Ret tt.
Proof. unfold assert. by rewrite orb_true_r. Qed.

Lemma assert_Ret cfg c a : NDEBUG cfg = true \/ c = true -> assert cfg c a = Ret tt.
Proof. unfold assert. intros [-> | ->]; [done | by rewrite orb_true_r]. Qed.

Lemma noDivZero_bind {A B} (m : Outcome A) (k : A -> Outcome B) :
  noDivZero m -> (forall a, m = Ret a -> noDivZero (k a)) -> noDivZero (bind m k).
Proof.
  unfold noDivZero. destruct m as [a | a | u]; simpl; intros Hm Hk.
  - by apply Hk.
  - discriminate.
  - intros [= ->]. by apply Hm.
Qed.

Lemma noDivZero_Ret {A} (a : A) : noDivZero (Ret a).
Proof. discriminate. Qed.

Lemma noDivZero_Abort {A} a : noDivZero (@Abort A a).
Proof. discriminate. Qed.

Lemma noDivZero_failed {A} cfg a u : u <> DivisionByZero -> noDivZero (@failed A cfg a u).
Proof. unfold failed, noDivZero. destruct (NDEBUG cfg); congruence. Qed.

Lemma noDivZero_assert cfg c a : noDivZero (assert cfg c a).
Proof. unfold assert. destruct (_ || _); discriminate. Qed.

(** ** Count scaling *)

Lemma SaturatingMultiply_min X Y : (SaturatingMultiply X Y).1 = Z.min (X * Y) UINT64_MAX.
Proof.
  unfold SaturatingMultiply. destruct (Z.gtb_spec (X * Y) UINT64_MAX); simpl; lia.
Qed.

Lemma getScaledCount_off cfg C N D :
  MemOPScaleCount cfg = false -> getScaledCount cfg C N D = Ret C.
Proof. unfold getScaledCount. by intros ->. Qed.

Lemma getScaledCount_on cfg C N D :
  MemOPScaleCount cfg = true -> D <> 0 ->
  getScaledCount cfg C N D = Ret (Z.min (C * N) UINT64_MAX / D).
Proof.
  unfold getScaledCount. intros -> HD. simpl.
  rewrite <- SaturatingMultiply_min.
  destruct (SaturatingMultiply C N) as [s o]. simpl.
  destruct (Z.eqb_spec D 0); [done | reflexivity].
Qed.

Lemma getScaledCount_zero cfg C N :
  MemOPScaleCount cfg = true -> getScaledCount cfg C N 0 = Undefined DivisionByZero.
Proof.
  unfold getScaledCount. intros ->. simpl. by destruct (SaturatingMultiply C N).
Qed.

Lemma getScaledCount_noDivZero cfg C N D : D <> 0 -> noDivZero (getScaledCount cfg C N D).
Proof.
  intros HD. unfold getScaledCount.
  destruct (negb _); [apply noDivZero_Ret |].
  destruct (SaturatingMultiply C N).
  destruct (Z.eqb_spec D 0); [done | apply noDivZero_Ret].
Qed.

Lemma isProfitable_noDivZero cfg C T : noDivZero (isProfitable cfg C T).
Proof.
  unfold isProfitable. apply noDivZero_bind; [apply noDivZero_assert |].
  intros _ _. repeat case_match; apply noDivZero_Ret.
Qed.

Lemma planStep_noDivZero cfg A D st vd : D <> 0 -> noDivZero (planStep cfg A D st vd).
Proof.
  intros HD. unfold planStep. apply noDivZero_bind.
  - destruct (MemOPScaleCount cfg); [by apply getScaledCount_noDivZero | apply noDivZero_Ret].
  - intros C _. destruct (skipValue _ _); [apply noDivZero_Ret |].
    apply noDivZero_bind; [apply isProfitable_noDivZero |].
    intros p _. destruct (negb p); [apply noDivZero_Ret |].
    apply noDivZero_bind; [apply noDivZero_assert |]. intros _ _.
    apply noDivZero_bind; [apply noDivZero_assert |]. intros _ _.
    case_match; apply noDivZero_Ret.
Qed.

Lemma planLoop_noDivZero cfg A D VDs st : D <> 0 -> noDivZero (planLoop cfg A D VDs st).
Proof.
  intros HD. revert st. induction VDs as [| vd rest IH]; intros st; simpl.
  - apply noDivZero_Ret.
  - apply noDivZero_bind; [by apply planStep_noDivZero |].
    intros [[] st'] _; [apply IH | apply noDivZero_Ret].
Qed.

(** ** The planning loop keeps the counts consistent *)

Lemma sumZ_app l1 l2 : sumZ (l1 ++ l2) = sumZ l1 + sumZ l2.
Proof. induction l1 as [| x l1 IH]; simpl; [done | rewrite IH; lia]. Qed.

Lemma sumZ_nonneg l : Forall (fun c => 0 <= c) l -> 0 <= sumZ l.
Proof. induction 1; simpl; lia. Qed.

Lemma sumCounts_nonneg VDs :
  Forall (fun vd => 0 <= Count vd) VDs -> 0 <= sumCounts VDs.
Proof. induction 1; simpl; lia. Qed.

Lemma wrap64_small x : is_u64 x -> wrap64 x = x.
Proof. unfold is_u64, wrap64, UINT64_MAX. intros H. apply Z.mod_small. lia. Qed.

Lemma withAsserts_skipValue cfg V : skipValue (withAsserts cfg) V = skipValue cfg V.
Proof. reflexivity. Qed.

Lemma withAsserts_getScaledCount cfg C N D :
  getScaledCount (withAsserts cfg) C N D = getScaledCount cfg C N D.
Proof. reflexivity. Qed.

Section PlanInvariant.

Variable cfg : Options.
Variables A D : Z.
Hypothesis HA : is_u64 A.
Hypothesis HD : 0 < D <= UINT64_MAX.
Hypothesis Hscale : MemOPScaleCount cfg = false -> A = D.

Lemma planInv_init VDs :
  sumCounts VDs <= D -> planInv A D VDs (initPlan A D).
Proof.
  intros H. unfold is_u64 in HA. split; simpl; try lia; try done.
Qed.

(** The scaled count of a sample never exceeds its exact share. *)
Lemma scaled_share c C :
  0 <= c ->
  (if MemOPScaleCount cfg then getScaledCount cfg c A D else Ret c) = Ret C ->
  0 <= C /\ C * D <= c * A.
Proof.
  intros Hc. unfold is_u64 in HA.
  destruct (MemOPScaleCount cfg) eqn:Hs.
  - rewrite getScaledCount_on by (done || lia). intros [= <-].
    assert (0 <= Z.min (c * A) UINT64_MAX) by (unfold UINT64_MAX; nia).
    split; [apply Z.div_pos; lia |].
    pose proof (Z.mul_div_le (Z.min (c * A) UINT64_MAX) D). lia.
  - intros [= <-]. rewrite (Hscale eq_refl). lia.
Qed.

Lemma scaled_total c :
  exists C, (if MemOPScaleCount cfg then getScaledCount cfg c A D else Ret c) = Ret C.
Proof.
  destruct (MemOPScaleCount cfg) eqn:Hs; [| eauto].
  rewrite getScaledCount_on by (done || lia). eauto.
Qed.

Lemma planStep_inv vd rest st :
  0 <= Count vd -> Forall (fun vd => 0 <= Count vd) rest ->
  planInv A D (vd :: rest) st ->
  exists ctl st',
    planStep cfg A D st vd = Ret (ctl, st')
    /\ planStep (withAsserts cfg) A D st vd = Ret (ctl, st')
    /\ planInv A D rest st'.
Proof.
  intros Hc Hrest Inv. destruct Inv as [I1 I2 I3 I4 I5 I6 I7].
  simpl in I4. pose proof (sumCounts_nonneg rest Hrest) as Hr.
  destruct (scaled_total (Count vd)) as [C HC].
  destruct (scaled_share _ _ Hc HC) as [HC0 HCD].
  assert (HCle : C <= RemainCount st).
  { unfold is_u64 in HA.
    assert (Count vd * A <= SavedRemainCount st * A) by (apply Z.mul_le_mono_nonneg_r; lia).
    apply (Z.mul_le_mono_pos_r _ _ D); lia. }
  unfold planStep. simpl. rewrite withAsserts_getScaledCount, withAsserts_skipValue, HC.
  simpl. destruct (skipValue cfg _).
  { exists Continue, st. repeat split; try done; lia. }
  unfold isProfitable.
  rewrite (proj2 (Z.leb_le C (RemainCount st)) HCle), !assert_true. simpl.
  destruct (C <? MemOPCountThreshold cfg).
  { exists Break, st. repeat split; try done; lia. }
  destruct (C <? _).
  { exists Break, st. repeat split; try done; lia. }
  simpl.
  assert ((RemainCount st >=? C) = true) as -> by (apply Z.geb_le; lia).
  assert ((SavedRemainCount st >=? Count vd) = true) as -> by (apply Z.geb_le; lia).
  rewrite !assert_true. simpl.
  set (st' := {| RemainCount := _ |}).
  assert (Inv' : planInv A D rest st').
  { unfold is_u64 in HA. subst st'. destruct (CaseCounts st) as [| c0 cs] eqn:Hcs; [done |].
    simpl in *. pose proof (sumZ_nonneg cs I6).
    rewrite !wrap64_small by (unfold is_u64; lia).
    split; simpl; try lia.
    - rewrite sumZ_app. simpl. lia.
    - apply Forall_app. split; [done | by constructor].
    - done. }
  destruct (_ && _); eauto.
Qed.

Lemma planLoop_inv VDs st :
  Forall (fun vd => 0 <= Count vd) VDs ->
  planInv A D VDs st ->
  exists pl,
    planLoop cfg A D VDs st = Ret pl
    /\ planLoop (withAsserts cfg) A D VDs st = Ret pl
    /\ planInv A D [] pl.
Proof.
  intros HF. revert st. induction HF as [| vd rest Hc Hrest IH]; intros st Inv.
  - exists st. simpl. done.
  - destruct (planStep_inv vd rest st Hc Hrest Inv) as (ctl & st' & E1 & E2 & Inv').
    simpl. rewrite E1, E2. simpl. destruct ctl.
    + apply IH, Inv'.
    + exists st'. repeat split; try done; try apply Inv'.
Qed.

End PlanInvariant.

(** ** The profitability gate of the loop *)

Lemma isProfitable_eq cfg C R :
  NDEBUG cfg = true \/ C <= R ->
  isProfitable cfg C R = Ret (profitable cfg C R).
Proof.
  intros H. unfold isProfitable, profitable.
  rewrite assert_Ret by (destruct H; [by left | right; by apply Z.leb_le]). simpl.
  destruct (Z.ltb_spec C (MemOPCountThreshold cfg)), (Z.leb_spec (MemOPCountThreshold cfg) C);
    try lia; simpl; [done |].
  destruct (Z.ltb_spec C (wrap64 (R * MemOPPercentThreshold cfg) / 100)),
    (Z.leb_spec (wrap64 (R * MemOPPercentThreshold cfg) / 100) C); try lia; done.
Qed.

Lemma scaled_in_loop cfg c A D C :
  getScaledCount cfg c A D = Ret C ->
  (if MemOPScaleCount cfg then getScaledCount cfg c A D else Ret c) = Ret C.
Proof.
  intros H. destruct (MemOPScaleCount cfg) eqn:Hs; [done |].
  by rewrite getScaledCount_off in H.
Qed.

Lemma planStep_skip cfg A D st vd C :
  getScaledCount cfg (Count vd) A D = Ret C ->
  skipValue cfg (toInt64 (Value vd)) = true ->
  planStep cfg A D st vd = Ret (Continue, st).
Proof.
  intros HC Hs. unfold planStep. rewrite (scaled_in_loop _ _ _ _ _ HC). simpl.
  by rewrite Hs.
Qed.

Lemma planStep_eq cfg A D st vd C :
  getScaledCount cfg (Count vd) A D = Ret C ->
  skipValue cfg (toInt64 (Value vd)) = false ->
  NDEBUG cfg = true \/ (C <= RemainCount st /\ Count vd <= SavedRemainCount st) ->
  planStep cfg A D st vd =
    if profitable cfg C (RemainCount st)
    then let st' := accept st (toInt64 (Value vd)) C (Count vd) in
         Ret (if capReached cfg (Version st') then Break else Continue, st')
    else Ret (Break, st).
Proof.
  intros HC Hs Has. unfold planStep. rewrite (scaled_in_loop _ _ _ _ _ HC). simpl.
  rewrite Hs, isProfitable_eq by tauto. simpl.
  destruct (profitable cfg C (RemainCount st)); simpl; [| done].
  rewrite !assert_Ret by (destruct Has as [? | [? ?]]; [by left | right; apply Z.geb_le; lia]).
  simpl. unfold capReached, accept. simpl. by destruct (_ && _).
Qed.

Lemma planLoop_skipped cfg A D st skipped rest :
  D <> 0 \/ MemOPScaleCount cfg = false ->
  Forall (fun s => skipValue cfg (toInt64 (Value s)) = true) skipped ->
  planLoop cfg A D (skipped ++ rest) st = planLoop cfg A D rest st.
Proof.
  intros HD HF. induction HF as [| s skipped Hs _ IH]; simpl; [done |].
  assert (exists C, getScaledCount cfg (Count s) A D = Ret C) as [C HC].
  { destruct (MemOPScaleCount cfg) eqn:E.
    - destruct HD as [HD | ?]; [| done]. rewrite getScaledCount_on by done. eauto.
    - rewrite getScaledCount_off by done. eauto. }
  by rewrite (planStep_skip _ _ _ _ _ _ HC Hs).
Qed.

Lemma getScaledCount_Ret_denominator cfg c A D C :
  getScaledCount cfg c A D = Ret C -> D <> 0 \/ MemOPScaleCount cfg = false.
Proof.
  intros H. destruct (MemOPScaleCount cfg) eqn:E; [| by right].
  left. intros ->. by rewrite getScaledCount_zero in H.
Qed.

(** The scenario of a first sample of 6000 out of 10000 at 70 percent. *)
Lemma perform_first_sample_unprofitable cfg st MO inst vd rest :
  Instrs (Func st) !! MO = Some inst ->
  Prof inst = Some (MD_VP IPVK_MemOPSize 10000 (vd :: rest)) ->
  Count vd = 6000 ->
  skipValue cfg (toInt64 (Value vd)) = false ->
  MemOPScaleCount cfg = false ->
  MemOPPercentThreshold cfg = 70 ->
  performInfo cfg st MO = Ret (None, st) /\ perform cfg st MO = Ret (false, st).
Proof.
  intros HI HP Hc Hs Hsc Hpct.
  assert (performInfo cfg st MO = Ret (None, st)) as E; [| split; [done | by unfold perform; rewrite E]].
  unfold performInfo. rewrite HI.
  destruct (MemOp.isMemmove inst); [done |].
  destruct (_ && _); [done |].
  unfold getValueProfDataFromInst. rewrite HP. simpl.
  destruct (Z.to_nat _) as [| n]; simpl; [done |].
  rewrite Hsc.
  destruct (10000 <? MemOPCountThreshold cfg); [done |]. simpl.
  unfold planStep. rewrite Hsc, Hs, Hc. simpl.
  unfold isProfitable. rewrite assert_true. simpl. rewrite Hpct.
  destruct (6000 <? MemOPCountThreshold cfg); simpl; done.
Qed.

(** The gate of the planning loop as the code computes it.  In a run in which
    no assertion fails (the accepted counts do not exceed the remaining
    counts, or the build compiles assertions out), samples that fail the
    value-kind filter are skipped and the sample after them is still
    evaluated; that sample, with scaled count [C], is accepted if and only if
    [C] is at least the minimum count threshold and at least
    [remaining * percentThreshold / 100], the product taken in 64-bit unsigned
    arithmetic as the code takes it (it is the exact product whenever that
    fits 64 bits); when the test fails the loop ends there with the state
    unchanged, whatever samples follow.  With raw total 10000, a first sample
    of count 6000 that passes the filter, and percent threshold 70, no version
    is accepted and [perform] returns [false] leaving the function as it
    was. *)
Theorem profitability_gate (cfg : Options) :
  (forall A D st skipped vd rest C,
      Forall (fun s => skipValue cfg (toInt64 (Value s)) = true) skipped ->
      skipValue cfg (toInt64 (Value vd)) = false ->
      getScaledCount cfg (Count vd) A D = Ret C ->
      NDEBUG cfg = true \/ (C <= RemainCount st /\ Count vd <= SavedRemainCount st) ->
      planLoop cfg A D (skipped ++ vd :: rest) st =
        if (MemOPCountThreshold cfg <=? C)
           && (wrap64 (RemainCount st * MemOPPercentThreshold cfg) / 100 <=? C)
        then let st' := accept st (toInt64 (Value vd)) C (Count vd) in
             if capReached cfg (Version st') then Ret st' else planLoop cfg A D rest st'
        else Ret st)
  /\ (forall R, 0 <= R * MemOPPercentThreshold cfg <= UINT64_MAX ->
        wrap64 (R * MemOPPercentThreshold cfg) / 100 = R * MemOPPercentThreshold cfg / 100)
  /\ (forall st MO inst vd rest,
        Instrs (Func st) !! MO = Some inst ->
        Prof inst = Some (MD_VP IPVK_MemOPSize 10000 (vd :: rest)) ->
        Count vd = 6000 ->
        skipValue cfg (toInt64 (Value vd)) = false ->
        MemOPScaleCount cfg = false ->
        MemOPPercentThreshold cfg = 70 ->
        performInfo cfg st MO = Ret (None, st) /\ perform cfg st MO = Ret (false, st)).
Proof.
  split; [| split].
  - intros A D st skipped vd rest C Hsk Hs HC Has.
    rewrite planLoop_skipped by eauto using getScaledCount_Ret_denominator.
    simpl. rewrite (planStep_eq _ _ _ _ _ _ HC Hs Has).
    fold (profitable cfg C (RemainCount st)).
    destruct (profitable cfg C (RemainCount st)); simpl; [| done].
    by destruct (capReached cfg _).
  - intros R HR. by rewrite wrap64_small.
  - apply perform_first_sample_unprofitable.
Qed.

(** C3: when the raw counts of the samples sum to at most the raw total [D]
    (which [perform] has checked to be non-zero), the planning loop started
    from the total [A] planned against (the block count when scaling is on,
    else [D] itself) returns a plan, and returns the same plan in a build that
    checks its assertions: no accepted scaled count exceeds the remaining
    count at the time it is accepted, so the remaining count never goes below
    zero.  In the plan every selected count is non-negative and the selected
    counts plus the leftover equal [A], also after the leftover is stored in
    the slot of the default case. *)
Theorem C3_plan_conserves_total (cfg : Options) (A D : Z) (VDs : list InstrProfValueData) :
  is_u64 A ->
  0 < D <= UINT64_MAX ->
  (MemOPScaleCount cfg = false -> A = D) ->
  Forall (fun vd => 0 <= Count vd) VDs ->
  sumCounts VDs <= D ->
  exists pl,
    planLoop cfg A D VDs (initPlan A D) = Ret pl
    /\ planLoop (withAsserts cfg) A D VDs (initPlan A D) = Ret pl
    /\ 0 <= RemainCount pl
    /\ Forall (fun c => 0 <= c) (tail (CaseCounts pl))
    /\ sumZ (tail (CaseCounts pl)) + RemainCount pl = A
    /\ sumZ (<[0%nat := RemainCount pl]> (CaseCounts pl)) = A.
Proof.
  intros HA HD Hscale HF Hsum.
  destruct (planLoop_inv cfg A D HA HD Hscale VDs (initPlan A D) HF
              (planInv_init A D HA HD VDs Hsum)) as (pl & E1 & E2 & Inv).
  exists pl. destruct Inv as [I1 I2 I3 I4 I5 I6 I7].
  repeat split; try done.
  destruct (CaseCounts pl) as [| c0 cs]; [done |]. simpl in *. lia.
Qed.

(** ** Runs on concrete call sites *)

(** C1: with the default maximum of 3 versions and a profile of four sizes,
    each profitable against what remains, the planning loop accepts all four:
    the version counter is compared with the maximum only after it has been
    incremented past it.  [perform] then creates four case blocks. *)
Theorem C1_four_versions_with_maximum_three :
  let cfg := exampleOptions true true in
  MemOPMaxVersion cfg = 3
  /\ (exists pl,
        planLoop cfg 10000 10000 [VD 1 5000; VD 2 2500; VD 3 1250; VD 4 1000]
          (initPlan 10000 10000) = Ret pl
        /\ SizeIds pl = [1; 2; 3; 4] /\ Version pl = 4)
  /\ (exists info st',
        performInfo cfg fourSizesState 1%nat = Ret (Some info, st')
        /\ length (CaseBBs info) = 4%nat
        /\ (switchCases (Func st') (Switch info)).*1
           = [ConstantInt 64 1; ConstantInt 64 2; ConstantInt 64 3; ConstantInt 64 4]).
Proof.
  split; [reflexivity |]. split.
  - eexists. split; [vm_compute; reflexivity |]. split; reflexivity.
  - do 2 eexists. split; [vm_compute; reflexivity |]. split; vm_compute; reflexivity.
Qed.

(** C2: the most frequent value of the profile is filtered out and the next
    one, 4, is promoted.  The profile re-attached to the default call is the
    original list without its first entry: it still names 4, the value just
    promoted, and has lost the filtered value.  A second run on the default
    call promotes 4 again. *)
Theorem C2_promoted_value_reannotated :
  let cfg := exampleOptions false true in
  exists info1 st1 info2 st2,
    performInfo cfg groupFirstState 1%nat = Ret (Some info1, st1)
    /\ (switchCases (Func st1) (Switch info1)).*1 = [ConstantInt 64 4]
    /\ profOf (Func st1) 1%nat = memOPSizeProfile 5500 [VD 4 4500; VD 8 500]
    /\ performInfo cfg st1 1%nat = Ret (Some info2, st2)
    /\ (switchCases (Func st2) (Switch info2)).*1 = [ConstantInt 64 4].
Proof.
  do 4 eexists.
  split; [vm_compute; reflexivity |].
  split; [vm_compute; reflexivity |].
  split; [vm_compute; reflexivity |].
  split; [vm_compute; reflexivity |].
  vm_compute; reflexivity.
Qed.


(** C4: at a site executed 461168601842738791 times, with count threshold
    1000 and percent threshold 40, a size seen 1000 times is far below 40
    percent of the remaining count (184467440737095516), yet the profitability
    test accepts it: the 64-bit product of the remaining count and the percent
    threshold wraps around to 24, and 24 / 100 is 0.  The planning loop
    selects the size and [perform] rewrites the call with one case block. *)
Theorem C4_percent_product_wraps :
  let cfg := exampleOptions false true in
  let R := 461168601842738791 in
  (MemOPCountThreshold cfg = 1000 /\ MemOPPercentThreshold cfg = 40 /\ is_u64 R)
  /\ R * MemOPPercentThreshold cfg / 100 = 184467440737095516
  /\ ~ (MemOPCountThreshold cfg <= 1000 /\ R * MemOPPercentThreshold cfg / 100 <= 1000)
  /\ wrap64 (R * MemOPPercentThreshold cfg) = 24
  /\ isProfitable cfg 1000 R = Ret true
  /\ (exists pl,
        planLoop cfg R R [VD 16 1000] (initPlan R R) = Ret pl
        /\ SizeIds pl = [16] /\ Version pl = 1)
  /\ (exists info st',
        performInfo cfg hugeTotalState 1%nat = Ret (Some info, st')
        /\ perform cfg hugeTotalState 1%nat = Ret (true, st')
        /\ length (CaseBBs info) = 1%nat
        /\ (switchCases (Func st') (Switch info)).*1 = [ConstantInt 64 16]).
Proof.
  split; [split; [reflexivity | split; [reflexivity | unfold is_u64, UINT64_MAX; lia]] |].
  split; [reflexivity |].
  split; [intros [_ H]; vm_compute in H; by apply H |].
  split; [reflexivity |].
  split; [vm_compute; reflexivity |].
  split.
  - eexists. split; [vm_compute; reflexivity |]. split; reflexivity.
  - do 2 eexists. split; [vm_compute; reflexivity |].
    split; [vm_compute; reflexivity |]. split; vm_compute; reflexivity.
Qed.

(** The plan of the scenario, for any options that agree with it. *)
Lemma scenario_plan cfg other :
  MemOPCountThreshold cfg = 1000 ->
  MemOPPercentThreshold cfg = 40 ->
  MemOPMaxVersion cfg = 3 ->
  MemOPScaleCount cfg = false ->
  skipValue cfg 16 = false ->
  skipValue cfg 32 = false ->
  skipValue cfg (toInt64 other) = true ->
  planLoop cfg 10000 10000 [VD 16 6000; VD 32 3000; VD other 1000] (initPlan 10000 10000)
  = Ret {| RemainCount := 1000; SavedRemainCount := 1000; SizeIds := [16; 32];
           CaseCounts := [0; 6000; 3000]; MaxCount := 6000; Version := 2 |}.
Proof.
  intros Hthr Hpct Hmax Hsc H16 H32 Hother.
  assert (Hg : forall c A D, getScaledCount cfg c A D = Ret c)
    by (intros; by apply getScaledCount_off).
  simpl.
  rewrite (planStep_eq cfg _ _ _ (VD 16 6000) 6000);
    [| apply Hg | exact H16 | right; split; vm_compute; discriminate].
  unfold profitable, capReached. rewrite Hthr, Hpct, Hmax. simpl.
  rewrite (planStep_eq cfg _ _ _ (VD 32 3000) 3000);
    [| apply Hg | exact H32 | right; split; vm_compute; discriminate].
  unfold profitable, capReached. rewrite Hthr, Hpct, Hmax. simpl.
  rewrite (planStep_skip cfg _ _ _ (VD other 1000) 1000); [| apply Hg | exact Hother].
  reflexivity.
Qed.

(** C5: for options with count threshold 1000, percent threshold 40, maximum
    3 versions and no count scaling, whose value-kind filter lets 16 and 32
    pass and rejects the third value, the loop on the samples
    [(16,6000),(32,3000),(other,1000)] with raw total 10000 selects exactly
    16 with count 6000 and 32 with count 3000 and leaves 1000; [perform] on
    the copy call site succeeds, creates exactly two case blocks, for 16 and
    for 32, both different from the default block, and gives the switch the
    counts 1000 (default), 6000, 3000 with maximum 6000. *)
Theorem C5_scenario_two_versions (cfg : Options) (other : Z) :
  MemOPCountThreshold cfg = 1000 ->
  MemOPPercentThreshold cfg = 40 ->
  MemOPMaxVersion cfg = 3 ->
  MemOPScaleCount cfg = false ->
  skipValue cfg 16 = false ->
  skipValue cfg 32 = false ->
  skipValue cfg (toInt64 other) = true ->
  planLoop cfg 10000 10000 [VD 16 6000; VD 32 3000; VD other 1000] (initPlan 10000 10000)
  = Ret {| RemainCount := 1000; SavedRemainCount := 1000; SizeIds := [16; 32];
           CaseCounts := [0; 6000; 3000]; MaxCount := 6000; Version := 2 |}
  /\ exists info st' c16 c32,
       performInfo cfg (scenarioState other) 1%nat = Ret (Some info, st')
       /\ perform cfg (scenarioState other) 1%nat = Ret (true, st')
       /\ (CaseBBs info).*1 = [c16; c32]
       /\ NoDup [DefaultBB info; c16; c32]
       /\ Instrs (Func st') !! Switch info
          = Some {| Body := SwitchInst (InstVal 0) (DefaultBB info)
                              [(ConstantInt 64 16, c16); (ConstantInt 64 32, c32)];
                    InstTy := VoidTy;
                    Prof := Some (MD_BranchWeights [1000; 6000; 3000] 6000);
                    Parent := Some (HeadBB info) |}
       /\ dom (Blocks (Func st')) = {[ HeadBB info; c16; c32; DefaultBB info; MergeBB info ]}.
Proof.
  intros Hthr Hpct Hmax Hsc H16 H32 Hother.
  pose proof (scenario_plan cfg other Hthr Hpct Hmax Hsc H16 H32 Hother) as Hplan.
  split; [exact Hplan |].
  assert (exists info st',
             performInfo cfg (scenarioState other) 1%nat = Ret (Some info, st')
             /\ info = {| HeadBB := 0; DefaultBB := 1; MergeBB := 2; Switch := 6; PHI := None;
                          CaseBBs := [(3, 7); (4, 9)]%nat; OrigBBFreq := 77 |}
             /\ Instrs (Func st') !! 6%nat
                = Some {| Body := SwitchInst (InstVal 0) 1%nat
                                    [(ConstantInt 64 16, 3%nat); (ConstantInt 64 32, 4%nat)];
                          InstTy := VoidTy;
                          Prof := Some (MD_BranchWeights [1000; 6000; 3000] 6000);
                          Parent := Some 0%nat |}
             /\ dom (Blocks (Func st')) = {[ 0; 3; 4; 1; 2 ]}%nat)
    as (info & st' & E & -> & Hsw & Hdom).
  { unfold performInfo.
    change (Instrs (Func (scenarioState other)) !! 1%nat)
      with (Some (memcpyCall (memOPSizeProfile 10000 [VD 16 6000; VD 32 3000; VD other 1000]))).
    cbv beta iota.
    change (MemOp.isMemmove _) with false.
    change (MemOp.isMemcmp _ || MemOp.isBcmp _) with false.
    cbv iota.
    rewrite andb_false_r, Hmax, Hsc.
    change (getValueProfDataFromInst _ _ _)
      with (Some ([VD 16 6000; VD 32 3000; VD other 1000], 10000)).
    cbv iota beta. rewrite Hthr.
    change (10000 <? 1000) with false. change (10000 =? 0) with false. cbv iota.
    rewrite Hplan. cbn [bind Version]. change (2 =? 0) with false. cbv iota.
    do 2 eexists. split; [vm_compute; reflexivity |].
    split; [reflexivity |]. split; [vm_compute; reflexivity |].
    vm_compute. reflexivity. }
  eexists _, st', 3%nat, 4%nat.
  split; [exact E |]. split; [unfold perform; by rewrite E |].
  split; [reflexivity |]. split; [| by split].
  compute_done.
Qed.

(** ** The gates of [perform] *)

Lemma perform_of_info cfg st MO st' :
  performInfo cfg st MO = Ret (None, st') -> perform cfg st MO = Ret (false, st').
Proof. intros E. unfold perform. by rewrite E. Qed.

Lemma performInfo_not_applicable cfg st MO inst BB :
  Instrs (Func st) !! MO = Some inst ->
  Parent inst = Some BB ->
  NotApplicable cfg st inst BB ->
  performInfo cfg st MO = Ret (None, st).
Proof.
  intros HI HP NA. unfold performInfo. rewrite HI, HP.
  destruct (MemOp.isMemmove inst) eqn:Hmv; [done |].
  destruct (negb (MemOPOptMemcmpBcmp cfg) && _) eqn:Hcmp; [done |].
  fold (readProfile cfg inst).
  destruct (readProfile cfg inst) as [[VDs T] |] eqn:Hread; [| done].
  fold (actualTotal cfg st BB T).
  assert ((if MemOPScaleCount cfg
           then Ret (getBlockProfileCount (BFI st) BB) else Ret (Some T))
          = Ret (actualTotal cfg st BB T)) as ->
    by (unfold actualTotal; by destruct (MemOPScaleCount cfg)).
  destruct (actualTotal cfg st BB T) as [a |] eqn:Hact; [| done].
  destruct (Z.ltb_spec a (MemOPCountThreshold cfg)); [done |].
  destruct (Z.eqb_spec T 0); [done |].
  destruct NA as [Hm | Hflag Hc | Hnone | Hs Hnone | VDs' T' a' Hr Ha Hlt | VDs' Hr
                 | VDs' T' a' pl Hr Ha Hpl Hv].
  - congruence.
  - unfold isCmp in Hc. rewrite Hflag, Hc in Hcmp. done.
  - congruence.
  - unfold actualTotal in Hact. rewrite Hs in Hact. congruence.
  - assert (a' = a) by congruence. lia.
  - congruence.
  - assert (VDs' = VDs /\ T' = T /\ a' = a) as (-> & -> & ->)
      by (repeat split; congruence).
    rewrite Hpl. simpl. by rewrite Hv.
Qed.

(** C8: a call site that is a move, or a comparison while comparison
    specialisation is off, or has no profile, or has no block count while
    scaling is on, or whose actual total is below the count threshold, or
    whose raw total is zero, or for which the loop accepts no version, is
    skipped: [perform] returns [false], neither aborting nor running into
    undefined behaviour, and the function, the frequencies and the remarks
    are as before.  Each condition suffices by itself, whatever the profile
    and the options. *)
Theorem C8_not_applicable_is_skipped (cfg : Options) (st : State) (MO : InstId)
    (inst : Instruction) (BB : BlockId) :
  Instrs (Func st) !! MO = Some inst ->
  Parent inst = Some BB ->
  NotApplicable cfg st inst BB ->
  performInfo cfg st MO = Ret (None, st) /\ perform cfg st MO = Ret (false, st).
Proof.
  intros HI HP NA.
  pose proof (performInfo_not_applicable cfg st MO inst BB HI HP NA) as E.
  split; [exact E | by apply perform_of_info].
Qed.

(** ** The candidate collector *)

Lemma isCmp_getLibFunc inst :
  isCmp inst = true ->
  exists Func, MemOp.getLibFunc inst = Some Func
               /\ bool_decide (Func = LibFunc_memcmp) || bool_decide (Func = LibFunc_bcmp) = true
               /\ exists Args, Body inst = CallInst (Some Func) Args.
Proof.
  unfold isCmp, MemOp.isMemcmp, MemOp.isBcmp, MemOp.asMI, MemOp.getLibFunc.
  destruct (Body inst) as [| [Func |] Args | | | |]; simpl; try done.
  intros H. exists Func. split; [done |]. split; [| eauto].
  apply orb_true_iff in H as [H | H]; apply bool_decide_eq_true in H; injection H as ->; done.
Qed.

Lemma visitInstruction_cmp F WorkList I inst Length :
  Instrs F !! I = Some inst ->
  isCmp inst = true ->
  MemOp.getLength inst = Ret Length ->
  isConstantInt Length = false ->
  visitInstruction F WorkList I = Ret (WorkList ++ [I]).
Proof.
  intros HI Hc HL Hk.
  destruct (isCmp_getLibFunc inst Hc) as (Func & Hf & Hmc & Args & HB).
  unfold visitInstruction, getInst. rewrite HI. simpl. rewrite HB.
  unfold visitCallInst. rewrite Hf, Hmc, HL. simpl. by rewrite Hk.
Qed.

Lemma perform_cmp_disabled cfg st I inst :
  Instrs (Func st) !! I = Some inst ->
  isCmp inst = true ->
  MemOPOptMemcmpBcmp cfg = false ->
  performInfo cfg st I = Ret (None, st) /\ perform cfg st I = Ret (false, st).
Proof.
  intros HI Hc Hflag.
  assert (performInfo cfg st I = Ret (None, st)) as E;
    [| split; [exact E | by apply perform_of_info]].
  unfold performInfo. rewrite HI.
  destruct (MemOp.isMemmove inst); [done |].
  unfold isCmp in Hc. by rewrite Hflag, Hc.
Qed.

Lemma performWorkList_cmp_disabled cfg st w r :
  MemOPOptMemcmpBcmp cfg = false ->
  Final r = st ->
  Forall (fun I => exists inst, Instrs (Func st) !! I = Some inst /\ isCmp inst = true) w ->
  performWorkList cfg w r =
    Ret {| Changed := Changed r; Final := st;
           NumOfPGOMemOPAnnotate := NumOfPGOMemOPAnnotate r + Z.of_nat (length w);
           NumOfPGOMemOPOpt := NumOfPGOMemOPOpt r |}.
Proof.
  intros Hflag Hst HF. revert r Hst.
  induction HF as [| I w (inst & HI & Hc) _ IH]; intros r Hst; simpl.
  - destruct r; simpl in *. subst. f_equal. f_equal. lia.
  - rewrite Hst. destruct (perform_cmp_disabled cfg st I inst HI Hc Hflag) as [_ ->].
    simpl. rewrite IH by done. simpl. f_equal. f_equal. lia.
Qed.

(** C7, as stated, fails: it is not the case that a comparison call with a
    non-constant length is in the worklist only when comparison
    specialisation is on.  The collector adds the comparison site of
    [cmpState] although [noCmpOptions] switches comparison specialisation
    off. *)
Lemma C7_counterexample :
  ~ (forall (cfg : Options) (F : Function) (I : InstId) (inst : Instruction)
            (Length : IRValue) (w : list InstId),
        Instrs F !! I = Some inst ->
        isCmp inst = true ->
        MemOp.getLength inst = Ret Length ->
        isConstantInt Length = false ->
        visit F = Ret w ->
        I ∈ w ->
        MemOPOptMemcmpBcmp cfg = true).
Proof.
  intros H.
  specialize (H noCmpOptions (Func cmpState) 1%nat
                (memcmpCall (memOPSizeProfile 10000 [VD 4 6000; VD 8 3000; VD 9 1000]))
                (InstVal 0) [1%nat]).
  discriminate H; try reflexivity. set_solver.
Qed.

(** C7, amended: the collector adds a [memcmp] or [bcmp] call whose length
    is not a constant to the worklist whatever the options are; when
    comparison specialisation is off, [perform] leaves such a site alone and
    returns [false], and a run of the pass over a worklist of such sites
    changes nothing. *)
Theorem C7_cmp_site_collected_then_gated (cfg : Options) :
  (forall F WorkList I inst Length,
      Instrs F !! I = Some inst ->
      isCmp inst = true ->
      MemOp.getLength inst = Ret Length ->
      isConstantInt Length = false ->
      visitInstruction F WorkList I = Ret (WorkList ++ [I]))
  /\ (forall st I inst,
        Instrs (Func st) !! I = Some inst ->
        isCmp inst = true ->
        MemOPOptMemcmpBcmp cfg = false ->
        performInfo cfg st I = Ret (None, st) /\ perform cfg st I = Ret (false, st))
  /\ (forall st w,
        MemOPOptMemcmpBcmp cfg = false ->
        visit (Func st) = Ret w ->
        Forall (fun I => exists inst, Instrs (Func st) !! I = Some inst /\ isCmp inst = true) w ->
        performAll cfg st =
          Ret {| Changed := false; Final := st;
                 NumOfPGOMemOPAnnotate := Z.of_nat (length w); NumOfPGOMemOPOpt := 0 |}).
Proof.
  split; [| split].
  - apply visitInstruction_cmp.
  - intros st I inst. apply perform_cmp_disabled.
  - intros st w Hflag Hv HF. unfold performAll. rewrite Hv. simpl.
    by rewrite (performWorkList_cmp_disabled cfg st w) by done.
Qed.

(** ** The rewrite: what a successful run went through *)

Lemma performInfo_Some cfg st MO info st' :
  performInfo cfg st MO = Ret (Some info, st') ->
  exists inst VDs TotalCount ActualCount pl,
    Instrs (Func st) !! MO = Some inst
    /\ readProfile cfg inst = Some (VDs, TotalCount)
    /\ TotalCount <> 0
    /\ planLoop cfg ActualCount TotalCount VDs (initPlan ActualCount TotalCount) = Ret pl
    /\ Version pl <> 0
    /\ rewrite cfg st MO inst VDs pl (<[0%nat := RemainCount pl]> (CaseCounts pl))
         (if RemainCount pl >? MaxCount pl then RemainCount pl else MaxCount pl)
         (wrap64 (ActualCount - RemainCount pl)) ActualCount
       = Ret (info, st').
Proof.
  unfold performInfo. intros H.
  destruct (Instrs (Func st) !! MO) as [inst |] eqn:HI;
    [| unfold failed in H; destruct (NDEBUG cfg); discriminate].
  destruct (MemOp.isMemmove inst); [discriminate |].
  destruct (_ && _); [discriminate |].
  fold (readProfile cfg inst) in H.
  destruct (readProfile cfg inst) as [[VDs T] |] eqn:Hread; [| discriminate].
  destruct (if MemOPScaleCount cfg then _ else _) as [[a |] | |] eqn:Hact; try discriminate.
  destruct (a <? MemOPCountThreshold cfg); [discriminate |].
  destruct (Z.eqb_spec T 0); [discriminate |].
  apply bind_Ret in H as (pl & Hpl & H).
  destruct (Z.eqb_spec (Version pl) 0); [discriminate |].
  apply bind_Ret in H as ([info' st''] & Hrw & H). simpl in H.
  injection H as <- <-.
  exists inst, VDs, T, a, pl. done.
Qed.

Lemma SplitBlock_Ret F Old I F' New :
  SplitBlock F Old I = Ret (F', New) ->
  exists bb before after,
    Blocks F !! Old = Some bb
    /\ splitBefore I (Insts bb) = Some (before, after)
    /\ New = fresh (dom (Blocks F))
    /\ Blocks F' = <[New := {| Name := Name bb +:+ ".split"; Insts := after |}]>
                     (<[Old := {| Name := Name bb;
                                  Insts := before ++ [fresh (dom (Instrs F))] |}]> (Blocks F))
    /\ Instrs F' =
         <[fresh (dom (Instrs F)) :=
             {| Body := BranchInst New; InstTy := VoidTy; Prof := None; Parent := Some Old |}]>
           (foldr (fun j m => alter (setParent (Some New)) j m)
                  (replaceIncomingBlock Old New <$> Instrs F) after).
Proof.
  unfold SplitBlock, getBlock. intros H.
  destruct (Blocks F !! Old) as [bb |] eqn:Hb; [| discriminate]. simpl in H.
  destruct (splitBefore I (Insts bb)) as [[before after] |] eqn:Hs; [| discriminate].
  injection H as <- <-. exists bb, before, after. done.
Qed.

Lemma SplitBlock_dom F Old I F' New :
  SplitBlock F Old I = Ret (F', New) ->
  (New ∉ dom (Blocks F)) /\ dom (Blocks F') = {[New]} ∪ dom (Blocks F).
Proof.
  intros H. apply SplitBlock_Ret in H as (bb & before & after & Hb & _ & -> & -> & _).
  split; [apply is_fresh |].
  rewrite !dom_insert_L. apply elem_of_dom_2 in Hb.
  apply set_eq. intros x. rewrite !elem_of_union, !elem_of_singleton.
  split; [intros [? | [-> | ?]] | intros [? | ?]]; auto.
Qed.

Lemma dom_Blocks_setName F B n : dom (Blocks (setName F B n)) = dom (Blocks F).
Proof. unfold setName. simpl. apply dom_alter_L. Qed.

Lemma dom_Blocks_eraseFromParent F I : dom (Blocks (eraseFromParent F I)) = dom (Blocks F).
Proof.
  unfold eraseFromParent. destruct (Instrs F !! I) as [i |]; [| done].
  simpl. destruct (Parent i); [apply dom_alter_L | done].
Qed.

Lemma dom_Blocks_appendInst F B I i : dom (Blocks (appendInst F B I i)) = dom (Blocks F).
Proof. unfold appendInst. simpl. apply dom_alter_L. Qed.


(** ** The merge-block phi *)

Lemma replaceUse_not_old Old New v : Old <> New -> replaceUse Old New v <> Old.
Proof. unfold replaceUse. intros Hne. destruct (decide (v = Old)); congruence. Qed.

Lemma operands_replaceUsesInBody Old New b :
  Old <> New -> Old ∉ operands (replaceUsesInBody Old New b).
Proof.
  intros Hne Hin.
  assert (forall l : list IRValue, Old ∉ replaceUse Old New <$> l) as Hl.
  { intros l [v [Hv _]]%list_elem_of_fmap. by eapply replaceUse_not_old. }
  assert (forall l : list (IRValue * nat),
             Old ∉ ((fun p => (replaceUse Old New p.1, p.2)) <$> l).*1) as Hp.
  { intros l. rewrite <- list_fmap_compose.
    intros [v [Hv _]]%list_elem_of_fmap. simpl in Hv. by eapply replaceUse_not_old. }
  destruct b; simpl in Hin; try (by eapply Hl); try (by eapply Hp).
  - by apply elem_of_nil in Hin.
  - apply elem_of_cons in Hin as [Hin | Hin]; [by eapply replaceUse_not_old | by eapply Hp].
Qed.

Lemma elem_of_insert_inv {A} (l : list A) (n : nat) (x y : A) :
  y ∈ <[n := x]> l -> y = x \/ y ∈ l.
Proof.
  revert n. induction l as [| a l IH]; intros n; simpl.
  - intros H. by apply elem_of_nil in H.
  - destruct n as [| n]; simpl; intros [-> | H]%elem_of_cons.
    + by left.
    + right. by apply elem_of_cons; right.
    + right. by apply elem_of_cons; left.
    + destruct (IH n H) as [-> | H']; [by left | right; by apply elem_of_cons; right].
Qed.

Lemma operands_setLength k i v :
  v ∈ operands (Body (MemOp.setLength k i)) -> v = k \/ v ∈ operands (Body i).
Proof.
  unfold MemOp.setLength. destruct (Body i) eqn:E; simpl; rewrite ?E; simpl;
    try (by right); apply elem_of_insert_inv.
Qed.

Lemma operands_addCase k cb i v :
  v ∈ operands (Body (addCase k cb i)) -> v = k \/ v ∈ operands (Body i).
Proof.
  unfold addCase. destruct (Body i) eqn:E; simpl; rewrite ?E; simpl; try (by right).
  rewrite fmap_app. simpl. rewrite app_comm_cons.
  intros [H | H]%elem_of_app; [by right |].
  apply list_elem_of_singleton in H. by left.
Qed.

Lemma addCase_PHINode k cb i inc :
  Body i = PHINode inc ->
  Body (addCase k cb i) = PHINode inc /\ Parent (addCase k cb i) = Parent i
  /\ InstTy (addCase k cb i) = InstTy i.
Proof. unfold addCase. intros H. by rewrite H. Qed.

Lemma noOtherUse_updateInst F MO PHI I f :
  (forall i, Body (f i) = Body i) ->
  noOtherUse F MO PHI -> noOtherUse (updateInst F I f) MO PHI.
Proof.
  intros Hf Hno j i Hj Hne. unfold updateInst in Hj. simpl in Hj.
  apply lookup_alter_Some in Hj as [(-> & i0 & Hi0 & ->) | [_ Hj]].
  - rewrite Hf. by eapply Hno.
  - by eapply Hno.
Qed.

Lemma phiIs_updateInst F P M ty inc I f :
  keepsShape f -> phiIs F P M ty inc -> phiIs (updateInst F I f) P M ty inc.
Proof.
  intros Hf (phi & Hphi & HB & HPar & HTy). unfold phiIs, updateInst. simpl.
  destruct (decide (I = P)) as [-> | Hne].
  - exists (f phi). rewrite lookup_alter_eq, Hphi. simpl.
    destruct (Hf phi) as (-> & -> & ->). done.
  - exists phi. by rewrite lookup_alter_ne.
Qed.

Lemma noOtherUse_ext F G MO PHI :
  Instrs F = Instrs G -> noOtherUse F MO PHI -> noOtherUse G MO PHI.
Proof. unfold noOtherUse. by intros ->. Qed.

Lemma phiIs_ext F G P M ty inc :
  Instrs F = Instrs G -> phiIs F P M ty inc -> phiIs G P M ty inc.
Proof. unfold phiIs. by intros ->. Qed.

Lemma createPHI_Ret F MO ty D M F' P :
  createPHI F MO ty D M = Ret (F', P) ->
  is_Some (Instrs F !! MO) ->
  P <> MO
  /\ (P ∉ dom (Instrs F))
  /\ phiIs F' P M ty [(InstVal MO, D)]
  /\ noOtherUse F' MO (Some P)
  /\ dom (Blocks F') = dom (Blocks F)
  /\ dom (Instrs F') = {[P]} ∪ dom (Instrs F).
Proof.
  unfold createPHI, getBlock. intros H HMO.
  destruct (Blocks F !! M) as [mb |] eqn:Hmb; [| discriminate]. simpl in H.
  destruct (insertBeforeFirstNonPHI _ _ _) as [insts |]; [| discriminate].
  injection H as <- <-.
  set (P := fresh (dom (Instrs F))).
  assert (HP : P ∉ dom (Instrs F)) by apply is_fresh.
  assert (HPMO : P <> MO).
  { intros ->. apply HP. by apply elem_of_dom. }
  split; [done |]. split; [done |]. split; [| split; [| split]].
  - eexists. unfold updateInst, replaceAllUsesWith. simpl.
    rewrite lookup_alter_eq, lookup_fmap, lookup_insert_eq. simpl.
    split; [reflexivity |]. done.
  - intros j i Hj Hne. unfold updateInst, replaceAllUsesWith in Hj. simpl in Hj.
    assert (j <> P) by congruence.
    rewrite lookup_alter_ne, lookup_fmap in Hj by done.
    destruct (_ !! j) as [i0 |]; [| discriminate]. simpl in Hj. injection Hj as <-.
    simpl. apply operands_replaceUsesInBody. congruence.
  - unfold updateInst, replaceAllUsesWith. simpl. rewrite dom_insert_L.
    apply elem_of_dom_2 in Hmb. apply set_eq. intros x.
    rewrite elem_of_union, elem_of_singleton. split; [intros [-> | ?] | intros ?]; auto.
  - unfold updateInst, replaceAllUsesWith. simpl.
    by rewrite dom_alter_L, dom_fmap_L, dom_insert_L.
Qed.

(** ** The case blocks *)

Lemma createCase_Ret cfg MO D M SI PHI F SizeId F' cb c :
  createCase cfg MO D M SI PHI F SizeId = Ret (F', (cb, c)) ->
  exists orig k br brI,
    Instrs F !! MO = Some orig
    /\ cb = fresh (dom (Blocks F))
    /\ c = fresh (dom (Instrs F))
    /\ c <> br
    /\ (br ∉ dom (Instrs F))
    /\ (exists bits z, k = ConstantInt bits z)
    /\ operands (Body brI) = []
    /\ dom (Blocks F') = {[cb]} ∪ dom (Blocks F)
    /\ Instrs F' =
         (match PHI with
          | Some P => alter (addIncoming (InstVal c) cb) P
          | None => fun m => m
          end)
           (alter (addCase k cb) SI
              (<[br := brI]>
                 (<[c := setParent (Some cb) (MemOp.setLength k (MemOp.clone orig))]>
                    (Instrs F)))).
Proof.
  unfold createCase. intros H.
  apply bind_Ret in H as (orig & Horig & H).
  apply bind_Ret in H as (len & Hlen & H).
  apply bind_Ret in H as (ty & Hty & H).
  destruct ty as [| bits |]; try (unfold failed in H; destruct (NDEBUG cfg); discriminate).
  injection H as <- <- <-.
  unfold getInst in Horig. simpl in Horig.
  destruct (Instrs F !! MO) as [o |] eqn:HMO; [| discriminate]. injection Horig as ->.
  set (c := fresh (dom (Instrs F))).
  set (k := ConstantInt bits _).
  eexists orig, k, _, _.
  split; [done |]. split; [done |]. split; [done |].
  split; [| split; [| split; [by (subst k; eauto) | split; [| split]]]];
    cycle 4.
  - destruct PHI; reflexivity.
  - simpl. rewrite dom_insert_L. intros Heq.
    pose proof (is_fresh ({[c]} ∪ dom (Instrs F))) as Hf.
    rewrite <- Heq in Hf. apply Hf. apply elem_of_union_l. by apply elem_of_singleton.
  - simpl. rewrite dom_insert_L. intros Hin.
    apply (is_fresh ({[c]} ∪ dom (Instrs F))). by apply elem_of_union_r.
  - reflexivity.
  - assert (forall G G' : Function, Blocks G = Blocks G' -> dom (Blocks G) = dom (Blocks G'))
      as Hsame by (by intros ?? ->).
    destruct PHI; simpl; rewrite !dom_alter_L, dom_insert_L; reflexivity.
Qed.

Lemma createCase_noOtherUse cfg MO D M SI PHI F SizeId F' cb c :
  createCase cfg MO D M SI PHI F SizeId = Ret (F', (cb, c)) ->
  PHI <> Some MO ->
  noOtherUse F MO PHI -> noOtherUse F' MO PHI.
Proof.
  intros H HPMO Hno.
  apply createCase_Ret in H
    as (orig & k & br & brI & HMO & -> & -> & Hcbr & Hbr & (bits & z & ->) & HbrI & _ & HI).
  assert (Horig : InstVal MO ∉ operands (Body orig)).
  { eapply Hno; [exact HMO | congruence]. }
  (* before the phi is updated *)
  assert (Hmid : forall j i,
             alter (addCase (ConstantInt bits z) (fresh (dom (Blocks F)))) SI
               (<[br := brI]>
                  (<[fresh (dom (Instrs F)) :=
                       setParent (Some (fresh (dom (Blocks F))))
                         (MemOp.setLength (ConstantInt bits z) (MemOp.clone orig))]>
                     (Instrs F))) !! j = Some i ->
             Some j <> PHI -> InstVal MO ∉ operands (Body i)).
  { intros j i Hj Hne.
    assert (Hins : forall i0,
               <[br := brI]>
                 (<[fresh (dom (Instrs F)) :=
                      setParent (Some (fresh (dom (Blocks F))))
                        (MemOp.setLength (ConstantInt bits z) (MemOp.clone orig))]>
                    (Instrs F)) !! j = Some i0 ->
               InstVal MO ∉ operands (Body i0)).
    { intros i0 Hi0.
      apply lookup_insert_Some in Hi0 as [[_ <-] | [_ Hi0]].
      - rewrite HbrI. apply not_elem_of_nil.
      - apply lookup_insert_Some in Hi0 as [[_ <-] | [_ Hi0]].
        + simpl. intros [? | Hin]%operands_setLength; [discriminate | done].
        + by eapply Hno. }
    apply lookup_alter_Some in Hj as [(-> & i0 & Hi0 & ->) | [_ Hj]].
    - intros [? | Hin]%operands_addCase; [discriminate |]. by eapply Hins.
    - by eapply Hins. }
  intros j i Hj Hne. rewrite HI in Hj. destruct PHI as [P |].
  - assert (P <> j) by congruence.
    rewrite lookup_alter_ne in Hj by done. by eapply Hmid.
  - by eapply Hmid.
Qed.

Lemma createCase_phiIs cfg MO D M SI P F SizeId F' cb c M' ty inc :
  createCase cfg MO D M SI (Some P) F SizeId = Ret (F', (cb, c)) ->
  phiIs F P M' ty inc -> phiIs F' P M' ty (inc ++ [caseIncoming (cb, c)]).
Proof.
  intros H (phi & Hphi & HB & HPar & HTy).
  apply createCase_Ret in H
    as (orig & k & br & brI & HMO & -> & -> & Hcbr & Hbr & _ & _ & _ & HI).
  assert (P ∈ dom (Instrs F)) as HPd by (by apply elem_of_dom).
  assert (P <> br) by (intros ->; done).
  assert (P <> fresh (dom (Instrs F))).
  { intros E. apply (is_fresh (dom (Instrs F))). by rewrite <- E. }
  unfold phiIs. rewrite HI, lookup_alter_eq.
  destruct (decide (SI = P)) as [-> | Hne].
  - rewrite lookup_alter_eq, !lookup_insert_ne, Hphi by done. simpl.
    destruct (addCase_PHINode k (fresh (dom (Blocks F))) phi inc HB) as (HB' & HP' & HT').
    eexists. split; [reflexivity |]. unfold addIncoming. rewrite HB'. simpl.
    rewrite HP', HT'. done.
  - rewrite lookup_alter_ne, !lookup_insert_ne, Hphi by done. simpl.
    eexists. split; [reflexivity |]. unfold addIncoming. rewrite HB. done.
Qed.

Lemma createCase_dom cfg MO D M SI PHI F SizeId F' cb c :
  createCase cfg MO D M SI PHI F SizeId = Ret (F', (cb, c)) ->
  (cb ∉ dom (Blocks F)) /\ dom (Blocks F') = {[cb]} ∪ dom (Blocks F)
  /\ (c ∉ dom (Instrs F)) /\ dom (Instrs F) ⊆ dom (Instrs F') /\ c ∈ dom (Instrs F').
Proof.
  intros H.
  apply createCase_Ret in H
    as (orig & k & br & brI & HMO & -> & -> & Hcbr & Hbr & _ & _ & Hd & HI).
  split; [apply is_fresh |]. split; [done |]. split; [apply is_fresh |].
  assert (dom (Instrs F') = {[br]} ∪ ({[fresh (dom (Instrs F))]} ∪ dom (Instrs F))) as ->.
  { rewrite HI. destruct PHI; rewrite ?dom_alter_L, !dom_insert_L; done. }
  split.
  - intros x Hx. by apply elem_of_union_r, elem_of_union_r.
  - apply elem_of_union_r, elem_of_union_l. by apply elem_of_singleton.
Qed.

Lemma createCases_spec cfg MO D M SI PHI SizeIds F F' cs :
  createCases cfg MO D M SI PHI SizeIds F = Ret (F', cs) ->
  length cs = length SizeIds
  /\ NoDup cs.*1
  /\ (forall b, b ∈ cs.*1 -> b ∉ dom (Blocks F))
  /\ NoDup cs.*2
  /\ (forall c, c ∈ cs.*2 -> (c ∉ dom (Instrs F)) /\ c ∈ dom (Instrs F'))
  /\ dom (Blocks F) ⊆ dom (Blocks F')
  /\ dom (Instrs F) ⊆ dom (Instrs F')
  /\ (PHI <> Some MO -> noOtherUse F MO PHI -> noOtherUse F' MO PHI)
  /\ (forall P M' ty inc, PHI = Some P -> phiIs F P M' ty inc ->
        phiIs F' P M' ty (inc ++ (caseIncoming <$> cs))).
Proof.
  revert F F' cs. induction SizeIds as [| SizeId rest IH]; intros F F' cs H; simpl in H.
  - injection H as <- <-. simpl.
    repeat split; try done; try constructor.
    + intros b Hb. by apply elem_of_nil in Hb.
    + by apply elem_of_nil in H.
    + by apply elem_of_nil in H.
    + intros P M' ty inc _. by rewrite app_nil_r.
  - apply bind_Ret in H as ([F1 [cb c]] & H1 & H). simpl in H.
    apply bind_Ret in H as ([F2 cs'] & H2 & H). simpl in H.
    injection H as <- <-.
    destruct (IH _ _ _ H2) as (Hlen & Hnd & Hfresh & Hnd2 & Hfresh2 & Hsub & Hsub2 & Hno & Hphi).
    destruct (createCase_dom _ _ _ _ _ _ _ _ _ _ _ H1) as (Hcb & Hd1 & Hc & Hd2 & Hcin).
    simpl. split; [by rewrite Hlen |].
    split.
    { apply NoDup_cons. split; [| done].
      intros Hin. apply (Hfresh _ Hin). rewrite Hd1.
      by apply elem_of_union_l, elem_of_singleton. }
    split.
    { intros b [-> | Hin]%elem_of_cons; [done |].
      intros Hb. apply (Hfresh _ Hin). rewrite Hd1. by apply elem_of_union_r. }
    split.
    { apply NoDup_cons. split; [| done].
      intros Hin. by apply (Hfresh2 _ Hin). }
    split.
    { intros x [-> | Hin]%elem_of_cons.
      - split; [done |]. by apply Hsub2.
      - destruct (Hfresh2 _ Hin) as [Hx1 Hx2]. split; [| done].
        intros Hx. apply Hx1. by apply Hd2. }
    split.
    { intros x Hx. apply Hsub. rewrite Hd1. by apply elem_of_union_r. }
    split.
    { intros x Hx. by apply Hsub2, Hd2. }
    split.
    { intros HP Hn. apply Hno; [done |]. by eapply createCase_noOtherUse. }
    intros P M' ty inc -> HphiF.
    rewrite (cons_middle (caseIncoming (cb, c))), app_assoc.
    apply Hphi; [done |]. by eapply createCase_phiIs.
Qed.

(** ** Uses of the call before and after the rewrite *)

Lemma operandsKept_refl F : operandsKept F F.
Proof. intros j i H. eauto. Qed.

Lemma operandsKept_trans F G H :
  operandsKept F G -> operandsKept G H -> operandsKept F H.
Proof.
  intros H1 H2 j i Hj. destruct (H1 _ _ Hj) as (i' & Hj' & E1).
  destruct (H2 _ _ Hj') as (i'' & Hj'' & E2). exists i''. split; [done | congruence].
Qed.

Lemma operandsKept_ext F G G' : Instrs G = Instrs G' -> operandsKept F G -> operandsKept F G'.
Proof. unfold operandsKept. by intros ->. Qed.

Lemma usesKept_trans v F G H : usesKept v F G -> usesKept v G H -> usesKept v F H.
Proof.
  intros H1 H2 j i Hj Hv. destruct (H1 _ _ Hj Hv) as (i' & Hj' & Hv'). by eapply H2.
Qed.

Lemma usesKept_ext v F F' G G' :
  Instrs F = Instrs F' -> Instrs G = Instrs G' -> usesKept v F G -> usesKept v F' G'.
Proof. unfold usesKept. by intros -> ->. Qed.

Lemma operands_replaceIncomingBlock Old New i :
  operands (Body (replaceIncomingBlock Old New i)) = operands (Body i).
Proof.
  unfold replaceIncomingBlock. destruct (Body i) eqn:E; simpl; rewrite ?E; try done.
  simpl. rewrite <- list_fmap_compose. by apply list_fmap_ext.
Qed.

Lemma lookup_foldr_setParent (m : gmap nat Instruction) p l j i :
  m !! j = Some i ->
  exists i', foldr (fun x m => alter (setParent p) x m) m l !! j = Some i'
             /\ Body i' = Body i.
Proof.
  intros Hj. induction l as [| x l (i' & IH & E)]; simpl; [eauto |].
  destruct (decide (x = j)) as [-> | Hne].
  - exists (setParent p i'). by rewrite lookup_alter_eq, IH.
  - exists i'. by rewrite lookup_alter_ne.
Qed.

Lemma operandsKept_SplitBlock F Old I F' New :
  SplitBlock F Old I = Ret (F', New) -> operandsKept F F'.
Proof.
  intros H. apply SplitBlock_Ret in H as (bb & before & after & _ & _ & _ & _ & HI).
  intros j i Hj. rewrite HI.
  assert (j <> fresh (dom (Instrs F))).
  { intros ->. apply (is_fresh (dom (Instrs F))). by apply elem_of_dom. }
  rewrite lookup_insert_ne by done.
  destruct (lookup_foldr_setParent (replaceIncomingBlock Old New <$> Instrs F) (Some New)
              after j (replaceIncomingBlock Old New i)) as (i' & Hi' & E).
  { by rewrite lookup_fmap, Hj. }
  exists i'. split; [done |]. rewrite E. apply operands_replaceIncomingBlock.
Qed.

Lemma operandsKept_fresh F B i :
  operandsKept F (appendInst F B (fresh (dom (Instrs F))) i).
Proof.
  intros j i0 Hj. unfold appendInst. simpl.
  assert (j <> fresh (dom (Instrs F))).
  { intros ->. apply (is_fresh (dom (Instrs F))). by apply elem_of_dom. }
  exists i0. by rewrite lookup_insert_ne.
Qed.

Lemma Instrs_eraseFromParent F T :
  Instrs (eraseFromParent F T) = delete T (Instrs F).
Proof.
  unfold eraseFromParent. destruct (Instrs F !! T) eqn:E; [done |].
  by rewrite delete_id.
Qed.

Lemma getTerminator_last F B T :
  getTerminator F B = Some T ->
  exists bb, Blocks F !! B = Some bb /\ last (Insts bb) = Some T.
Proof.
  unfold getTerminator. destruct (Blocks F !! B) as [bb |]; [| discriminate].
  destruct (last (Insts bb)) as [t |] eqn:Hl; [| discriminate].
  destruct (Instrs F !! t) as [i |]; [| discriminate].
  destruct (isTerminator (Body i)); [| discriminate]. intros [= ->]. eauto.
Qed.

(** The terminator that the rewrite erases from the head block is the branch
    that the first split put there. *)
Lemma head_terminator F BB MO F1 D It F2 M n1 n2 T :
  SplitBlock F BB MO = Ret (F1, D) ->
  SplitBlock F1 D It = Ret (F2, M) ->
  getTerminator (setName (setName F2 M n1) D n2) BB = Some T ->
  T = fresh (dom (Instrs F)).
Proof.
  intros H1 H2 HT.
  pose proof (SplitBlock_dom _ _ _ _ _ H1) as [HD _].
  pose proof (SplitBlock_dom _ _ _ _ _ H2) as [HM HdM].
  apply SplitBlock_Ret in H1 as (bb & before & after & Hbb & _ & ED & HB1 & _).
  apply SplitBlock_Ret in H2 as (db & before' & after' & Hdb & _ & EM & HB2 & _).
  assert (BB <> D) by (intros ->; apply HD; by apply elem_of_dom).
  assert (BB ∈ dom (Blocks F1)).
  { rewrite HB1, !dom_insert_L. by apply elem_of_union_r, elem_of_union_l, elem_of_singleton. }
  assert (BB <> M) by (intros ->; done).
  apply getTerminator_last in HT as (b & Hb & Hlast).
  unfold setName in Hb. simpl in Hb.
  rewrite !lookup_alter_ne in Hb by done.
  rewrite HB2, !lookup_insert_ne in Hb by done.
  rewrite HB1, lookup_insert_ne, lookup_insert_eq in Hb by done.
  injection Hb as <-. simpl in Hlast. rewrite last_snoc in Hlast. congruence.
Qed.

Lemma replaceUse_operands Old New b v :
  v ∈ operands b -> replaceUse Old New v ∈ operands (replaceUsesInBody Old New b).
Proof.
  assert (forall l : list IRValue, v ∈ l -> replaceUse Old New v ∈ replaceUse Old New <$> l)
    as Hl by (intros l; apply list_elem_of_fmap_2).
  assert (forall l : list (IRValue * nat),
             v ∈ l.*1 ->
             replaceUse Old New v ∈ ((fun p => (replaceUse Old New p.1, p.2)) <$> l).*1) as Hp.
  { intros l [p [-> Hp]]%list_elem_of_fmap. rewrite <- list_fmap_compose.
    apply list_elem_of_fmap. exists p. done. }
  destruct b; simpl; try (by apply Hl); try (by apply Hp).
  intros [-> | Hin]%elem_of_cons; [by apply elem_of_cons; left |].
  apply elem_of_cons; right. by apply Hp.
Qed.

Lemma createPHI_redirects F MO ty D M F' P j i :
  createPHI F MO ty D M = Ret (F', P) ->
  Instrs F !! j = Some i ->
  InstVal MO ∈ operands (Body i) ->
  exists i', Instrs F' !! j = Some i' /\ InstVal P ∈ operands (Body i').
Proof.
  unfold createPHI, getBlock. intros H Hj Hv.
  destruct (Blocks F !! M) as [mb |]; [| discriminate]. simpl in H.
  destruct (insertBeforeFirstNonPHI _ _ _) as [insts |]; [| discriminate].
  injection H as <- <-.
  assert (j <> fresh (dom (Instrs F))).
  { intros ->. apply (is_fresh (dom (Instrs F))). by apply elem_of_dom. }
  unfold updateInst, replaceAllUsesWith. simpl.
  rewrite lookup_alter_ne, lookup_fmap, lookup_insert_ne, Hj by done. simpl.
  eexists. split; [reflexivity |]. simpl.
  apply (replaceUse_operands (InstVal MO) (InstVal (fresh (dom (Instrs F))))) in Hv.
  unfold replaceUse at 1 in Hv. by rewrite decide_True in Hv.
Qed.

Lemma operands_addIncoming_keep V BB i v :
  v ∈ operands (Body i) -> v ∈ operands (Body (addIncoming V BB i)).
Proof.
  unfold addIncoming. destruct (Body i) eqn:E; simpl; rewrite ?E; try done.
  simpl. rewrite fmap_app. intros Hin. by apply elem_of_app; left.
Qed.

Lemma operands_addCase_keep k cb i v :
  v ∈ operands (Body i) -> v ∈ operands (Body (addCase k cb i)).
Proof.
  unfold addCase. destruct (Body i) eqn:E; simpl; rewrite ?E; try done.
  simpl. rewrite fmap_app, app_comm_cons. intros Hin. by apply elem_of_app; left.
Qed.

Lemma usesKept_updateInst v F I f :
  (forall i, v ∈ operands (Body i) -> v ∈ operands (Body (f i))) ->
  usesKept v F (updateInst F I f).
Proof.
  intros Hf j i Hj Hv. unfold updateInst. simpl.
  destruct (decide (I = j)) as [-> | Hne].
  - exists (f i). rewrite lookup_alter_eq, Hj. split; [done | by apply Hf].
  - exists i. by rewrite lookup_alter_ne.
Qed.

Lemma createCase_usesKept v cfg MO D M SI PHI F SizeId F' cb c :
  createCase cfg MO D M SI PHI F SizeId = Ret (F', (cb, c)) -> usesKept v F F'.
Proof.
  intros H.
  apply createCase_Ret in H
    as (orig & k & br & brI & HMO & -> & -> & Hcbr & Hbr & _ & _ & _ & HI).
  intros j i Hj Hv. rewrite HI.
  assert (j ∈ dom (Instrs F)) as Hjd by (by apply elem_of_dom).
  assert (br <> j) by (intros ->; done).
  assert (fresh (dom (Instrs F)) <> j).
  { intros E. apply (is_fresh (dom (Instrs F))). by rewrite E. }
  assert (exists i1,
             alter (addCase k (fresh (dom (Blocks F)))) SI
               (<[br := brI]>
                  (<[fresh (dom (Instrs F)) :=
                       setParent (Some (fresh (dom (Blocks F))))
                         (MemOp.setLength k (MemOp.clone orig))]> (Instrs F))) !! j = Some i1
             /\ v ∈ operands (Body i1)) as (i1 & Hi1 & Hv1).
  { destruct (decide (SI = j)) as [-> | Hne].
    - rewrite lookup_alter_eq, !lookup_insert_ne, Hj by done. simpl.
      eexists. split; [reflexivity |]. by apply operands_addCase_keep.
    - rewrite lookup_alter_ne, !lookup_insert_ne, Hj by done. eauto. }
  destruct PHI as [P |]; [| eauto].
  destruct (decide (P = j)) as [-> | Hne].
  - rewrite lookup_alter_eq, Hi1. simpl.
    eexists. split; [reflexivity |]. by apply operands_addIncoming_keep.
  - rewrite lookup_alter_ne by done. eauto.
Qed.

Lemma createCases_usesKept v cfg MO D M SI PHI SizeIds F F' cs :
  createCases cfg MO D M SI PHI SizeIds F = Ret (F', cs) -> usesKept v F F'.
Proof.
  revert F F' cs. induction SizeIds as [| SizeId rest IH]; intros F F' cs H; simpl in H.
  - injection H as <- <-. intros j i Hj Hv. eauto.
  - apply bind_Ret in H as ([F1 [cb c]] & H1 & H). simpl in H.
    apply bind_Ret in H as ([F2 cs'] & H2 & H). simpl in H.
    injection H as <- <-.
    eapply usesKept_trans; [by eapply createCase_usesKept | by eapply IH].
Qed.

(** ** The dispatch switch *)

Lemma switchTargets_ext F G SI d ts :
  Instrs F = Instrs G -> switchTargets F SI d ts -> switchTargets G SI d ts.
Proof. unfold switchTargets. by intros ->. Qed.

Lemma switchTargets_updateInst F SI d ts I f :
  (forall i, Body (f i) = Body i) ->
  switchTargets F SI d ts -> switchTargets (updateInst F I f) SI d ts.
Proof.
  intros Hf (si & cond & cases & Hsi & HB & Ht). unfold switchTargets, updateInst. simpl.
  destruct (decide (I = SI)) as [-> | Hne].
  - exists (f si), cond, cases. rewrite lookup_alter_eq, Hsi, Hf. done.
  - exists si, cond, cases. by rewrite lookup_alter_ne.
Qed.

Lemma addIncoming_SwitchInst V BB i cond d cases :
  Body i = SwitchInst cond d cases -> Body (addIncoming V BB i) = SwitchInst cond d cases.
Proof. unfold addIncoming. intros H. by rewrite H. Qed.

Lemma createPHI_switchTargets F MO ty D M F' P SI d ts :
  createPHI F MO ty D M = Ret (F', P) ->
  switchTargets F SI d ts -> switchTargets F' SI d ts.
Proof.
  unfold createPHI, getBlock. intros H (si & cond & cases & Hsi & HB & Ht).
  destruct (Blocks F !! M) as [mb |]; [| discriminate]. simpl in H.
  destruct (insertBeforeFirstNonPHI _ _ _) as [insts |]; [| discriminate].
  injection H as <- <-.
  assert (fresh (dom (Instrs F)) <> SI).
  { intros E. apply (is_fresh (dom (Instrs F))). rewrite E. by apply elem_of_dom. }
  unfold switchTargets, updateInst, replaceAllUsesWith. simpl.
  rewrite lookup_alter_ne, lookup_fmap, lookup_insert_ne, Hsi by done. simpl.
  eexists _, _, _. split; [reflexivity |]. simpl. rewrite HB. simpl.
  split; [reflexivity |]. rewrite <- Ht, <- list_fmap_compose. by apply list_fmap_ext.
Qed.

Lemma createCase_switchTargets cfg MO D M SI PHI F SizeId F' cb c d ts :
  createCase cfg MO D M SI PHI F SizeId = Ret (F', (cb, c)) ->
  switchTargets F SI d ts -> switchTargets F' SI d (ts ++ [cb]).
Proof.
  intros H (si & cond & cases & Hsi & HB & Ht).
  apply createCase_Ret in H
    as (orig & k & br & brI & HMO & -> & -> & Hcbr & Hbr & _ & _ & _ & HI).
  assert (SI ∈ dom (Instrs F)) as Hd by (by apply elem_of_dom).
  assert (br <> SI) by (intros ->; done).
  assert (fresh (dom (Instrs F)) <> SI).
  { intros E. apply (is_fresh (dom (Instrs F))). by rewrite E. }
  assert (Body (addCase k (fresh (dom (Blocks F))) si)
          = SwitchInst cond d (cases ++ [(k, fresh (dom (Blocks F)))])) as HB'.
  { unfold addCase. by rewrite HB. }
  unfold switchTargets. rewrite HI. destruct PHI as [P |].
  - destruct (decide (P = SI)) as [-> | Hne].
    + rewrite !lookup_alter_eq, !lookup_insert_ne, Hsi by done. simpl.
      eexists _, _, _. split; [reflexivity |].
      split; [by apply addIncoming_SwitchInst |]. by rewrite fmap_app, Ht.
    + rewrite lookup_alter_ne, lookup_alter_eq, !lookup_insert_ne, Hsi by done. simpl.
      eexists _, _, _. split; [reflexivity |]. split; [exact HB' |]. by rewrite fmap_app, Ht.
  - rewrite lookup_alter_eq, !lookup_insert_ne, Hsi by done. simpl.
    eexists _, _, _. split; [reflexivity |]. split; [exact HB' |]. by rewrite fmap_app, Ht.
Qed.

Lemma createCases_switchTargets cfg MO D M SI PHI SizeIds F F' cs d ts :
  createCases cfg MO D M SI PHI SizeIds F = Ret (F', cs) ->
  switchTargets F SI d ts -> switchTargets F' SI d (ts ++ cs.*1).
Proof.
  revert F F' cs ts. induction SizeIds as [| SizeId rest IH]; intros F F' cs ts H Hsw;
    simpl in H.
  - injection H as <- <-. simpl. by rewrite app_nil_r.
  - apply bind_Ret in H as ([F1 [cb c]] & H1 & H). simpl in H.
    apply bind_Ret in H as ([F2 cs'] & H2 & H). simpl in H.
    injection H as <- <-. simpl.
    rewrite (cons_middle cb), app_assoc.
    eapply IH; [exact H2 |]. by eapply createCase_switchTargets.
Qed.

Lemma keepsShape_setProf md : keepsShape (setProf md).
Proof. by intros i. Qed.

Lemma keepsShape_compose f g : keepsShape f -> keepsShape g -> keepsShape (f ∘ g).
Proof.
  intros Hf Hg i. simpl. destruct (Hf (g i)) as (-> & -> & ->). apply Hg.
Qed.

Lemma rewrite_Ret cfg st MO inst VDs pl CC MC Sum Tot info st' :
  rewrite cfg st MO inst VDs pl CC MC Sum Tot = Ret (info, st') ->
  exists F1 F2 Fsw Fph Fmd Fcs,
    Parent inst = Some (HeadBB info)
    /\ OrigBBFreq info = getBlockFreq (BFI st) (HeadBB info)
    /\ BFI st' = setBlockFreq (BFI st) (MergeBB info) (OrigBBFreq info)
    /\ SplitBlock (Func st) (HeadBB info) MO = Ret (F1, DefaultBB info)
    /\ (exists It, SplitBlock F1 (DefaultBB info) It = Ret (F2, MergeBB info))
    /\ is_Some (Instrs Fsw !! MO)
    /\ dom (Blocks Fsw) = dom (Blocks F2)
    /\ ((InstTy inst = VoidTy /\ PHI info = None /\ Fph = Fsw)
        \/ (InstTy inst <> VoidTy
            /\ exists P, PHI info = Some P
                /\ createPHI Fsw MO (InstTy inst) (DefaultBB info) (MergeBB info)
                   = Ret (Fph, P)))
    /\ Blocks Fmd = Blocks Fph
    /\ (exists f, keepsShape f /\ Instrs Fmd = alter f MO (Instrs Fph))
    /\ createCases cfg MO (DefaultBB info) (MergeBB info) (Switch info) (PHI info)
         (SizeIds pl) Fmd
       = Ret (Fcs, CaseBBs info)
    /\ Func st' = updateInst Fcs (Switch info) (setProfMetadata CC MC)
    /\ operandsKept (Func st) Fsw
    /\ switchTargets Fsw (Switch info) (DefaultBB info) [].
Proof.
  unfold rewrite. intros H.
  destruct (Parent inst) as [BB |] eqn:HP; [| discriminate].
  apply bind_Ret in H as ([F1 DefaultBB] & Hs1 & H). simpl in H.
  apply bind_Ret in H as (db & Hdb & H).
  destruct (Insts db) as [| x [| It rest]];
    try (unfold failed in H; destruct (NDEBUG cfg); discriminate).
  apply bind_Ret in H as ([F2 MergeBB] & Hs2 & H). simpl in H.
  destruct (getTerminator _ BB) as [T |] eqn:HT; [| discriminate].
  apply bind_Ret in H as (cur & Hcur & H).
  apply bind_Ret in H as (SizeVar & Hlen & H).
  apply bind_Ret in H as ([Fph PHI] & Hph & H). simpl in H.
  apply bind_Ret in H as ([Fcs cs] & Hcs & H). simpl in H.
  apply bind_Ret in H as (remarks & Hrem & H).
  injection H as <- <-. simpl.
  set (Ferase := eraseFromParent _ T) in *.
  set (Fsw := appendInst Ferase BB _ _) in *.
  eexists F1, F2, Fsw, Fph, _, Fcs.
  split; [done |]. split; [done |]. split; [done |]. split; [done |].
  split; [by exists It |].
  split.
  { unfold getInst in Hcur. destruct (Instrs Ferase !! MO) as [c |] eqn:E; [| discriminate].
    subst Fsw. unfold appendInst. simpl.
    destruct (decide (fresh (dom (Instrs Ferase)) = MO)) as [<- | Hne].
    - rewrite lookup_insert_eq. eauto.
    - rewrite lookup_insert_ne by done. eauto. }
  split.
  { subst Fsw Ferase.
    by rewrite dom_Blocks_appendInst, dom_Blocks_eraseFromParent, !dom_Blocks_setName. }
  split.
  { destruct (bool_decide (InstTy inst = VoidTy)) eqn:Hv.
    - apply bool_decide_eq_true in Hv. injection Hph as <- <-. by left.
    - apply bool_decide_eq_false in Hv. right. split; [done |].
      apply bind_Ret in Hph as ([Fp P] & Hc & Hph). simpl in Hph.
      injection Hph as <- <-. eauto. }
  split; [| split; [| split; [exact Hcs | split; [reflexivity | split]]]].
  - destruct (_ || _); reflexivity.
  - destruct (_ || _).
    + eexists (_ ∘ setProf None). split.
      * apply keepsShape_compose; [| apply keepsShape_setProf].
        intros i. unfold annotateValueSite. apply keepsShape_setProf.
      * unfold updateInst. simpl. by rewrite alter_alter_eq.
    + exists (setProf None). split; [apply keepsShape_setProf | done].
  - pose proof (head_terminator _ _ _ _ _ _ _ _ _ _ _ Hs1 Hs2 HT) as ET.
    eapply operandsKept_trans; [| apply operandsKept_fresh].
    intros j i Hj.
    destruct (operandsKept_trans _ _ _ (operandsKept_SplitBlock _ _ _ _ _ Hs1)
                (operandsKept_SplitBlock _ _ _ _ _ Hs2) j i Hj) as (i' & Hj' & E).
    exists i'. split; [| done].
    subst Ferase. rewrite Instrs_eraseFromParent, lookup_delete_ne; [done |].
    rewrite ET. intros <-. apply (is_fresh (dom (Instrs (Func st)))). by apply elem_of_dom.
  - subst Fsw. unfold switchTargets, appendInst. simpl. rewrite lookup_insert_eq.
    eexists _, _, _. split; [reflexivity |]. simpl. done.
Qed.

(** C6: after every successful rewrite the frequency recorded for the merge
    block is the frequency that the block of the call had before the rewrite:
    it is read before the first split and nothing but the merge block's entry
    is written.  The merge block is a block the function did not have
    before. *)
Theorem C6_merge_block_frequency (cfg : Options) (st st' : State) (MO : InstId)
    (info : RewriteInfo) :
  performInfo cfg st MO = Ret (Some info, st') ->
  (exists inst, Instrs (Func st) !! MO = Some inst /\ Parent inst = Some (HeadBB info))
  /\ Freqs (BFI st') !! MergeBB info = Some (getBlockFreq (BFI st) (HeadBB info))
  /\ getBlockFreq (BFI st') (MergeBB info) = getBlockFreq (BFI st) (HeadBB info)
  /\ (MergeBB info ∉ dom (Blocks (Func st)))
  /\ (forall B, B <> MergeBB info -> Freqs (BFI st') !! B = Freqs (BFI st) !! B).
Proof.
  intros H.
  apply performInfo_Some in H as (inst & VDs & T & a & pl & HI & _ & _ & _ & _ & H).
  apply rewrite_Ret in H
    as (F1 & F2 & Fsw & Fph & Fmd & Fcs & HP & Horig & Hbfi & Hs1 & [It Hs2] & _).
  split; [eauto |].
  rewrite Hbfi, Horig.
  split; [simpl; by rewrite lookup_insert_eq |].
  split; [unfold getBlockFreq at 1; simpl; by rewrite lookup_insert_eq |].
  split.
  - apply SplitBlock_dom in Hs1 as [_ Hd1]. apply SplitBlock_dom in Hs2 as [Hn _].
    rewrite Hd1 in Hn. intros Hin. apply Hn. by apply elem_of_union_r.
  - intros B HB. simpl. by rewrite lookup_insert_ne.
Qed.

(** C10: after every successful rewrite of a call site whose type is not
    void, there is a phi node [P] in the merge block, of the type of the
    call, whose incoming values are, in this order, the original call from the
    default block and, for each case block created, the clone made for that
    case block; the case blocks are exactly the case targets of the switch,
    whose default target is the default block; the default block and the
    case blocks are pairwise different, and so are the call and the clones.  No instruction other
    than [P] has the result of the original call among its operands, and
    every instruction that had it before the rewrite has [P] instead: the
    uses were redirected to [P], a new instruction, when [P] had no incoming
    value yet, so the value registered for the default block is still the
    call itself. *)
Theorem C10_phi_merges_call_results (cfg : Options) (st st' : State) (MO : InstId)
    (inst : Instruction) (info : RewriteInfo) :
  Instrs (Func st) !! MO = Some inst ->
  InstTy inst <> VoidTy ->
  performInfo cfg st MO = Ret (Some info, st') ->
  exists P,
    PHI info = Some P
    /\ P <> MO
    /\ phiIs (Func st') P (MergeBB info) (InstTy inst)
         ((InstVal MO, DefaultBB info) :: (caseIncoming <$> CaseBBs info))
    /\ switchTargets (Func st') (Switch info) (DefaultBB info) (CaseBBs info).*1
    /\ NoDup (DefaultBB info :: (CaseBBs info).*1)
    /\ NoDup (MO :: (CaseBBs info).*2)
    /\ (P ∉ dom (Instrs (Func st)))
    /\ (forall j i, Instrs (Func st) !! j = Some i -> InstVal MO ∈ operands (Body i) ->
          exists i', Instrs (Func st') !! j = Some i' /\ InstVal P ∈ operands (Body i'))
    /\ noOtherUse (Func st') MO (Some P).
Proof.
  intros HI Hty H.
  apply performInfo_Some in H as (inst' & VDs & T & a & pl & HI' & _ & _ & _ & _ & H).
  assert (inst' = inst) as -> by congruence.
  apply rewrite_Ret in H
    as (F1 & F2 & Fsw & Fph & Fmd & Fcs & HP & _ & _ & Hs1 & [It Hs2] & HMO & Hdsw
        & Hph & HBmd & (f & Hf & HImd) & Hcs & Hfin & Hkept & Hsw).
  destruct Hph as [[Hv _] | [_ (P & HPHI & Hphi)]]; [done |].
  destruct (createPHI_Ret _ _ _ _ _ _ _ Hphi HMO) as (HPMO & HPfresh & Hphi0 & Hno0 & Hdph & Hdi).
  rewrite HPHI in Hcs.
  destruct (createCases_spec _ _ _ _ _ _ _ _ _ _ Hcs)
    as (_ & Hnd & Hfresh & Hnd2 & Hfresh2 & _ & _ & Hno & Hphis).
  assert (HFmd : Instrs (updateInst Fph MO f) = Instrs Fmd) by (by rewrite HImd).
  exists P. split; [done |]. split; [done |].
  split; [| split; [| split; [| split; [| split; [| split]]]]].
  - rewrite Hfin. apply phiIs_updateInst; [apply keepsShape_setProf |].
    apply (Hphis P (MergeBB info) (InstTy inst) [(InstVal MO, DefaultBB info)] eq_refl).
    apply (phiIs_ext _ _ _ _ _ _ HFmd). by apply phiIs_updateInst.
  - rewrite Hfin. apply switchTargets_updateInst; [done |].
    apply (createCases_switchTargets _ _ _ _ _ _ _ _ _ _ _ [] Hcs).
    apply (switchTargets_ext _ _ _ _ _ HFmd).
    apply switchTargets_updateInst; [intros x; by destruct (Hf x) |].
    by eapply createPHI_switchTargets.
  - apply NoDup_cons. split; [| done].
    intros Hin. apply (Hfresh _ Hin). rewrite HBmd, Hdph, Hdsw.
    apply SplitBlock_dom in Hs1 as [_ Hd1]. apply SplitBlock_dom in Hs2 as [_ Hd2].
    rewrite Hd2, Hd1. by apply elem_of_union_r, elem_of_union_l, elem_of_singleton.
  - apply NoDup_cons. split; [| done].
    intros Hin. destruct (Hfresh2 _ Hin) as [Hn _]. apply Hn.
    rewrite HImd, dom_alter_L, Hdi. apply elem_of_union_r. by apply elem_of_dom.
  - intros Hin. apply elem_of_dom in Hin as [i Hi].
    destruct (Hkept _ _ Hi) as (i' & Hi' & _). apply HPfresh. by apply elem_of_dom.
  - intros j i Hj Hv.
    destruct (Hkept _ _ Hj) as (i1 & Hj1 & E1). rewrite <- E1 in Hv.
    destruct (createPHI_redirects _ _ _ _ _ _ _ _ _ Hphi Hj1 Hv) as (i2 & Hj2 & Hv2).
    assert (usesKept (InstVal P) Fph (Func st')) as Hu.
    { eapply usesKept_trans.
      - apply (usesKept_ext _ Fph Fph (updateInst Fph MO f) Fmd eq_refl HFmd).
        apply usesKept_updateInst. intros x. by destruct (Hf x) as [-> _].
      - eapply usesKept_trans; [by eapply createCases_usesKept |].
        rewrite Hfin. by apply usesKept_updateInst. }
    by eapply Hu.
  - rewrite Hfin. apply noOtherUse_updateInst; [done |].
    apply Hno; [congruence |]. apply (noOtherUse_ext _ _ _ _ HFmd).
    apply noOtherUse_updateInst; [apply Hf | done].
Qed.

(** ** No division by zero *)

Ltac nodiv_step :=
  match goal with
  | |- noDivZero (Ret _) => apply noDivZero_Ret
  | |- noDivZero (Abort _) => apply noDivZero_Abort
  | |- noDivZero (Undefined _) => unfold noDivZero; discriminate
  | |- noDivZero (failed _ _ _) => apply noDivZero_failed; discriminate
  | |- noDivZero (bind _ _) => apply noDivZero_bind; [| intros ? _]
  | |- noDivZero (match ?x with _ => _ end) => destruct x
  end.

Lemma getInst_noDivZero F I : noDivZero (getInst F I).
Proof. unfold getInst. repeat nodiv_step. Qed.

Lemma getBlock_noDivZero F B : noDivZero (getBlock F B).
Proof. unfold getBlock. repeat nodiv_step. Qed.

Lemma getLength_noDivZero i : noDivZero (MemOp.getLength i).
Proof. unfold MemOp.getLength, MemOp.asCI. repeat nodiv_step. Qed.

Lemma getType_noDivZero F v : noDivZero (getType F v).
Proof. unfold getType. destruct v; repeat nodiv_step. apply getInst_noDivZero. Qed.

Lemma SplitBlock_noDivZero F Old I : noDivZero (SplitBlock F Old I).
Proof. unfold SplitBlock. nodiv_step; [apply getBlock_noDivZero |]. repeat nodiv_step. Qed.

Lemma createPHI_noDivZero F MO ty D M : noDivZero (createPHI F MO ty D M).
Proof. unfold createPHI. nodiv_step; [apply getBlock_noDivZero |]. repeat nodiv_step. Qed.

Lemma createCase_noDivZero cfg MO D M SI PHI F SizeId :
  noDivZero (createCase cfg MO D M SI PHI F SizeId).
Proof.
  unfold createCase.
  nodiv_step; [apply getInst_noDivZero |].
  nodiv_step; [apply getLength_noDivZero |].
  nodiv_step; [apply getType_noDivZero |].
  repeat nodiv_step.
Qed.

Lemma createCases_noDivZero cfg MO D M SI PHI SizeIds F :
  noDivZero (createCases cfg MO D M SI PHI SizeIds F).
Proof.
  revert F. induction SizeIds as [| SizeId rest IH]; intros F; simpl.
  - apply noDivZero_Ret.
  - nodiv_step; [apply createCase_noDivZero |].
    nodiv_step; [apply IH |]. apply noDivZero_Ret.
Qed.

Lemma rewrite_noDivZero cfg st MO inst VDs pl CC MC Sum Tot :
  noDivZero (rewrite cfg st MO inst VDs pl CC MC Sum Tot).
Proof.
  unfold rewrite.
  destruct (Parent inst); [| nodiv_step].
  nodiv_step; [apply SplitBlock_noDivZero |].
  nodiv_step; [apply getBlock_noDivZero |].
  destruct (Insts _) as [| ? [| It ?]]; try (apply noDivZero_failed; discriminate).
  nodiv_step; [apply SplitBlock_noDivZero |].
  destruct (getTerminator _ _); [| nodiv_step].
  nodiv_step; [apply getInst_noDivZero |].
  nodiv_step; [apply getLength_noDivZero |].
  nodiv_step.
  { destruct (bool_decide _); [nodiv_step |].
    nodiv_step; [apply createPHI_noDivZero | nodiv_step]. }
  nodiv_step; [apply createCases_noDivZero |].
  nodiv_step; [| nodiv_step].
  destruct (RemarksEnabled st); [| nodiv_step].
  nodiv_step; [apply getInst_noDivZero |].
  destruct (MemOp.getName _); [nodiv_step | apply noDivZero_failed; discriminate].
Qed.

Lemma performInfo_noDivZero cfg st MO : noDivZero (performInfo cfg st MO).
Proof.
  unfold performInfo.
  destruct (Instrs (Func st) !! MO) as [inst |]; [| apply noDivZero_failed; discriminate].
  destruct (MemOp.isMemmove inst); [nodiv_step |].
  destruct (_ && _); [nodiv_step |].
  destruct (getValueProfDataFromInst _ _ _) as [[VDs T] |]; [| nodiv_step].
  destruct (if MemOPScaleCount cfg then _ else _) as [[a |] | b | u] eqn:E.
  - destruct (a <? MemOPCountThreshold cfg); [nodiv_step |].
    destruct (Z.eqb_spec T 0); [nodiv_step |]. cbv zeta.
    nodiv_step; [by apply planLoop_noDivZero |].
    destruct (Version _ =? 0); [nodiv_step |].
    nodiv_step; [apply rewrite_noDivZero | nodiv_step].
  - nodiv_step.
  - nodiv_step.
  - destruct (MemOPScaleCount cfg); [destruct (Parent inst) |]; try discriminate.
    injection E as <-. nodiv_step.
Qed.

Lemma planLoop_raw_counts cfg A D A' D' VDs st :
  MemOPScaleCount cfg = false ->
  planLoop cfg A D VDs st = planLoop cfg A' D' VDs st.
Proof.
  intros Hs. revert st. induction VDs as [| vd rest IH]; intros st; simpl; [done |].
  unfold planStep. rewrite Hs. simpl.
  destruct (skipValue _ _); simpl; [apply IH |].
  destruct (isProfitable _ _ _) as [[] | |]; simpl; try done.
  destruct (assert _ _ _); simpl; try done.
  destruct (assert _ _ _); simpl; try done.
  destruct (_ && _); [done | apply IH].
Qed.

(** C9: with count scaling disabled [getScaledCount] returns the raw count,
    and the planning loop does not depend on the numerator and denominator it
    is given: it works on the raw counts.  With scaling enabled and a
    non-zero denominator [getScaledCount] returns the saturating product of
    the raw count and the numerator (the product, or 2^64-1 when that is
    smaller) divided by the denominator.  The denominator is the raw total,
    which [perform] compares with zero before the loop: although
    [getScaledCount] itself would divide by a zero denominator, no run of
    [perform] divides by zero. *)
Theorem C9_scaled_count (cfg : Options) :
  (forall C N D, MemOPScaleCount cfg = false -> getScaledCount cfg C N D = Ret C)
  /\ (forall A D A' D' VDs st,
        MemOPScaleCount cfg = false ->
        planLoop cfg A D VDs st = planLoop cfg A' D' VDs st)
  /\ (forall C N D,
        MemOPScaleCount cfg = true -> D <> 0 ->
        getScaledCount cfg C N D = Ret ((SaturatingMultiply C N).1 / D)
        /\ (SaturatingMultiply C N).1 = Z.min (C * N) UINT64_MAX)
  /\ (forall C N,
        MemOPScaleCount cfg = true -> getScaledCount cfg C N 0 = Undefined DivisionByZero)
  /\ (forall st MO,
        performInfo cfg st MO <> Undefined DivisionByZero
        /\ perform cfg st MO <> Undefined DivisionByZero).
Proof.
  split; [apply getScaledCount_off |].
  split; [apply planLoop_raw_counts |].
  split.
  { intros C N D Hs HD. rewrite SaturatingMultiply_min. split; [| done].
    by apply getScaledCount_on. }
  split; [apply getScaledCount_zero |].
  intros st MO. pose proof (performInfo_noDivZero cfg st MO) as H.
  split; [exact H |].
  unfold perform. apply noDivZero_bind; [exact H |]. intros ? _. apply noDivZero_Ret.
Qed.

(** ** The theorems at concrete inputs *)

(** C3 at a profile whose counts sum to the raw total, scaled to a block
    count of twice that total. *)
Lemma C3_witness :
  let cfg := exampleOptions true true in
  let VDs := [VD 4 6000; VD 8 3000; VD 9 1000] in
  (is_u64 20000 /\ 0 < 10000 <= UINT64_MAX /\ sumCounts VDs <= 10000)
  /\ exists pl,
       planLoop cfg 20000 10000 VDs (initPlan 20000 10000) = Ret pl
       /\ planLoop (withAsserts cfg) 20000 10000 VDs (initPlan 20000 10000) = Ret pl
       /\ 0 <= RemainCount pl
       /\ Forall (fun c => 0 <= c) (tail (CaseCounts pl))
       /\ sumZ (tail (CaseCounts pl)) + RemainCount pl = 20000
       /\ sumZ (<[0%nat := RemainCount pl]> (CaseCounts pl)) = 20000.
Proof.
  assert (H1 : is_u64 20000) by (unfold is_u64, UINT64_MAX; lia).
  assert (H2 : 0 < 10000 <= UINT64_MAX) by (unfold UINT64_MAX; lia).
  assert (H3 : sumCounts [VD 4 6000; VD 8 3000; VD 9 1000] <= 10000) by (simpl; lia).
  split; [done |].
  apply (C3_plan_conserves_total (exampleOptions true true) 20000 10000
           [VD 4 6000; VD 8 3000; VD 9 1000] H1 H2); [discriminate | | exact H3].
  repeat constructor; simpl; lia.
Defined.

(** The gate at the profile of the scenario behind a filtered value, and at
    the scenario with percent threshold 70. *)
Lemma profitability_gate_example :
  (planLoop (exampleOptions false true) 10000 10000
     ([VD 9 0] ++ VD 16 6000 :: [VD 32 3000; VD 9 1000]) (initPlan 10000 10000)
   = planLoop (exampleOptions false true) 10000 10000 [VD 32 3000; VD 9 1000]
       (accept (initPlan 10000 10000) 16 6000 6000))
  /\ (planLoop percent70Options 10000 10000
        ([] ++ VD 16 6000 :: [VD 32 3000; VD 9 1000]) (initPlan 10000 10000)
      = Ret (initPlan 10000 10000))
  /\ performInfo percent70Options (scenarioState 9) 1%nat = Ret (None, scenarioState 9)
  /\ perform percent70Options (scenarioState 9) 1%nat = Ret (false, scenarioState 9).
Proof.
  split; [| split].
  - apply (proj1 (profitability_gate (exampleOptions false true))
             10000 10000 (initPlan 10000 10000) [VD 9 0] (VD 16 6000)
             [VD 32 3000; VD 9 1000] 6000).
    + repeat constructor.
    + reflexivity.
    + reflexivity.
    + right. simpl. lia.
  - apply (proj1 (profitability_gate percent70Options)
             10000 10000 (initPlan 10000 10000) [] (VD 16 6000)
             [VD 32 3000; VD 9 1000] 6000).
    + constructor.
    + reflexivity.
    + reflexivity.
    + right. simpl. lia.
  - apply (proj2 (proj2 (profitability_gate percent70Options))
             (scenarioState 9) 1%nat
             (memcpyCall (memOPSizeProfile 10000 [VD 16 6000; VD 32 3000; VD 9 1000]))
             (VD 16 6000) [VD 32 3000; VD 9 1000]); reflexivity.
Defined.

(** C5 in the value-kind mode of the precise range, where 9 stands for a
    group of sizes, and in the direct mode, where 200 exceeds the largest
    size optimised. *)
Lemma C5_witness :
  (exists info st',
      performInfo (exampleOptions false true) (scenarioState 9) 1%nat = Ret (Some info, st')
      /\ length (CaseBBs info) = 2%nat)
  /\ (exists info st',
        performInfo (exampleOptions false false) (scenarioState 200) 1%nat
        = Ret (Some info, st')
        /\ length (CaseBBs info) = 2%nat).
Proof.
  split.
  - destruct (C5_scenario_two_versions (exampleOptions false true) 9
                eq_refl eq_refl eq_refl eq_refl eq_refl eq_refl eq_refl)
      as (_ & info & st' & c16 & c32 & E & _ & Hc & _).
    exists info, st'. split; [exact E |].
    rewrite <- (length_fmap fst), Hc. reflexivity.
  - destruct (C5_scenario_two_versions (exampleOptions false false) 200
                eq_refl eq_refl eq_refl eq_refl eq_refl eq_refl eq_refl)
      as (_ & info & st' & c16 & c32 & E & _ & Hc & _).
    exists info, st'. split; [exact E |].
    rewrite <- (length_fmap fst), Hc. reflexivity.
Defined.

(** C6 at the comparison site: the block had frequency 77. *)
Lemma C6_witness :
  exists info st',
    performInfo (exampleOptions false true) cmpState 1%nat = Ret (Some info, st')
    /\ Freqs (BFI st') !! MergeBB info = Some 77
    /\ HeadBB info = 0%nat.
Proof.
  assert (exists info st',
             performInfo (exampleOptions false true) cmpState 1%nat = Ret (Some info, st')
             /\ HeadBB info = 0%nat) as (info & st' & E & Hh).
  { do 2 eexists. split; [vm_compute; reflexivity | reflexivity]. }
  exists info, st'. split; [exact E |]. split; [| exact Hh].
  destruct (C6_merge_block_frequency (exampleOptions false true) cmpState st' 1%nat info E)
    as (_ & Hf & _).
  rewrite Hf, Hh. reflexivity.
Defined.

(** C7 at the comparison site with comparison specialisation off: the site
    is collected, and the pass leaves the function as it was. *)
Lemma C7_witness :
  visitInstruction (Func cmpState) [] 1%nat = Ret [1%nat]
  /\ perform noCmpOptions cmpState 1%nat = Ret (false, cmpState)
  /\ performAll noCmpOptions cmpState
     = Ret {| Changed := false; Final := cmpState;
              NumOfPGOMemOPAnnotate := 1; NumOfPGOMemOPOpt := 0 |}.
Proof.
  pose (call := memcmpCall (memOPSizeProfile 10000 [VD 4 6000; VD 8 3000; VD 9 1000])).
  assert (Hl : Instrs (Func cmpState) !! 1%nat = Some call) by reflexivity.
  split; [| split].
  - apply (proj1 (C7_cmp_site_collected_then_gated noCmpOptions)
             (Func cmpState) [] 1%nat call (InstVal 0) Hl); reflexivity.
  - apply (proj1 (proj2 (C7_cmp_site_collected_then_gated noCmpOptions))
             cmpState 1%nat call Hl); reflexivity.
  - apply (proj2 (proj2 (C7_cmp_site_collected_then_gated noCmpOptions))
             cmpState [1%nat]); [reflexivity | reflexivity |].
    constructor; [| constructor]. exists call. split; [exact Hl | reflexivity].
Defined.

(** C8 at a move site with a profitable profile and at a copy site whose
    profile has total zero. *)
Lemma C8_witness :
  perform (exampleOptions true true) moveState 1%nat = Ret (false, moveState)
  /\ perform (exampleOptions true true) zeroTotalState 1%nat = Ret (false, zeroTotalState).
Proof.
  split.
  - apply (C8_not_applicable_is_skipped (exampleOptions true true) moveState 1%nat
             (memmoveCall (memOPSizeProfile 10000 [VD 16 6000; VD 32 3000; VD 9 1000]))
             0%nat eq_refl eq_refl).
    apply NA_move. reflexivity.
  - apply (C8_not_applicable_is_skipped (exampleOptions true true) zeroTotalState 1%nat
             (memcpyCall (memOPSizeProfile 0 [VD 16 6000; VD 32 3000]))
             0%nat eq_refl eq_refl).
    apply (NA_zero_total _ _ _ _ [VD 16 6000; VD 32 3000]). reflexivity.
Defined.

(** C9 at a count of 6000 scaled by 20000/10000, and at a product that
    saturates. *)
Lemma C9_witness :
  getScaledCount (exampleOptions false true) 6000 20000 10000 = Ret 6000
  /\ getScaledCount (exampleOptions true true) 6000 20000 10000 = Ret 12000
  /\ getScaledCount (exampleOptions true true) (2 ^ 40) (2 ^ 40) (2 ^ 20) = Ret (2 ^ 44 - 1).
Proof.
  split; [| split].
  - apply (proj1 (C9_scaled_count (exampleOptions false true)) 6000 20000 10000).
    reflexivity.
  - destruct (proj1 (proj2 (proj2 (C9_scaled_count (exampleOptions true true))))
                6000 20000 10000 eq_refl) as [E _]; [discriminate |].
    rewrite E. reflexivity.
  - destruct (proj1 (proj2 (proj2 (C9_scaled_count (exampleOptions true true))))
                (2 ^ 40) (2 ^ 40) (2 ^ 20) eq_refl) as [E _]; [discriminate |].
    rewrite E. reflexivity.
Defined.

(** C10 at the comparison site, whose result instructions 2 and 3 use. *)
Lemma C10_witness :
  exists info st' P,
    performInfo (exampleOptions false true) cmpState 1%nat = Ret (Some info, st')
    /\ PHI info = Some P
    /\ phiIs (Func st') P (MergeBB info) (IntegerTy 32)
         ((InstVal 1, DefaultBB info) :: (caseIncoming <$> CaseBBs info))
    /\ length (CaseBBs info) = 2%nat
    /\ noOtherUse (Func st') 1%nat (Some P).
Proof.
  assert (exists info st',
             performInfo (exampleOptions false true) cmpState 1%nat = Ret (Some info, st')
             /\ length (CaseBBs info) = 2%nat) as (info & st' & E & Hl).
  { do 2 eexists. split; [vm_compute; reflexivity | reflexivity]. }
  destruct (C10_phi_merges_call_results (exampleOptions false true) cmpState st' 1%nat
              (memcmpCall (memOPSizeProfile 10000 [VD 4 6000; VD 8 3000; VD 9 1000]))
              info eq_refl) as (P & HP & _ & Hphi & _ & _ & _ & _ & _ & Hno);
    [discriminate | exact E |].
  exists info, st', P.
  exact (conj E (conj HP (conj Hphi (conj Hl Hno)))).
Defined.

(** * Further properties of the code *)

(** ** Count scaling stays in range *)

(** X1: with scaling enabled, a non-negative count, a
    non-negative numerator and a positive denominator, [getScaledCount]
    returns a value that fits 64 bits and is at most the exact quotient
    [Count * Num / Denom]; it is that quotient whenever the product fits 64
    bits, and it does not exceed the numerator when the count does not exceed
    the denominator. *)
Theorem X_scaled_count_bounds (cfg : Options) (c N D : Z) :
  MemOPScaleCount cfg = true ->
  0 <= c -> 0 <= N -> 0 < D ->
  exists C,
    getScaledCount cfg c N D = Ret C
    /\ 0 <= C <= UINT64_MAX
    /\ C <= c * N / D
    /\ (c * N <= UINT64_MAX -> C = c * N / D)
    /\ (c <= D -> C <= N).
Proof.
  intros Hs Hc HN HD. exists (Z.min (c * N) UINT64_MAX / D).
  split; [apply getScaledCount_on; [done | lia] |].
  assert (0 <= c * N) by nia.
  assert (0 <= Z.min (c * N) UINT64_MAX) by (unfold UINT64_MAX; lia).
  assert (Hle : Z.min (c * N) UINT64_MAX / D <= c * N / D)
    by (apply Z.div_le_mono; lia).
  split; [| split; [exact Hle | split]].
  - split; [apply Z.div_pos; lia |].
    transitivity (Z.min (c * N) UINT64_MAX); [| lia].
    apply Z.div_le_upper_bound; [lia |]. nia.
  - intros Hfit. by rewrite Z.min_l.
  - intros HcD. etransitivity; [exact Hle |].
    apply Z.div_le_upper_bound; [lia |]. nia.
Qed.

Lemma X_scaled_count_bounds_witness :
  exists C,
    getScaledCount (exampleOptions true true) (2 ^ 40) (2 ^ 40) (2 ^ 41) = Ret C
    /\ 0 <= C <= UINT64_MAX
    /\ C <= 2 ^ 40 * 2 ^ 40 / 2 ^ 41
    /\ (2 ^ 40 * 2 ^ 40 <= UINT64_MAX -> C = 2 ^ 40 * 2 ^ 40 / 2 ^ 41)
    /\ (2 ^ 40 <= 2 ^ 41 -> C <= 2 ^ 40).
Proof.
  apply (X_scaled_count_bounds (exampleOptions true true) (2 ^ 40) (2 ^ 40) (2 ^ 41));
    [reflexivity | lia | lia | lia].
Defined.

(** ** The shape of a plan *)

Lemma isProfitable_true cfg C R :
  isProfitable cfg C R = Ret true ->
  MemOPCountThreshold cfg <= C
  /\ wrap64 (R * MemOPPercentThreshold cfg) / 100 <= C.
Proof.
  unfold isProfitable. intros H. apply bind_Ret in H as (_ & _ & H).
  destruct (Z.ltb_spec C (MemOPCountThreshold cfg)); [discriminate |].
  destruct (Z.ltb_spec C (wrap64 (R * MemOPPercentThreshold cfg) / 100)); [discriminate |].
  lia.
Qed.

(** What one iteration can do. *)
Lemma planStep_cases cfg A D st vd ctl st' :
  planStep cfg A D st vd = Ret (ctl, st') ->
  (skipValue cfg (toInt64 (Value vd)) = true /\ ctl = Continue /\ st' = st)
  \/ (skipValue cfg (toInt64 (Value vd)) = false /\ ctl = Break /\ st' = st)
  \/ (skipValue cfg (toInt64 (Value vd)) = false
      /\ exists C,
           scaledCountIs cfg A D (vd, C)
           /\ MemOPCountThreshold cfg <= C
           /\ wrap64 (RemainCount st * MemOPPercentThreshold cfg) / 100 <= C
           /\ st' = accept st (toInt64 (Value vd)) C (Count vd)
           /\ ctl = if capReached cfg (Version st') then Break else Continue).
Proof.
  unfold planStep. intros H.
  apply bind_Ret in H as (C & HC & H).
  destruct (skipValue cfg _) eqn:Hs.
  { injection H as <- <-. by left. }
  right. apply bind_Ret in H as (p & Hp & H).
  destruct p; simpl in H.
  - apply bind_Ret in H as (_ & _ & H). apply bind_Ret in H as (_ & _ & H).
    right. split; [done |]. exists C.
    destruct (isProfitable_true _ _ _ Hp) as [H1 H2].
    split; [exact HC |]. split; [done |]. split; [done |].
    unfold capReached, accept. cbn [Version].
    destruct ((wrap32 (Version st + 1) >? MemOPMaxVersion cfg)
              && negb (MemOPMaxVersion cfg =? 0)) eqn:E;
      injection H as <- <-; cbn [Version]; rewrite E; done.
  - injection H as <- <-. by left.
Qed.

(** The loop accepts a prefix of the samples that pass the filter. *)
Lemma planLoop_accepts cfg A D VDs st pl :
  planLoop cfg A D VDs st = Ret pl ->
  exists acc,
    acc.*1 `prefix_of` unskipped cfg VDs
    /\ Forall (fun p => scaledCountIs cfg A D p /\ MemOPCountThreshold cfg <= p.2) acc
    /\ pl = acceptAll st acc.
Proof.
  revert st. induction VDs as [| vd rest IH]; intros st H; simpl in H.
  { injection H as <-. exists []. split; [apply prefix_nil | by split]. }
  apply bind_Ret in H as ([ctl st'] & Hstep & H).
  unfold unskipped. rewrite filter_cons.
  destruct (planStep_cases _ _ _ _ _ _ _ Hstep)
    as [(Hs & -> & ->) | [(Hs & -> & ->) | (Hs & C & HC & Hthr & _ & -> & ->)]].
  - rewrite decide_False by congruence. by apply IH.
  - injection H as <-. exists []. split; [apply prefix_nil | by split].
  - rewrite decide_True by done.
    destruct (capReached cfg _).
    + injection H as <-. exists [(vd, C)]. split; [| split; [| done]].
      * simpl. apply prefix_cons, prefix_nil.
      * by repeat constructor.
    + destruct (IH _ H) as (acc & Hpre & HF & ->).
      exists ((vd, C) :: acc). split; [| split; [| done]].
      * simpl. by apply prefix_cons.
      * by constructor.
Qed.

Lemma acceptAll_snoc st acc p :
  acceptAll st (acc ++ [p]) = accept (acceptAll st acc) (toInt64 (Value p.1)) p.2 (Count p.1).
Proof. unfold acceptAll. by rewrite foldl_app. Qed.

Lemma acceptAll_lists st acc :
  SizeIds (acceptAll st acc) = SizeIds st ++ (sizeOf <$> acc.*1)
  /\ CaseCounts (acceptAll st acc) = CaseCounts st ++ acc.*2.
Proof.
  induction acc as [| p acc IH] using rev_ind; simpl.
  - by rewrite !app_nil_r.
  - rewrite acceptAll_snoc. simpl. destruct IH as [-> ->].
    rewrite !fmap_app. simpl. by rewrite !app_assoc.
Qed.

Lemma wrap32_idemp_add x k : wrap32 (wrap32 x + k) = wrap32 (x + k).
Proof. unfold wrap32. by rewrite Zplus_mod_idemp_l. Qed.

Lemma wrap64_idemp_sub x k : wrap64 (wrap64 x - k) = wrap64 (x - k).
Proof. unfold wrap64. by rewrite Zminus_mod_idemp_l. Qed.

Lemma sumCounts_app l1 l2 : sumCounts (l1 ++ l2) = sumCounts l1 + sumCounts l2.
Proof. induction l1 as [| x l1 IH]; simpl; [done | rewrite IH; lia]. Qed.

Lemma acceptAll_counters st acc :
  Version (acceptAll st acc)
  = match acc with
    | [] => Version st
    | _ => wrap32 (Version st + Z.of_nat (length acc))
    end
  /\ RemainCount (acceptAll st acc)
     = match acc with
       | [] => RemainCount st
       | _ => wrap64 (RemainCount st - sumZ acc.*2)
       end
  /\ SavedRemainCount (acceptAll st acc)
     = match acc with
       | [] => SavedRemainCount st
       | _ => wrap64 (SavedRemainCount st - sumCounts acc.*1)
       end.
Proof.
  induction acc as [| p acc IH] using rev_ind; [done |].
  rewrite acceptAll_snoc. simpl. destruct IH as (-> & -> & ->).
  assert (sumZ (acc ++ [p]).*2 = sumZ acc.*2 + p.2) as ->.
  { rewrite fmap_app, sumZ_app. simpl. lia. }
  assert (sumCounts (acc ++ [p]).*1 = sumCounts acc.*1 + Count p.1) as ->.
  { rewrite fmap_app, sumCounts_app. simpl. lia. }
  rewrite length_app. simpl.
  destruct acc as [| q acc]; simpl.
  - split; [| split]; f_equal; lia.
  - rewrite wrap32_idemp_add, !wrap64_idemp_sub.
    split; [| split]; f_equal; lia.
Qed.

Lemma prefix_take {A} (l k : list A) : l `prefix_of` k -> l = take (length l) k.
Proof. intros [r ->]. by rewrite take_app_length. Qed.

Lemma planLoop_counts (cfg : Options) (A D : Z)
    (VDs : list InstrProfValueData) (pl : PlanState) :
  planLoop cfg A D VDs (initPlan A D) = Ret pl ->
  length (CaseCounts pl) = S (length (SizeIds pl))
  /\ Forall (fun c => MemOPCountThreshold cfg <= c) (tail (CaseCounts pl)).
Proof.
  intros H. apply planLoop_accepts in H as (acc & _ & HF & ->).
  destruct (acceptAll_lists (initPlan A D) acc) as [-> ->]. simpl.
  rewrite !length_fmap. split; [done |].
  apply Forall_fmap. eapply Forall_impl; [exact HF |]. by intros p [_ ?].
Qed.

(** X2: whenever the planning loop returns, the
    sizes it selected are those of the first samples that pass the value-kind
    filter, in their order and without a gap: the loop never selects a sample
    after one it rejected.  There is one count per selected size after the
    slot of the default case, every selected count is at least the count
    threshold, the version counter is the number of selected sizes (modulo
    2^32), and the remaining count is the total minus the selected counts
    (modulo 2^64), whatever the samples are. *)
Theorem X_plan_is_accepted_prefix (cfg : Options) (A D : Z)
    (VDs : list InstrProfValueData) (pl : PlanState) :
  is_u64 A ->
  planLoop cfg A D VDs (initPlan A D) = Ret pl ->
  SizeIds pl = sizeOf <$> take (length (SizeIds pl)) (unskipped cfg VDs)
  /\ length (CaseCounts pl) = S (length (SizeIds pl))
  /\ Forall (fun c => MemOPCountThreshold cfg <= c) (tail (CaseCounts pl))
  /\ Version pl = wrap32 (Z.of_nat (length (SizeIds pl)))
  /\ RemainCount pl = wrap64 (A - sumZ (tail (CaseCounts pl))).
Proof.
  intros HA H. apply planLoop_accepts in H as (acc & Hpre & HF & ->).
  destruct (acceptAll_lists (initPlan A D) acc) as [HS HC].
  destruct (acceptAll_counters (initPlan A D) acc) as (HV & HR & _).
  rewrite HS, HC, HV, HR. simpl. rewrite !length_fmap.
  split; [| split; [done | split; [| split]]].
  - f_equal. rewrite <- (length_fmap fst). by apply prefix_take.
  - apply Forall_fmap. eapply Forall_impl; [exact HF |]. by intros p [_ ?].
  - by destruct acc.
  - destruct acc; simpl; [| done]. rewrite Z.sub_0_r. by rewrite wrap64_small.
Qed.

Lemma X_plan_is_accepted_prefix_witness :
  exists pl,
    planLoop (exampleOptions false true) 10000 10000
      [VD 9 5000; VD 4 4500; VD 8 500; VD 2 4000] (initPlan 10000 10000) = Ret pl
    /\ SizeIds pl = sizeOf <$> take (length (SizeIds pl))
                      (unskipped (exampleOptions false true)
                         [VD 9 5000; VD 4 4500; VD 8 500; VD 2 4000])
    /\ SizeIds pl = [4].
Proof.
  assert (exists pl,
             planLoop (exampleOptions false true) 10000 10000
               [VD 9 5000; VD 4 4500; VD 8 500; VD 2 4000] (initPlan 10000 10000) = Ret pl
             /\ SizeIds pl = [4]) as (pl & E & HS).
  { eexists. split; [vm_compute; reflexivity | reflexivity]. }
  exists pl. split; [exact E |]. split; [| exact HS].
  apply (X_plan_is_accepted_prefix (exampleOptions false true) 10000 10000
           [VD 9 5000; VD 4 4500; VD 8 500; VD 2 4000] pl); [| exact E].
  unfold is_u64, UINT64_MAX. lia.
Defined.

(** ** The cap on the number of versions *)

Lemma wrap32_small x : 0 <= x <= UINT32_MAX -> wrap32 x = x.
Proof. unfold wrap32, UINT32_MAX. intros H. apply Z.mod_small. lia. Qed.

Lemma planLoop_cap cfg A D VDs st pl :
  0 < MemOPMaxVersion cfg < UINT32_MAX ->
  0 <= Version st <= MemOPMaxVersion cfg ->
  planLoop cfg A D VDs st = Ret pl ->
  Version st <= Version pl <= MemOPMaxVersion cfg + 1
  /\ Version pl - Version st
     = Z.of_nat (length (SizeIds pl)) - Z.of_nat (length (SizeIds st)).
Proof.
  intros HM. revert st. induction VDs as [| vd rest IH]; intros st HV H; simpl in H.
  { injection H as <-. lia. }
  apply bind_Ret in H as ([ctl st'] & Hstep & H).
  destruct (planStep_cases _ _ _ _ _ _ _ Hstep)
    as [(Hs & -> & ->) | [(Hs & -> & ->) | (Hs & C & HC & Hthr & _ & -> & ->)]].
  - by apply IH.
  - injection H as <-. lia.
  - assert (HV' : Version (accept st (toInt64 (Value vd)) C (Count vd)) = Version st + 1).
    { simpl. apply wrap32_small. lia. }
    assert (HL : length (SizeIds (accept st (toInt64 (Value vd)) C (Count vd)))
                 = S (length (SizeIds st))).
    { simpl. rewrite length_app. simpl. lia. }
    unfold capReached in H. rewrite HV' in H.
    destruct (Z.gtb_spec (Version st + 1) (MemOPMaxVersion cfg)); simpl in H.
    + destruct (Z.eqb_spec (MemOPMaxVersion cfg) 0); [lia |]. simpl in H.
      injection H as <-. rewrite HV', HL. lia.
    + apply IH in H; [| rewrite HV'; lia]. rewrite HV', HL in H. lia.
Qed.

(** What one iteration can do, with the outcome of the profitability test. *)
Lemma planStep_outcomes cfg A D st vd ctl st' :
  planStep cfg A D st vd = Ret (ctl, st') ->
  (skipValue cfg (toInt64 (Value vd)) = true /\ ctl = Continue /\ st' = st)
  \/ (skipValue cfg (toInt64 (Value vd)) = false /\ ctl = Break /\ st' = st
      /\ exists C,
           scaledCountIs cfg A D (vd, C)
           /\ isProfitable cfg C (RemainCount st) = Ret false)
  \/ (skipValue cfg (toInt64 (Value vd)) = false
      /\ exists C,
           scaledCountIs cfg A D (vd, C)
           /\ isProfitable cfg C (RemainCount st) = Ret true
           /\ st' = accept st (toInt64 (Value vd)) C (Count vd)
           /\ ctl = if capReached cfg (Version st') then Break else Continue).
Proof.
  unfold planStep. intros H.
  apply bind_Ret in H as (C & HC & H).
  destruct (skipValue cfg _) eqn:Hs.
  { injection H as <- <-. by left. }
  right. apply bind_Ret in H as (p & Hp & H).
  destruct p; simpl in H.
  - apply bind_Ret in H as (_ & _ & H). apply bind_Ret in H as (_ & _ & H).
    right. split; [done |]. exists C.
    split; [exact HC |]. split; [exact Hp |].
    unfold capReached, accept. cbn [Version].
    destruct ((wrap32 (Version st + 1) >? MemOPMaxVersion cfg)
              && negb (MemOPMaxVersion cfg =? 0)) eqn:E;
      injection H as <- <-; cbn [Version]; rewrite E; done.
  - injection H as <- <-. left. split; [done |]. split; [done |]. split; [done |].
    by exists C.
Qed.

(** A loop that returns with the version counter within the maximum was not
    stopped by the cap: it ran out of samples, or it met an unprofitable
    one. *)
Lemma planLoop_stop cfg A D VDs st pl :
  0 < MemOPMaxVersion cfg < UINT32_MAX ->
  0 <= Version st <= MemOPMaxVersion cfg ->
  planLoop cfg A D VDs st = Ret pl ->
  Version pl <= MemOPMaxVersion cfg ->
  (length (SizeIds pl) - length (SizeIds st))%nat = length (unskipped cfg VDs)
  \/ exists vd C,
       unskipped cfg VDs !! (length (SizeIds pl) - length (SizeIds st))%nat = Some vd
       /\ scaledCountIs cfg A D (vd, C)
       /\ isProfitable cfg C (RemainCount pl) = Ret false.
Proof.
  intros HM. revert st. induction VDs as [| vd rest IH]; intros st HV H Hle; simpl in H.
  { injection H as <-. left. simpl. lia. }
  apply bind_Ret in H as ([ctl st'] & Hstep & H).
  unfold unskipped. rewrite filter_cons. fold (unskipped cfg rest).
  destruct (planStep_outcomes _ _ _ _ _ _ _ Hstep)
    as [(Hs & -> & ->) | [(Hs & -> & -> & C & HC & Hp) | (Hs & C & HC & Hp & -> & ->)]].
  - rewrite decide_False by (rewrite Hs; discriminate). by apply IH.
  - rewrite decide_True by done. injection H as <-. right. exists vd, C.
    by rewrite Nat.sub_diag.
  - rewrite decide_True by done.
    assert (HV' : Version (accept st (toInt64 (Value vd)) C (Count vd)) = Version st + 1).
    { simpl. apply wrap32_small. lia. }
    assert (HL : length (SizeIds (accept st (toInt64 (Value vd)) C (Count vd)))
                 = S (length (SizeIds st))).
    { simpl. rewrite length_app. simpl. lia. }
    unfold capReached in H. rewrite HV' in H.
    destruct (Z.gtb_spec (Version st + 1) (MemOPMaxVersion cfg)); simpl in H.
    + destruct (Z.eqb_spec (MemOPMaxVersion cfg) 0); [lia |]. simpl in H.
      injection H as <-. rewrite HV' in Hle. lia.
    + assert (HV2 : 0 <= Version (accept st (toInt64 (Value vd)) C (Count vd))
                    <= MemOPMaxVersion cfg) by (rewrite HV'; lia).
      destruct (planLoop_cap _ _ _ _ _ _ HM HV2 H) as [Hc1 Hc2].
      rewrite HV' in Hc1. rewrite HV', HL in Hc2.
      assert ((length (SizeIds pl) - length (SizeIds st))%nat
              = S (length (SizeIds pl)
                   - length (SizeIds (accept st (toInt64 (Value vd)) C (Count vd)))))
        as -> by (rewrite HL; lia).
      destruct (IH _ HV2 H Hle) as [E | (vd' & C' & E1 & E2 & E3)].
      * left. by rewrite E.
      * right. by exists vd', C'.
Qed.

(** X3: for a maximum version count [m] with [0 < m < 2^32 - 1],
    whenever the planning loop returns, the version counter is the number of
    selected sizes and is at most [m + 1]; and when it is at most [m], the
    loop was not stopped by the cap: either as many sizes were selected as
    there are samples that pass the value-kind filter, or the first such
    sample beyond the selected ones failed the profitability test against the
    remaining count of the plan.  So the cap stops the loop only at the
    acceptance that brings the counter to [m + 1], and not before. *)
Theorem X_version_cap (cfg : Options) (A D : Z) (VDs : list InstrProfValueData)
    (pl : PlanState) :
  0 < MemOPMaxVersion cfg < UINT32_MAX ->
  planLoop cfg A D VDs (initPlan A D) = Ret pl ->
  Version pl = Z.of_nat (length (SizeIds pl))
  /\ Version pl <= MemOPMaxVersion cfg + 1
  /\ (Version pl <= MemOPMaxVersion cfg ->
      length (SizeIds pl) = length (unskipped cfg VDs)
      \/ exists vd C,
           unskipped cfg VDs !! length (SizeIds pl) = Some vd
           /\ scaledCountIs cfg A D (vd, C)
           /\ isProfitable cfg C (RemainCount pl) = Ret false).
Proof.
  intros HM H.
  assert (HV0 : 0 <= Version (initPlan A D) <= MemOPMaxVersion cfg) by (simpl; lia).
  destruct (planLoop_cap cfg A D VDs (initPlan A D) pl HM HV0 H) as [H1 H2].
  split; [simpl in *; lia |]. split; [lia |].
  intros Hle.
  pose proof (planLoop_stop cfg A D VDs (initPlan A D) pl HM HV0 H Hle) as Hstop.
  simpl in Hstop. by rewrite Nat.sub_0_r in Hstop.
Qed.

(** Five profitable sizes with the maximum at 3: four are selected.  The
    scenario at percent threshold 70: the loop stops at the first sample,
    which is unprofitable, with no size selected. *)
Lemma X_version_cap_witness :
  (exists pl,
      planLoop (exampleOptions true true) 10000 10000
        [VD 1 5000; VD 2 2500; VD 3 1250; VD 4 1000; VD 5 250] (initPlan 10000 10000) = Ret pl
      /\ Version pl = 4
      /\ Version pl = Z.of_nat (length (SizeIds pl))
      /\ Version pl <= 3 + 1)
  /\ (exists pl,
        planLoop percent70Options 10000 10000
          [VD 16 6000; VD 32 3000; VD 9 1000] (initPlan 10000 10000) = Ret pl
        /\ Version pl = 0
        /\ (length (SizeIds pl) = 2%nat
            \/ exists vd C,
                 [VD 16 6000; VD 32 3000] !! length (SizeIds pl) = Some vd
                 /\ scaledCountIs percent70Options 10000 10000 (vd, C)
                 /\ isProfitable percent70Options C (RemainCount pl) = Ret false)).
Proof.
  split.
  - assert (exists pl,
               planLoop (exampleOptions true true) 10000 10000
                 [VD 1 5000; VD 2 2500; VD 3 1250; VD 4 1000; VD 5 250]
                 (initPlan 10000 10000) = Ret pl /\ Version pl = 4) as (pl & E & E4).
    { eexists. split; [vm_compute; reflexivity | reflexivity]. }
    exists pl. split; [exact E |]. split; [exact E4 |].
    assert (HM : 0 < MemOPMaxVersion (exampleOptions true true) < UINT32_MAX)
      by (unfold UINT32_MAX; simpl; lia).
    destruct (X_version_cap (exampleOptions true true) 10000 10000
                [VD 1 5000; VD 2 2500; VD 3 1250; VD 4 1000; VD 5 250] pl HM E)
      as (H1 & H2 & _).
    exact (conj H1 H2).
  - assert (exists pl,
               planLoop percent70Options 10000 10000
                 [VD 16 6000; VD 32 3000; VD 9 1000] (initPlan 10000 10000) = Ret pl
               /\ Version pl = 0) as (pl & E & E0).
    { eexists. split; [vm_compute; reflexivity | reflexivity]. }
    exists pl. split; [exact E |]. split; [exact E0 |].
    assert (HM : 0 < MemOPMaxVersion percent70Options < UINT32_MAX)
      by (unfold UINT32_MAX; simpl; lia).
    destruct (X_version_cap percent70Options 10000 10000
                [VD 16 6000; VD 32 3000; VD 9 1000] pl HM E)
      as (_ & _ & H3).
    apply H3. rewrite E0. simpl. lia.
Defined.

(** ** When no sample is filtered out *)

Lemma unskipped_all cfg VDs :
  Forall (fun vd => skipValue cfg (toInt64 (Value vd)) = false) VDs ->
  unskipped cfg VDs = VDs.
Proof.
  unfold unskipped. induction 1 as [| vd l Hvd _ IH]; [done |].
  rewrite filter_cons, decide_True by done. by rewrite IH.
Qed.

(** X4: when the value-kind filter rejects none of
    the samples and there are fewer than 2^32 of them, a plan with version
    counter [n] selects exactly the first [n] samples, pairs them with one
    count each, and its saved remaining count is the raw total minus the raw
    counts of those [n] samples (modulo 2^64); so the [n] entries that
    [slice(Version)] drops are the promoted ones and the entries it keeps were
    never selected. *)
Theorem X_unfiltered_plan_is_prefix (cfg : Options) (A D : Z)
    (VDs : list InstrProfValueData) (pl : PlanState) :
  is_u64 D ->
  Forall (fun vd => skipValue cfg (toInt64 (Value vd)) = false) VDs ->
  Z.of_nat (length VDs) <= UINT32_MAX ->
  planLoop cfg A D VDs (initPlan A D) = Ret pl ->
  let n := Z.to_nat (Version pl) in
  (n <= length VDs)%nat
  /\ SizeIds pl = sizeOf <$> take n VDs
  /\ length (tail (CaseCounts pl)) = n
  /\ SavedRemainCount pl = wrap64 (D - sumCounts (take n VDs)).
Proof.
  intros HD HF Hlen H. apply planLoop_accepts in H as (acc & Hpre & _ & ->).
  rewrite (unskipped_all _ _ HF) in Hpre.
  destruct (acceptAll_lists (initPlan A D) acc) as [HS HC].
  destruct (acceptAll_counters (initPlan A D) acc) as (HV & _ & HR).
  assert (Hacc : (length acc <= length VDs)%nat).
  { apply prefix_length in Hpre. by rewrite length_fmap in Hpre. }
  assert (Version (acceptAll (initPlan A D) acc) = Z.of_nat (length acc)) as HVn.
  { rewrite HV. destruct acc; [done |]. simpl. apply wrap32_small. simpl in Hacc. lia. }
  rewrite HVn, Nat2Z.id, HS, HC, HR. simpl.
  assert (acc.*1 = take (length acc) VDs) as Htake.
  { rewrite <- (length_fmap fst). by apply prefix_take. }
  split; [done |]. split; [by rewrite <- Htake |]. split; [by rewrite length_fmap |].
  rewrite <- Htake. destruct acc; simpl; [| done].
  rewrite Z.sub_0_r. by rewrite wrap64_small.
Qed.

Lemma X_unfiltered_plan_is_prefix_witness :
  exists pl,
    planLoop (exampleOptions false true) 10000 10000
      [VD 4 6000; VD 8 3000; VD 2 500] (initPlan 10000 10000) = Ret pl
    /\ SizeIds pl = sizeOf <$> take (Z.to_nat (Version pl)) [VD 4 6000; VD 8 3000; VD 2 500]
    /\ SavedRemainCount pl
       = wrap64 (10000 - sumCounts (take (Z.to_nat (Version pl))
                                      [VD 4 6000; VD 8 3000; VD 2 500])).
Proof.
  assert (exists pl,
             planLoop (exampleOptions false true) 10000 10000
               [VD 4 6000; VD 8 3000; VD 2 500] (initPlan 10000 10000) = Ret pl)
    as (pl & E).
  { eexists. vm_compute. reflexivity. }
  exists pl. split; [exact E |].
  destruct (X_unfiltered_plan_is_prefix (exampleOptions false true) 10000 10000
              [VD 4 6000; VD 8 3000; VD 2 500] pl) as (_ & H1 & _ & H2).
  - unfold is_u64, UINT64_MAX. lia.
  - repeat constructor.
  - unfold UINT32_MAX. simpl. lia.
  - exact E.
  - split; [exact H1 | exact H2].
Defined.

(** ** The maximum count *)




(** ** The count threshold bounds the number of versions *)

Lemma sumZ_lower_bound t l :
  Forall (fun c => t <= c) l -> t * Z.of_nat (length l) <= sumZ l.
Proof. induction 1 as [| c l Hc _ IH]; simpl; lia. Qed.

(** X6: when the raw counts of the samples sum to
    at most the raw total, every selected count is at least the count
    threshold and the selected counts sum to at most the total planned
    against, so the number of selected sizes times the count threshold is at
    most that total. *)
Theorem X_versions_bounded_by_total (cfg : Options) (A D : Z)
    (VDs : list InstrProfValueData) :
  is_u64 A ->
  0 < D <= UINT64_MAX ->
  (MemOPScaleCount cfg = false -> A = D) ->
  Forall (fun vd => 0 <= Count vd) VDs ->
  sumCounts VDs <= D ->
  exists pl,
    planLoop cfg A D VDs (initPlan A D) = Ret pl
    /\ MemOPCountThreshold cfg * Z.of_nat (length (SizeIds pl)) <= A - RemainCount pl
    /\ A - RemainCount pl <= A.
Proof.
  intros HA HD Hscale HF Hsum.
  destruct (planLoop_inv cfg A D HA HD Hscale VDs (initPlan A D) HF
              (planInv_init A D HA HD VDs Hsum)) as (pl & E & _ & Inv).
  exists pl. split; [exact E |].
  destruct (planLoop_counts cfg A D VDs pl E) as (HL & Hthr).
  destruct Inv as [I1 _ _ _ I5 _ _].
  destruct (CaseCounts pl) as [| c0 cs]; [done |]. simpl in *.
  injection HL as HL. pose proof (sumZ_lower_bound _ _ Hthr) as Hb.
  rewrite HL in Hb. lia.
Qed.

Lemma X_versions_bounded_by_total_witness :
  exists pl,
    planLoop (exampleOptions true true) 20000 10000
      [VD 8 6000; VD 4 3000; VD 9 1000] (initPlan 20000 10000) = Ret pl
    /\ 1000 * Z.of_nat (length (SizeIds pl)) <= 20000 - RemainCount pl
    /\ 20000 - RemainCount pl <= 20000.
Proof.
  apply (X_versions_bounded_by_total (exampleOptions true true) 20000 10000
           [VD 8 6000; VD 4 3000; VD 9 1000]).
  - unfold is_u64, UINT64_MAX. lia.
  - unfold UINT64_MAX. lia.
  - discriminate.
  - repeat constructor; simpl; lia.
  - simpl. lia.
Defined.

(** ** A run that reports no change made none *)

Lemma performInfo_None cfg st MO st' :
  performInfo cfg st MO = Ret (None, st') -> st' = st.
Proof.
  unfold performInfo. intros H.
  destruct (Instrs (Func st) !! MO) as [inst |];
    [| unfold failed in H; destruct (NDEBUG cfg); discriminate].
  destruct (MemOp.isMemmove inst); [by injection H |].
  destruct (_ && _); [by injection H |].
  destruct (getValueProfDataFromInst _ _ _) as [[VDs T] |]; [| by injection H].
  destruct (if MemOPScaleCount cfg then _ else _) as [[a |] | |];
    try discriminate; [| by injection H].
  destruct (a <? MemOPCountThreshold cfg); [by injection H |].
  destruct (T =? 0); [by injection H |].
  apply bind_Ret in H as (pl & _ & H).
  destruct (Version pl =? 0); [by injection H |].
  apply bind_Ret in H as (r & _ & H). discriminate.
Qed.

Lemma perform_false cfg st MO st' :
  perform cfg st MO = Ret (false, st') -> st' = st.
Proof.
  unfold perform. intros H. apply bind_Ret in H as ([[info |] s] & Hi & H); simpl in H.
  - discriminate.
  - injection H as <-. by apply performInfo_None in Hi.
Qed.

Lemma perform_true cfg st MO st' :
  perform cfg st MO = Ret (true, st') ->
  exists info, performInfo cfg st MO = Ret (Some info, st').
Proof.
  unfold perform. intros H. apply bind_Ret in H as ([[info |] s] & Hi & H); simpl in H.
  - injection H as <-. eauto.
  - discriminate.
Qed.

Lemma performWorkList_stats cfg w r r' :
  performWorkList cfg w r = Ret r' ->
  NumOfPGOMemOPAnnotate r' = NumOfPGOMemOPAnnotate r + Z.of_nat (length w)
  /\ NumOfPGOMemOPOpt r <= NumOfPGOMemOPOpt r' <= NumOfPGOMemOPOpt r + Z.of_nat (length w)
  /\ (Changed r' = false ->
      Changed r = false /\ Final r' = Final r /\ NumOfPGOMemOPOpt r' = NumOfPGOMemOPOpt r)
  /\ (Changed r' = true -> Changed r = true \/ NumOfPGOMemOPOpt r < NumOfPGOMemOPOpt r').
Proof.
  revert r. induction w as [| MO w IH]; intros r H; simpl in H.
  { injection H as <-. simpl. repeat split; try lia; auto. }
  apply bind_Ret in H as ([b s] & Hp & H). simpl in H.
  apply IH in H as (HA & HO & HF & HT). simpl in *.
  split; [lia |]. destruct b.
  - split; [lia |]. split.
    + intros Hc. by destruct (HF Hc).
    + intros _. right. lia.
  - apply perform_false in Hp as ->.
    split; [lia |]. split; [done |]. intros Hc. destruct (HT Hc); [by left | right; lia].
Qed.

(** X7: the pass does nothing and reports no
    change when it is disabled or the function is optimised for size;
    whenever it reports no change, the function, the frequencies and the
    remarks are as they were; and the driver counts every member of the
    worklist as annotated, counts at most that many as optimised, and sets
    [Changed] exactly when it counted an optimised one. *)
Theorem X_pass_reports_change_faithfully (cfg : Options) (st : State) :
  (DisableMemOPOPT cfg = true \/ OptimizeForSize (Func st) = true ->
   PGOMemOPSizeOptImpl cfg st = Ret (false, st))
  /\ (forall st', PGOMemOPSizeOptImpl cfg st = Ret (false, st') -> st' = st)
  /\ (forall w r,
        visit (Func st) = Ret w ->
        performAll cfg st = Ret r ->
        NumOfPGOMemOPAnnotate r = Z.of_nat (length w)
        /\ 0 <= NumOfPGOMemOPOpt r <= NumOfPGOMemOPAnnotate r
        /\ (Changed r = true <-> 0 < NumOfPGOMemOPOpt r)).
Proof.
  split; [| split].
  - unfold PGOMemOPSizeOptImpl. intros [-> | ->]; [done |].
    by destruct (DisableMemOPOPT cfg).
  - unfold PGOMemOPSizeOptImpl, performAll. intros st' H.
    destruct (DisableMemOPOPT cfg); [by injection H |].
    destruct (OptimizeForSize (Func st)); [by injection H |].
    apply bind_Ret in H as (r & Hr & H). injection H as Hc <-.
    apply bind_Ret in Hr as (w & _ & Hr).
    apply performWorkList_stats in Hr as (_ & _ & HF & _).
    by destruct (HF Hc) as (_ & -> & _).
  - intros w r Hv H. unfold performAll in H. rewrite Hv in H. simpl in H.
    apply performWorkList_stats in H as (HA & HO & HF & HT). simpl in *.
    split; [lia |]. split; [lia |]. split.
    + intros Hc. destruct (HT Hc); [discriminate | done].
    + intros Hpos. destruct (Changed r) eqn:Hc; [done |].
      destruct (HF eq_refl) as (_ & _ & ?). lia.
Qed.

Lemma X_pass_reports_change_faithfully_witness :
  PGOMemOPSizeOptImpl noCmpOptions cmpState = Ret (false, cmpState)
  /\ cmpState = cmpState
  /\ exists r,
       performAll (exampleOptions false true) cmpState = Ret r
       /\ NumOfPGOMemOPAnnotate r = 1 /\ (Changed r = true <-> 0 < NumOfPGOMemOPOpt r).
Proof.
  assert (E : PGOMemOPSizeOptImpl noCmpOptions cmpState = Ret (false, cmpState))
    by (vm_compute; reflexivity).
  split; [exact E |]. split.
  - exact (proj1 (proj2 (X_pass_reports_change_faithfully noCmpOptions cmpState))
             cmpState E).
  - assert (exists r, performAll (exampleOptions false true) cmpState = Ret r) as [r Hr].
    { eexists. vm_compute. reflexivity. }
    exists r. split; [exact Hr |].
    destruct (proj2 (proj2 (X_pass_reports_change_faithfully
                              (exampleOptions false true) cmpState))
                [1%nat] r eq_refl Hr) as (HA & _ & HC).
    split; [exact HA | exact HC].
Defined.

(** ** The worklist *)

Lemma visitInstruction_cases F w I w' :
  visitInstruction F w I = Ret w' ->
  w' = if candidateId F I then w ++ [I] else w.
Proof.
  unfold visitInstruction, getInst, candidateId. intros H.
  destruct (Instrs F !! I) as [inst |] eqn:HI; [| discriminate]. simpl in H.
  unfold isCandidate.
  destruct (Body inst) as [ID Args | [Func |] Args | | | |] eqn:HB;
    try (by injection H as <-).
  - unfold visitMemIntrinsic, MemOp.getLength, MemOp.asCI in H. rewrite HB in H.
    simpl in H. destruct (Args !! 2%nat) as [v |]; [| discriminate]. simpl in H.
    by destruct (isConstantInt v); injection H as <-.
  - unfold visitCallInst, MemOp.getLibFunc, MemOp.getLength, MemOp.asCI in H.
    rewrite HB in H.
    destruct (bool_decide (Func = LibFunc_memcmp) || bool_decide (Func = LibFunc_bcmp));
      simpl in *.
    + destruct (Args !! 2%nat) as [v |]; [| discriminate]. simpl in H.
      by destruct (isConstantInt v); injection H as <-.
    + by injection H as <-.
  - unfold visitCallInst, MemOp.getLibFunc in H. rewrite HB in H.
    by injection H as <-.
Qed.

Lemma visitInstruction_spec F w I w' :
  visitInstruction F w I = Ret w' ->
  w' = w ++ filter (fun i => candidateId F i = true) [I].
Proof.
  intros H. apply visitInstruction_cases in H as ->.
  rewrite filter_cons, filter_nil.
  destruct (candidateId F I).
  - by rewrite decide_True.
  - rewrite decide_False by done. by rewrite app_nil_r.
Qed.

Lemma visitInsts_spec F l w w' :
  visitInsts F w l = Ret w' -> w' = w ++ filter (fun i => candidateId F i = true) l.
Proof.
  revert w. induction l as [| I l IH]; intros w H; simpl in H.
  { injection H as <-. by rewrite filter_nil, app_nil_r. }
  apply bind_Ret in H as (w1 & H1 & H).
  apply visitInstruction_spec in H1 as ->. apply IH in H as ->.
  rewrite <- app_assoc. f_equal. by rewrite <- filter_app.
Qed.

Lemma visitBlocks_spec F l w w' :
  visitBlocks F w l = Ret w' ->
  w' = w ++ filter (fun i => candidateId F i = true)
              (B ← l; default [] (Insts <$> Blocks F !! B)).
Proof.
  revert w. induction l as [| B l IH]; intros w H; simpl in H.
  { injection H as <-. by rewrite app_nil_r. }
  apply bind_Ret in H as (bb & Hbb & H). apply bind_Ret in H as (w1 & H1 & H).
  unfold getBlock in Hbb. destruct (Blocks F !! B) as [b |] eqn:E; [| discriminate].
  injection Hbb as ->.
  apply visitInsts_spec in H1 as ->. apply IH in H as ->.
  rewrite bind_cons, E. simpl. rewrite filter_app, app_assoc. done.
Qed.

Lemma visitInstruction_total F w I inst :
  Instrs F !! I = Some inst ->
  ((MemOp.asMI inst <> None \/ isCmp inst = true) -> exists v, MemOp.getLength inst = Ret v) ->
  exists w', visitInstruction F w I = Ret w'.
Proof.
  intros HI Hlen. unfold visitInstruction, getInst. rewrite HI. simpl.
  destruct (Body inst) as [ID Args | [Func |] Args | | | |] eqn:HB; eauto.
  - destruct Hlen as [v Hv]; [left; unfold MemOp.asMI; by rewrite HB |].
    unfold visitMemIntrinsic. rewrite Hv. simpl. destruct (isConstantInt v); eauto.
  - unfold visitCallInst, MemOp.getLibFunc. rewrite HB.
    destruct (bool_decide (Func = LibFunc_memcmp) || bool_decide (Func = LibFunc_bcmp))
      eqn:Hc; eauto.
    destruct Hlen as [v Hv].
    { right. unfold isCmp, MemOp.isMemcmp, MemOp.isBcmp, MemOp.asMI, MemOp.getLibFunc.
      rewrite HB. apply orb_true_iff in Hc as [Hc | Hc]; apply bool_decide_eq_true in Hc;
        subst; reflexivity. }
    rewrite Hv. simpl. destruct (isConstantInt v); eauto.
  - unfold visitCallInst, MemOp.getLibFunc. rewrite HB. eauto.
Qed.

Lemma visitInsts_total F l w :
  (forall I, I ∈ l ->
     exists inst, Instrs F !! I = Some inst
       /\ ((MemOp.asMI inst <> None \/ isCmp inst = true) ->
           exists v, MemOp.getLength inst = Ret v)) ->
  exists w', visitInsts F w l = Ret w'.
Proof.
  revert w. induction l as [| I l IH]; intros w H; simpl; [eauto |].
  destruct (H I) as (inst & HI & Hlen); [by apply elem_of_cons; left |].
  destruct (visitInstruction_total F w I inst HI Hlen) as [w1 ->]. simpl.
  apply IH. intros J HJ. apply H. by apply elem_of_cons; right.
Qed.

Lemma visitBlocks_total F l w :
  (forall B, B ∈ l ->
     exists bb, Blocks F !! B = Some bb
       /\ forall I, I ∈ Insts bb ->
            exists inst, Instrs F !! I = Some inst
              /\ ((MemOp.asMI inst <> None \/ isCmp inst = true) ->
                  exists v, MemOp.getLength inst = Ret v)) ->
  exists w', visitBlocks F w l = Ret w'.
Proof.
  revert w. induction l as [| B l IH]; intros w H; simpl; [eauto |].
  destruct (H B) as (bb & Hbb & Hi); [by apply elem_of_cons; left |].
  unfold getBlock. rewrite Hbb. simpl.
  destruct (visitInsts_total F (Insts bb) w Hi) as [w1 ->]. simpl.
  apply IH. intros J HJ. apply H. by apply elem_of_cons; right.
Qed.

(** X8: on a function whose blocks and
    instructions all exist and whose memory operations have a length operand,
    the collector returns, and its worklist is exactly the instructions, in
    the order of the blocks and of the instructions in them, that are memory
    intrinsics or [memcmp]/[bcmp] calls with a length that is not a constant:
    a call site with a constant length is never in the worklist, and no
    other candidate is left out. *)
Theorem X_worklist_is_the_candidates (F : Function) :
  visitable F ->
  exists w,
    visit F = Ret w
    /\ w = filter (fun I => candidateId F I = true) (instructionsInOrder F)
    /\ (forall I, I ∈ w <-> I ∈ instructionsInOrder F
                            /\ exists inst, Instrs F !! I = Some inst
                                            /\ isCandidate inst = true).
Proof.
  intros HF. destruct (visitBlocks_total F (Layout F) [] HF) as [w Hw].
  exists w. split; [exact Hw |].
  apply visitBlocks_spec in Hw. simpl in Hw. fold (instructionsInOrder F) in Hw.
  split; [exact Hw |].
  intros I. rewrite Hw, list_elem_of_filter. unfold candidateId.
  split.
  - intros [Hc Hin]. split; [done |].
    destruct (Instrs F !! I) as [inst |]; [eauto | discriminate].
  - intros [Hin (inst & HI & Hc)]. by rewrite HI.
Qed.

Lemma X_worklist_is_the_candidates_witness :
  exists w,
    visit (Func cmpState) = Ret w
    /\ w = filter (fun I => candidateId (Func cmpState) I = true)
             (instructionsInOrder (Func cmpState))
    /\ w = [1%nat].
Proof.
  destruct (X_worklist_is_the_candidates (Func cmpState)) as (w & Hv & Hw & _).
  - intros B HB. apply list_elem_of_singleton in HB as ->.
    eexists. split; [reflexivity |]. simpl. intros I HI.
    repeat (apply elem_of_cons in HI as [-> | HI]);
      try (eexists; split; [reflexivity |]; intros _; eexists; reflexivity).
    + eexists. split; [reflexivity |]. intros [H | H]; [by destruct H | discriminate].
    + eexists. split; [reflexivity |]. intros [H | H]; [by destruct H | discriminate].
    + eexists. split; [reflexivity |]. intros [H | H]; [by destruct H | discriminate].
    + by apply elem_of_nil in HI.
  - exists w. split; [exact Hv |]. split; [exact Hw |].
    rewrite Hw. reflexivity.
Defined.

(** ** What a rewrite leaves in place *)

Lemma siteKept_refl i : siteKept i i.
Proof. by repeat split. Qed.

Lemma siteKept_trans i1 i2 i3 : siteKept i1 i2 -> siteKept i2 i3 -> siteKept i1 i3.
Proof. intros (? & ? & ?) (? & ? & ?). repeat split; congruence. Qed.

Lemma isCandidate_Body i i' : Body i' = Body i -> isCandidate i' = isCandidate i.
Proof. unfold isCandidate. by intros ->. Qed.

Lemma siteKept_Body i i' : Body i' = Body i -> InstTy i' = InstTy i -> siteKept i i'.
Proof. intros HB HT. repeat split; [by rewrite HB | done | by apply isCandidate_Body]. Qed.

Lemma siteKept_keepsShape f i : keepsShape f -> siteKept i (f i).
Proof. intros Hf. destruct (Hf i) as (? & _ & ?). by apply siteKept_Body. Qed.

Lemma siteKept_replaceIncomingBlock Old New i : siteKept i (replaceIncomingBlock Old New i).
Proof.
  unfold replaceIncomingBlock, siteKept, isCandidate.
  destruct (Body i) eqn:E; simpl; rewrite ?E; done.
Qed.

Lemma isConstantInt_replaceUse a b v :
  isConstantInt (replaceUse (InstVal a) (InstVal b) v) = isConstantInt v.
Proof. unfold replaceUse. destruct (decide _) as [-> |]; done. Qed.

Lemma siteKept_replaceUses a b i :
  siteKept i (setBody (replaceUsesInBody (InstVal a) (InstVal b) (Body i)) i).
Proof.
  unfold siteKept, isCandidate. simpl.
  destruct (Body i) as [ID Args | Callee Args | | | |]; simpl; try done.
  - rewrite list_lookup_fmap. destruct (Args !! 2%nat); simpl; [| done].
    by rewrite isConstantInt_replaceUse.
  - rewrite list_lookup_fmap. destruct Callee; [| done].
    destruct (Args !! 2%nat); simpl; [| done].
    by rewrite isConstantInt_replaceUse.
Qed.

Lemma siteKept_addCase k cb i : siteKept i (addCase k cb i).
Proof.
  unfold addCase, siteKept, isCandidate. destruct (Body i) eqn:E; simpl; rewrite ?E; done.
Qed.

Lemma siteKept_addIncoming v bb i : siteKept i (addIncoming v bb i).
Proof.
  unfold addIncoming, siteKept, isCandidate.
  destruct (Body i) eqn:E; simpl; rewrite ?E; done.
Qed.

Lemma Prof_addCase k cb i : Prof (addCase k cb i) = Prof i.
Proof. unfold addCase. by destruct (Body i). Qed.

Lemma Prof_addIncoming v bb i : Prof (addIncoming v bb i) = Prof i.
Proof. unfold addIncoming. by destruct (Body i). Qed.

Lemma Prof_replaceIncomingBlock Old New i : Prof (replaceIncomingBlock Old New i) = Prof i.
Proof. unfold replaceIncomingBlock. by destruct (Body i). Qed.

Lemma keptFrom_refl MO F : keptFrom MO F F.
Proof. intros j i H. exists i. split; [done |]. split; [apply siteKept_refl | done]. Qed.

Lemma keptFrom_trans MO F G H : keptFrom MO F G -> keptFrom MO G H -> keptFrom MO F H.
Proof.
  intros H1 H2 j i Hj.
  destruct (H1 _ _ Hj) as (i1 & Hj1 & Hs1 & Hp1).
  destruct (H2 _ _ Hj1) as (i2 & Hj2 & Hs2 & Hp2).
  exists i2. split; [done |]. split; [by eapply siteKept_trans |].
  intros Hne. by rewrite Hp2, Hp1.
Qed.

Lemma keptFrom_ext MO F G G' : Instrs G = Instrs G' -> keptFrom MO F G -> keptFrom MO F G'.
Proof. unfold keptFrom. by intros ->. Qed.

Lemma keptFrom_updateInst MO F I f :
  (forall i, siteKept i (f i)) ->
  (I <> MO -> forall i, Prof (f i) = Prof i) ->
  keptFrom MO F (updateInst F I f).
Proof.
  intros Hs Hp j i Hj. unfold updateInst. simpl.
  destruct (decide (I = j)) as [-> | Hne].
  - exists (f i). rewrite lookup_alter_eq, Hj. split; [done |]. split; [apply Hs |].
    intros Hne. by apply Hp.
  - exists i. rewrite lookup_alter_ne by done. split; [done |].
    split; [apply siteKept_refl | done].
Qed.

Lemma lookup_foldr_setParent_kept (m : gmap nat Instruction) p l j i :
  m !! j = Some i ->
  exists i', foldr (fun x m => alter (setParent p) x m) m l !! j = Some i'
             /\ Body i' = Body i /\ InstTy i' = InstTy i /\ Prof i' = Prof i.
Proof.
  intros Hj. induction l as [| x l (i' & IH & E1 & E2 & E3)]; simpl; [eauto |].
  destruct (decide (x = j)) as [-> | Hne].
  - exists (setParent p i'). by rewrite lookup_alter_eq, IH.
  - exists i'. by rewrite lookup_alter_ne.
Qed.

Lemma keptFrom_SplitBlock MO F Old I F' New :
  SplitBlock F Old I = Ret (F', New) -> keptFrom MO F F'.
Proof.
  intros H. apply SplitBlock_Ret in H as (bb & before & after & _ & _ & _ & _ & HI).
  intros j i Hj. rewrite HI.
  assert (j <> fresh (dom (Instrs F))).
  { intros ->. apply (is_fresh (dom (Instrs F))). by apply elem_of_dom. }
  rewrite lookup_insert_ne by done.
  destruct (lookup_foldr_setParent_kept (replaceIncomingBlock Old New <$> Instrs F) (Some New)
              after j (replaceIncomingBlock Old New i)) as (i' & Hi' & EB & ET & EP).
  { by rewrite lookup_fmap, Hj. }
  exists i'. split; [done |]. split.
  - eapply siteKept_trans; [apply (siteKept_replaceIncomingBlock Old New) |].
    by apply siteKept_Body.
  - intros _. rewrite EP. apply Prof_replaceIncomingBlock.
Qed.

Lemma keptFrom_fresh MO F B i :
  keptFrom MO F (appendInst F B (fresh (dom (Instrs F))) i).
Proof.
  intros j i0 Hj. unfold appendInst. simpl.
  assert (j <> fresh (dom (Instrs F))).
  { intros ->. apply (is_fresh (dom (Instrs F))). by apply elem_of_dom. }
  exists i0. rewrite lookup_insert_ne by done.
  split; [done |]. split; [apply siteKept_refl | done].
Qed.

Lemma keptFrom_createPHI MO' F MO ty D M F' P :
  createPHI F MO ty D M = Ret (F', P) -> keptFrom MO' F F'.
Proof.
  unfold createPHI, getBlock. intros H j i Hj.
  destruct (Blocks F !! M) as [mb |]; [| discriminate]. simpl in H.
  destruct (insertBeforeFirstNonPHI _ _ _) as [insts |]; [| discriminate].
  injection H as <- <-.
  assert (j <> fresh (dom (Instrs F))).
  { intros ->. apply (is_fresh (dom (Instrs F))). by apply elem_of_dom. }
  unfold updateInst, replaceAllUsesWith. simpl.
  rewrite lookup_alter_ne, lookup_fmap, lookup_insert_ne, Hj by done. simpl.
  eexists. split; [reflexivity |]. split; [apply siteKept_replaceUses | done].
Qed.

Lemma kept_alter (m : gmap nat Instruction) f I j i :
  (forall x, siteKept x (f x) /\ Prof (f x) = Prof x) ->
  m !! j = Some i ->
  exists i', alter f I m !! j = Some i' /\ siteKept i i' /\ Prof i' = Prof i.
Proof.
  intros Hf Hj. destruct (decide (I = j)) as [-> | Hne].
  - exists (f i). rewrite lookup_alter_eq, Hj. split; [done | apply Hf].
  - exists i. rewrite lookup_alter_ne by done. split; [done |].
    split; [apply siteKept_refl | done].
Qed.

Lemma keptFrom_createCase MO' cfg MO D M SI PHI F SizeId F' cb c :
  createCase cfg MO D M SI PHI F SizeId = Ret (F', (cb, c)) -> keptFrom MO' F F'.
Proof.
  intros H j i Hj.
  apply createCase_Ret in H
    as (orig & k & br & brI & HMO & -> & -> & Hcbr & Hbr & _ & _ & _ & HI).
  assert (j ∈ dom (Instrs F)) as Hd by (by apply elem_of_dom).
  assert (br <> j) by (intros ->; done).
  assert (fresh (dom (Instrs F)) <> j).
  { intros E. apply (is_fresh (dom (Instrs F))). by rewrite E. }
  assert (<[br := brI]>
            (<[fresh (dom (Instrs F)) :=
                 setParent (Some (fresh (dom (Blocks F))))
                   (MemOp.setLength k (MemOp.clone orig))]> (Instrs F)) !! j = Some i) as Hj0.
  { by rewrite !lookup_insert_ne. }
  assert (forall x, siteKept x (addCase k (fresh (dom (Blocks F))) x)
                    /\ Prof (addCase k (fresh (dom (Blocks F))) x) = Prof x) as Hc.
  { intros x. split; [apply siteKept_addCase | apply Prof_addCase]. }
  destruct (kept_alter _ _ SI j i Hc Hj0) as (i1 & Hj1 & Hs1 & Hp1).
  rewrite HI. destruct PHI as [P |].
  - assert (forall x, siteKept x (addIncoming (InstVal (fresh (dom (Instrs F))))
                                    (fresh (dom (Blocks F))) x)
                      /\ Prof (addIncoming (InstVal (fresh (dom (Instrs F))))
                                 (fresh (dom (Blocks F))) x) = Prof x) as Ha.
    { intros x. split; [apply siteKept_addIncoming | apply Prof_addIncoming]. }
    destruct (kept_alter _ _ P j i1 Ha Hj1) as (i2 & Hj2 & Hs2 & Hp2).
    exists i2. split; [done |]. split; [by eapply siteKept_trans | congruence].
  - exists i1. split; [done |]. split; [done | congruence].
Qed.

Lemma keptFrom_createCases MO' cfg MO D M SI PHI SizeIds F F' cs :
  createCases cfg MO D M SI PHI SizeIds F = Ret (F', cs) -> keptFrom MO' F F'.
Proof.
  revert F F' cs. induction SizeIds as [| SizeId rest IH]; intros F F' cs H; simpl in H.
  - injection H as <- <-. apply keptFrom_refl.
  - apply bind_Ret in H as ([F1 [cb c]] & H1 & H). simpl in H.
    apply bind_Ret in H as ([F2 cs'] & H2 & H). simpl in H.
    injection H as <- <-.
    eapply keptFrom_trans; [by eapply keptFrom_createCase | by eapply IH].
Qed.

(** The case blocks leave an instruction that is neither the switch nor the
    phi node as it is. *)
Lemma createCases_lookup cfg MO D M SI PHI SizeIds F F' cs j i :
  createCases cfg MO D M SI PHI SizeIds F = Ret (F', cs) ->
  Instrs F !! j = Some i -> j <> SI -> PHI <> Some j ->
  Instrs F' !! j = Some i.
Proof.
  revert F F' cs. induction SizeIds as [| SizeId rest IH]; intros F F' cs H Hj HSI HP;
    simpl in H.
  - by injection H as <- <-.
  - apply bind_Ret in H as ([F1 [cb c]] & H1 & H). simpl in H.
    apply bind_Ret in H as ([F2 cs'] & H2 & H). simpl in H.
    injection H as <- <-.
    eapply IH; [exact H2 | | done | done].
    apply createCase_Ret in H1
      as (orig & k & br & brI & HMO & -> & -> & Hcbr & Hbr & _ & _ & _ & HI).
    assert (j ∈ dom (Instrs F)) as Hd by (by apply elem_of_dom).
    assert (br <> j) by (intros ->; done).
    assert (fresh (dom (Instrs F)) <> j).
    { intros E. apply (is_fresh (dom (Instrs F))). by rewrite E. }
    rewrite HI. destruct PHI as [P |].
    + assert (P <> j) by congruence.
      by rewrite !lookup_alter_ne, !lookup_insert_ne.
    + by rewrite !lookup_alter_ne, !lookup_insert_ne.
Qed.

(** The merge block takes the frequency of the block of the call, and with it
    its execution count; the counts of the other blocks are as before.  A
    second candidate that the split moved into the merge block is therefore
    planned against the same block count. *)
Lemma merge_block_profile_count cfg st st' MO info :
  performInfo cfg st MO = Ret (Some info, st') ->
  getBlockProfileCount (BFI st') (MergeBB info)
  = getBlockProfileCount (BFI st) (HeadBB info)
  /\ (forall B, B <> MergeBB info ->
        getBlockProfileCount (BFI st') B = getBlockProfileCount (BFI st) B).
Proof.
  intros H.
  apply performInfo_Some in H as (inst & VDs & T & a & pl & _ & _ & _ & _ & _ & H).
  apply rewrite_Ret in H as (F1 & F2 & Fsw & Fph & Fmd & Fcs & _ & Horig & Hbfi & _).
  rewrite Hbfi, Horig. unfold getBlockProfileCount, getBlockFreq, setBlockFreq. simpl.
  split; [by rewrite lookup_insert_eq |].
  intros B HB. by rewrite lookup_insert_ne.
Qed.

Lemma getName_opcode i i' :
  opcode (Body i') = opcode (Body i) -> MemOp.getName i' = MemOp.getName i.
Proof.
  unfold MemOp.getName, MemOp.asMI, MemOp.getLibFunc.
  destruct (Body i), (Body i'); simpl; intros [=]; subst; done.
Qed.

Lemma take_all_drop {A} (l : list A) k :
  take (Z.to_nat (Z.of_nat (length l))) (drop k l) = drop k l.
Proof. rewrite Nat2Z.id. apply take_ge. rewrite length_drop. lia. Qed.

(** What a successful rewrite does to the instructions that were there, to
    the call, and to the remarks. *)
Lemma rewrite_frame cfg st MO inst VDs pl CC MC Sum Tot info st' :
  rewrite cfg st MO inst VDs pl CC MC Sum Tot = Ret (info, st') ->
  Instrs (Func st) !! MO = Some inst ->
  keptFrom MO (Func st) (Func st')
  /\ (Switch info ∉ dom (Instrs (Func st)))
  /\ (exists fin, Instrs (Func st') !! MO = Some fin
                  /\ siteKept inst fin /\ Prof fin = residualProfile VDs pl)
  /\ RemarksEnabled st' = RemarksEnabled st
  /\ (if RemarksEnabled st
      then exists n, MemOp.getName inst = Some n
                     /\ ORE st' = ORE st ++ [{| RemarkMemop := n; RemarkCount := Sum;
                                                RemarkTotal := Tot;
                                                RemarkVersions := Version pl |}]
      else ORE st' = ORE st).
Proof.
  unfold rewrite. intros H HMO.
  destruct (Parent inst) as [BB |] eqn:HP; [| discriminate].
  apply bind_Ret in H as ([F1 DefaultBB] & Hs1 & H). simpl in H.
  apply bind_Ret in H as (db & Hdb & H).
  destruct (Insts db) as [| x [| It rest]];
    try (unfold failed in H; destruct (NDEBUG cfg); discriminate).
  apply bind_Ret in H as ([F2 MergeBB] & Hs2 & H). simpl in H.
  destruct (getTerminator _ BB) as [T |] eqn:HT; [| discriminate].
  apply bind_Ret in H as (cur & Hcur & H).
  apply bind_Ret in H as (SizeVar & Hlen & H).
  apply bind_Ret in H as ([Fph PHI] & Hph & H). simpl in H.
  apply bind_Ret in H as ([Fcs cs] & Hcs & H). simpl in H.
  apply bind_Ret in H as (remarks & Hrem & H).
  injection H as <- <-. simpl.
  set (Ferase := eraseFromParent _ T) in *.
  set (SI := fresh (dom (Instrs Ferase))) in *.
  set (Fsw := appendInst Ferase BB SI _) in *.
  set (Fmd := if _ || _ then _ else _) in *.
  pose proof (head_terminator _ _ _ _ _ _ _ _ _ _ _ Hs1 Hs2 HT) as ET.
  assert (keptFrom MO (Func st) Ferase) as Kerase.
  { intros j i Hj.
    destruct (keptFrom_trans MO _ _ _ (keptFrom_SplitBlock MO _ _ _ _ _ Hs1)
                (keptFrom_SplitBlock MO _ _ _ _ _ Hs2) j i Hj) as (i' & Hj' & E).
    exists i'. split; [| done].
    subst Ferase. rewrite Instrs_eraseFromParent, lookup_delete_ne; [done |].
    rewrite ET. intros <-. apply (is_fresh (dom (Instrs (Func st)))). by apply elem_of_dom. }
  assert (keptFrom MO (Func st) Fsw) as Ksw.
  { eapply keptFrom_trans; [exact Kerase | apply keptFrom_fresh]. }
  assert (SI ∉ dom (Instrs (Func st))) as HSI.
  { intros [i Hi]%elem_of_dom. destruct (Kerase _ _ Hi) as (i' & Hi' & _).
    apply (is_fresh (dom (Instrs Ferase))). by apply elem_of_dom. }
  assert (MO <> SI) as HMOSI.
  { intros <-. apply HSI. by apply elem_of_dom. }
  assert (keptFrom MO Fsw Fph /\ PHI <> Some MO) as [Kph HPMO].
  { destruct (bool_decide (InstTy inst = VoidTy)).
    - injection Hph as <- <-. split; [apply keptFrom_refl | done].
    - apply bind_Ret in Hph as ([Fp P] & Hc & Hph). simpl in Hph.
      injection Hph as <- <-. split; [by eapply keptFrom_createPHI |].
      destruct (Ksw _ _ HMO) as (i' & Hi' & _).
      destruct (createPHI_Ret _ _ _ _ _ _ _ Hc) as (Hne & _); [eauto |]. congruence. }
  destruct (keptFrom_trans _ _ _ _ Ksw Kph _ _ HMO) as (iph & Hiph & Ksite & _).
  assert (keptFrom MO Fph Fmd
          /\ exists imd, Instrs Fmd !! MO = Some imd
                         /\ siteKept inst imd /\ Prof imd = residualProfile VDs pl)
    as [Kmd (imd & Himd & Kimd & Pimd)].
  { subst Fmd. unfold residualProfile.
    destruct (_ || _).
    - split.
      + apply (keptFrom_trans MO Fph (updateInst Fph MO (setProf None)));
          (apply keptFrom_updateInst; [| done]).
        * intros i. apply siteKept_keepsShape, keepsShape_setProf.
        * intros i. apply siteKept_keepsShape. unfold annotateValueSite.
          apply keepsShape_setProf.
      + eexists. unfold updateInst. simpl. rewrite !lookup_alter_eq, Hiph. simpl.
        split; [reflexivity |]. split; [done |]. simpl. by rewrite take_all_drop.
    - split.
      + apply keptFrom_updateInst; [| done].
        intros i. apply siteKept_keepsShape, keepsShape_setProf.
      + eexists. unfold updateInst. simpl. rewrite lookup_alter_eq, Hiph. simpl.
        split; [reflexivity |]. done. }
  assert (Instrs Fcs !! MO = Some imd) as Hics.
  { eapply createCases_lookup; [exact Hcs | exact Himd | done | done]. }
  assert (Instrs (updateInst Fcs SI (setProfMetadata CC MC)) !! MO = Some imd) as Hfin.
  { unfold updateInst. simpl. by rewrite lookup_alter_ne. }
  split; [| split; [done | split; [eauto | split; [done |]]]].
  - intros j i Hj.
    destruct (keptFrom_trans _ _ _ _ Ksw
                (keptFrom_trans _ _ _ _ Kph
                   (keptFrom_trans _ _ _ _ Kmd (keptFrom_createCases MO _ _ _ _ _ _ _ _ _ _ Hcs)))
                j i Hj) as (i' & Hj' & E).
    exists i'. split; [| done]. unfold updateInst. simpl.
    rewrite lookup_alter_ne; [done |]. intros <-. apply HSI. by apply elem_of_dom.
  - destruct (RemarksEnabled st); [| by injection Hrem as <-].
    unfold getInst in Hrem. rewrite Hfin in Hrem. simpl in Hrem.
    destruct Kimd as (Hop & _). rewrite (getName_opcode _ _ Hop) in Hrem.
    destruct (MemOp.getName inst) as [n |];
      [| unfold failed in Hrem; destruct (NDEBUG cfg); discriminate].
    injection Hrem as <-. eauto.
Qed.

(** ** What a successful [perform] went through *)

Lemma performInfo_success cfg st MO info st' :
  performInfo cfg st MO = Ret (Some info, st') ->
  exists inst VDs T a pl,
    Instrs (Func st) !! MO = Some inst
    /\ MemOp.isMemmove inst = false
    /\ (MemOPOptMemcmpBcmp cfg = true \/ isCmp inst = false)
    /\ readProfile cfg inst = Some (VDs, T)
    /\ (if MemOPScaleCount cfg
        then exists BB, Parent inst = Some BB /\ getBlockProfileCount (BFI st) BB = Some a
        else a = T)
    /\ MemOPCountThreshold cfg <= a
    /\ T <> 0
    /\ planLoop cfg a T VDs (initPlan a T) = Ret pl
    /\ Version pl <> 0
    /\ rewrite cfg st MO inst VDs pl (<[0%nat := RemainCount pl]> (CaseCounts pl))
         (if RemainCount pl >? MaxCount pl then RemainCount pl else MaxCount pl)
         (wrap64 (a - RemainCount pl)) a
       = Ret (info, st').
Proof.
  unfold performInfo. intros H.
  destruct (Instrs (Func st) !! MO) as [inst |] eqn:HI;
    [| unfold failed in H; destruct (NDEBUG cfg); discriminate].
  destruct (MemOp.isMemmove inst) eqn:Hmv; [discriminate |].
  destruct (negb (MemOPOptMemcmpBcmp cfg) && _) eqn:Hcmp; [discriminate |].
  fold (readProfile cfg inst) in H.
  destruct (readProfile cfg inst) as [[VDs T] |] eqn:Hread; [| discriminate].
  destruct (if MemOPScaleCount cfg then _ else _) as [[a |] | |] eqn:Hact; try discriminate.
  destruct (Z.ltb_spec a (MemOPCountThreshold cfg)); [discriminate |].
  destruct (Z.eqb_spec T 0); [discriminate |].
  apply bind_Ret in H as (pl & Hpl & H).
  destruct (Z.eqb_spec (Version pl) 0); [discriminate |].
  apply bind_Ret in H as ([info' st''] & Hrw & H). simpl in H.
  injection H as <- <-.
  exists inst, VDs, T, a, pl. split; [done |]. split; [done |]. split.
  { unfold isCmp. destruct (MemOPOptMemcmpBcmp cfg); [by left | by right]. }
  split; [done |]. split; [| done].
  destruct (MemOPScaleCount cfg).
  - destruct (Parent inst) as [BB |]; [| discriminate]. injection Hact as Hact. eauto.
  - by injection Hact as <-.
Qed.

Lemma readProfile_length cfg inst VDs T :
  readProfile cfg inst = Some (VDs, T) ->
  (1 <= length VDs)%nat /\ Z.of_nat (length VDs) <= UINT32_MAX
  /\ Prof inst = Some (MD_VP IPVK_MemOPSize T (VDs ++ drop (length VDs) (profileData inst))).
Proof.
  unfold readProfile, getValueProfDataFromInst, profileData.
  destruct (Prof inst) as [[K Tot Data | ] |]; try discriminate.
  destruct (bool_decide_reflect (K = IPVK_MemOPSize)) as [-> |]; [| discriminate].
  set (n := Z.to_nat _).
  assert (Z.of_nat n <= UINT32_MAX) as Hn.
  { subst n. unfold wrap32, UINT32_MAX.
    pose proof (Z.mod_pos_bound (MemOPMaxVersion cfg + 2) (2 ^ 32) ltac:(lia)). lia. }
  destruct (take n Data) as [| vd l] eqn:E; [discriminate |].
  intros [= <- <-].
  assert (length (vd :: l) <= n)%nat as Hl.
  { rewrite <- E, length_take. lia. }
  split; [simpl; lia |]. split; [lia |].
  do 2 f_equal. rewrite <- E. rewrite length_take.
  destruct (Nat.le_gt_cases n (length Data)).
  - rewrite Nat.min_l by done. by rewrite take_drop.
  - rewrite Nat.min_r by lia. rewrite take_ge, drop_all by lia. by rewrite app_nil_r.
Qed.

Lemma length_unskipped cfg VDs : (length (unskipped cfg VDs) <= length VDs)%nat.
Proof. unfold unskipped. apply length_filter. Qed.

(** The versions of a plan that [perform] accepted. *)
Lemma plan_versions cfg inst VDs T a pl :
  readProfile cfg inst = Some (VDs, T) ->
  planLoop cfg a T VDs (initPlan a T) = Ret pl ->
  Version pl <> 0 ->
  exists acc,
    pl = acceptAll (initPlan a T) acc
    /\ acc.*1 `prefix_of` unskipped cfg VDs
    /\ Forall (fun p => scaledCountIs cfg a T p /\ MemOPCountThreshold cfg <= p.2) acc
    /\ (1 <= length acc <= length VDs)%nat
    /\ Version pl = Z.of_nat (length acc)
    /\ SizeIds pl = sizeOf <$> acc.*1
    /\ CaseCounts pl = 0 :: acc.*2
    /\ RemainCount pl = wrap64 (a - sumZ acc.*2)
    /\ SavedRemainCount pl = wrap64 (T - sumCounts acc.*1).
Proof.
  intros Hread H Hv. apply readProfile_length in Hread as (_ & Hmax & _).
  apply planLoop_accepts in H as (acc & Hpre & HF & ->).
  destruct (acceptAll_lists (initPlan a T) acc) as [HS HC].
  destruct (acceptAll_counters (initPlan a T) acc) as (HV & HR & HSR).
  exists acc. split; [done |]. split; [done |]. split; [done |].
  assert (length acc <= length VDs)%nat as Hlen.
  { apply prefix_length in Hpre. rewrite length_fmap in Hpre.
    pose proof (length_unskipped cfg VDs). lia. }
  destruct acc as [| p acc]; [done |].
  split; [simpl in *; lia |].
  split; [rewrite HV; simpl; apply wrap32_small; simpl in Hlen; lia |].
  done.
Qed.

(** The switch of a successful rewrite and its case blocks. *)
Lemma rewrite_switch cfg st MO inst VDs pl CC MC Sum Tot info st' :
  rewrite cfg st MO inst VDs pl CC MC Sum Tot = Ret (info, st') ->
  length (CaseBBs info) = length (SizeIds pl)
  /\ exists si cond cases,
       Instrs (Func st') !! Switch info = Some si
       /\ Body si = SwitchInst cond (DefaultBB info) cases
       /\ cases.*2 = (CaseBBs info).*1
       /\ Prof si = Some (MD_BranchWeights CC MC).
Proof.
  intros H.
  apply rewrite_Ret in H
    as (F1 & F2 & Fsw & Fph & Fmd & Fcs & HP & _ & _ & Hs1 & [It Hs2] & HMO & Hdsw
        & Hph & HBmd & (f & Hf & HImd) & Hcs & Hfin & Hkept & Hsw).
  destruct (createCases_spec _ _ _ _ _ _ _ _ _ _ Hcs) as (Hlen & _).
  split; [done |].
  assert (HFmd : Instrs (updateInst Fph MO f) = Instrs Fmd) by (by rewrite HImd).
  assert (switchTargets Fph (Switch info) (DefaultBB info) []) as Hsw'.
  { destruct Hph as [(_ & _ & ->) | (_ & P & _ & Hphi)]; [done |].
    by eapply createPHI_switchTargets. }
  assert (switchTargets Fcs (Switch info) (DefaultBB info) (CaseBBs info).*1)
    as (si & cond & cases & Hsi & HB & Ht).
  { apply (createCases_switchTargets _ _ _ _ _ _ _ _ _ _ _ [] Hcs).
    apply (switchTargets_ext _ _ _ _ _ HFmd).
    apply switchTargets_updateInst; [intros x; by destruct (Hf x) | done]. }
  exists (setProfMetadata CC MC si), cond, cases.
  rewrite Hfin. unfold updateInst. simpl. rewrite lookup_alter_eq, Hsi. done.
Qed.

Lemma wrap64_sub_wrap64 a s : wrap64 (a - wrap64 (a - s)) = wrap64 s.
Proof.
  unfold wrap64. rewrite Zminus_mod_idemp_r. f_equal. lia.
Qed.

(** ** The function after a rewrite *)

Lemma performInfo_keptFrom cfg st MO info st' :
  performInfo cfg st MO = Ret (Some info, st') -> keptFrom MO (Func st) (Func st').
Proof.
  intros H.
  apply performInfo_Some in H as (inst & VDs & T & a & pl & HI & _ & _ & _ & _ & H).
  by destruct (rewrite_frame _ _ _ _ _ _ _ _ _ _ _ _ H HI) as (K & _).
Qed.

Lemma perform_keptFrom cfg st MO b st' :
  perform cfg st MO = Ret (b, st') -> keptFrom MO (Func st) (Func st').
Proof.
  destruct b; intros H.
  - apply perform_true in H as [info H]. by eapply performInfo_keptFrom.
  - apply perform_false in H as ->. apply keptFrom_refl.
Qed.

(** X9: whatever [perform] answers for a call
    site, every instruction that the function had is still an instruction of
    the function, of the same kind (the same intrinsic or callee) and type,
    and is a candidate of the collector exactly when it was one; every
    instruction other than the call site itself has the profile record it
    had.  The rewrite deletes nothing that was there and touches the profile
    of the call site only. *)
Theorem X_rewrite_keeps_instructions (cfg : Options) (st st' : State) (MO : InstId)
    (b : bool) :
  perform cfg st MO = Ret (b, st') ->
  forall J i, Instrs (Func st) !! J = Some i ->
    exists i', Instrs (Func st') !! J = Some i'
      /\ opcode (Body i') = opcode (Body i)
      /\ InstTy i' = InstTy i
      /\ isCandidate i' = isCandidate i
      /\ (J <> MO -> Prof i' = Prof i).
Proof.
  intros H J i HJ. apply perform_keptFrom in H.
  destruct (H _ _ HJ) as (i' & HJ' & (Ho & Ht & Hc) & Hp). eauto 10.
Qed.

Lemma X_rewrite_keeps_instructions_witness :
  exists st' i',
    perform (exampleOptions false true) cmpState 1%nat = Ret (true, st')
    /\ Instrs (Func st') !! 2%nat = Some i'
    /\ opcode (Body i') = OpOther false
    /\ InstTy i' = IntegerTy 32
    /\ Prof i' = None.
Proof.
  assert (exists st', perform (exampleOptions false true) cmpState 1%nat = Ret (true, st'))
    as (st' & E).
  { eexists. vm_compute. reflexivity. }
  destruct (X_rewrite_keeps_instructions (exampleOptions false true) cmpState st' 1%nat true E
              2%nat (mkInst (OtherInst false [InstVal 1]) (IntegerTy 32) None) eq_refl)
    as (i' & Hi & Ho & Ht & _ & Hp).
  exists st', i'.
  exact (conj E (conj Hi (conj Ho (conj Ht (Hp ltac:(discriminate)))))).
Defined.

Lemma performWorkList_kept cfg w r r' :
  performWorkList cfg w r = Ret r' ->
  forall J i, Instrs (Func (Final r)) !! J = Some i ->
    exists i', Instrs (Func (Final r')) !! J = Some i'
      /\ siteKept i i' /\ (J ∉ w -> Prof i' = Prof i).
Proof.
  revert r. induction w as [| MO w IH]; intros r H J i HJ; simpl in H.
  { injection H as <-. exists i. split; [done |]. split; [apply siteKept_refl | done]. }
  apply bind_Ret in H as ([b s] & Hp & H). simpl in H.
  apply perform_keptFrom in Hp.
  destruct (Hp _ _ HJ) as (i1 & HJ1 & Hs1 & Hp1).
  destruct (IH _ H J i1 HJ1) as (i2 & HJ2 & Hs2 & Hp2).
  exists i2. split; [done |]. split; [by eapply siteKept_trans |].
  intros Hnin. apply not_elem_of_cons in Hnin as [Hne Hnin].
  by rewrite Hp2, Hp1.
Qed.

(** X10: after a run of the driver over a function,
    every instruction that the function had is still there, of the same kind
    and type; and an instruction that is not a candidate of the collector (not
    a memory intrinsic or [memcmp]/[bcmp] call with a length that is not a
    constant) has the profile record it had: the pass changes the profile
    metadata of candidates only. *)
Theorem X_pass_keeps_instructions (cfg : Options) (st : State) (r : PassResult) :
  performAll cfg st = Ret r ->
  forall J i, Instrs (Func st) !! J = Some i ->
    exists i', Instrs (Func (Final r)) !! J = Some i'
      /\ opcode (Body i') = opcode (Body i)
      /\ InstTy i' = InstTy i
      /\ (isCandidate i = false -> Prof i' = Prof i).
Proof.
  unfold performAll. intros H J i HJ.
  apply bind_Ret in H as (w & Hw & H).
  destruct (performWorkList_kept _ _ _ _ H J i HJ) as (i' & HJ' & (Ho & Ht & _) & Hp).
  exists i'. split; [done |]. split; [done |]. split; [done |].
  intros Hc. apply Hp. intros Hin.
  apply visitBlocks_spec in Hw. simpl in Hw. rewrite Hw in Hin.
  apply list_elem_of_filter in Hin as [Hin _].
  unfold candidateId in Hin. simpl in Hin. rewrite HJ in Hin. congruence.
Qed.

Lemma X_pass_keeps_instructions_witness :
  exists r i',
    performAll (exampleOptions false true) cmpState = Ret r
    /\ Changed r = true
    /\ Instrs (Func (Final r)) !! 3%nat = Some i'
    /\ opcode (Body i') = OpOther true
    /\ Prof i' = None.
Proof.
  assert (exists r, performAll (exampleOptions false true) cmpState = Ret r
                    /\ Changed r = true) as (r & E & Hc).
  { eexists. split; [vm_compute; reflexivity | reflexivity]. }
  destruct (X_pass_keeps_instructions (exampleOptions false true) cmpState r E
              3%nat (mkInst (OtherInst true [InstVal 2; InstVal 1]) VoidTy None) eq_refl)
    as (i' & Hi & Ho & _ & Hp).
  exists r, i'.
  exact (conj E (conj Hc (conj Hi (conj Ho (Hp eq_refl))))).
Defined.

(** X11: after a successful rewrite that made
    [k] versions, the call site is still the instruction it was, and its
    value-profile record is rewritten from what [perform] read: with [R] the
    raw total minus the raw counts of the [k] selected samples (modulo 2^64),
    the record holds [R] and the samples after the first [k] of the record,
    when [R] is positive or [k] is not the number of samples read, and is
    removed otherwise.  At least one version was made, so the call is left
    with strictly fewer samples than were read. *)
Theorem X_call_keeps_unpromoted_samples (cfg : Options) (st st' : State) (MO : InstId)
    (info : RewriteInfo) :
  performInfo cfg st MO = Ret (Some info, st') ->
  exists inst VDs T fin,
    let k := length (CaseBBs info) in
    let R := wrap64 (T - sumCounts (take k (unskipped cfg VDs))) in
    Instrs (Func st) !! MO = Some inst
    /\ readProfile cfg inst = Some (VDs, T)
    /\ (1 <= k <= length VDs)%nat
    /\ Instrs (Func st') !! MO = Some fin
    /\ opcode (Body fin) = opcode (Body inst)
    /\ Prof fin = (if (R >? 0) || negb (k =? length VDs)%nat
                   then Some (MD_VP IPVK_MemOPSize R (drop k VDs))
                   else None)
    /\ (length (profileData fin) < length VDs)%nat.
Proof.
  intros H.
  apply performInfo_Some in H
    as (inst & VDs & T & a & pl & HI & Hread & _ & Hpl & Hv & H).
  destruct (plan_versions _ _ _ _ _ _ Hread Hpl Hv)
    as (acc & _ & Hpre & _ & Hlen & HV & HS & _ & _ & HSR).
  destruct (rewrite_switch _ _ _ _ _ _ _ _ _ _ _ _ H) as (Hcs & _).
  destruct (rewrite_frame _ _ _ _ _ _ _ _ _ _ _ _ H HI)
    as (_ & _ & (fin & Hfin & (Ho & _) & HP) & _).
  exists inst, VDs, T, fin. simpl.
  assert (length (CaseBBs info) = length acc) as Hk.
  { by rewrite Hcs, HS, !length_fmap. }
  assert (acc.*1 = take (length acc) (unskipped cfg VDs)) as Hacc.
  { rewrite <- (length_fmap fst). by apply prefix_take. }
  rewrite Hk, <- Hacc, <- HSR.
  assert (Prof fin = if (SavedRemainCount pl >? 0) || negb (length acc =? length VDs)%nat
                     then Some (MD_VP IPVK_MemOPSize (SavedRemainCount pl)
                                  (drop (length acc) VDs))
                     else None) as HP'.
  { rewrite HP. unfold residualProfile. rewrite HV, Nat2Z.id.
    replace (Z.of_nat (length acc) =? Z.of_nat (length VDs))
      with (length acc =? length VDs)%nat; [done |].
    destruct (Nat.eqb_spec (length acc) (length VDs)) as [-> | Hne].
    - by rewrite Z.eqb_refl.
    - symmetry. apply Z.eqb_neq. lia. }
  split; [done |]. split; [done |]. split; [done |]. split; [done |].
  split; [done |]. split; [done |].
  unfold profileData. rewrite HP'.
  destruct (_ || _); simpl; [rewrite length_drop |]; lia.
Qed.

Lemma X_call_keeps_unpromoted_samples_witness :
  exists info st' fin,
    performInfo (exampleOptions false true) cmpState 1%nat = Ret (Some info, st')
    /\ length (CaseBBs info) = 2%nat
    /\ Instrs (Func st') !! 1%nat = Some fin
    /\ (length (profileData fin) < 3)%nat.
Proof.
  assert (exists info st',
             performInfo (exampleOptions false true) cmpState 1%nat = Ret (Some info, st')
             /\ length (CaseBBs info) = 2%nat) as (info & st' & E & Hl).
  { do 2 eexists. split; [vm_compute; reflexivity | reflexivity]. }
  destruct (X_call_keeps_unpromoted_samples (exampleOptions false true) cmpState st' 1%nat
              info E) as (inst & VDs & T & fin & HI & Hread & _ & Hfin & _ & _ & Hlt).
  assert (inst = memcmpCall (memOPSizeProfile 10000 [VD 4 6000; VD 8 3000; VD 9 1000]))
    as -> by (injection HI as <-; reflexivity).
  assert (VDs = [VD 4 6000; VD 8 3000; VD 9 1000]) as -> by (injection Hread as <- _; reflexivity).
  exists info, st', fin.
  exact (conj E (conj Hl (conj Hfin Hlt))).
Defined.

(** ** The switch and the remark *)

Lemma getName_not_memmove inst n :
  MemOp.isMemmove inst = false -> MemOp.getName inst = Some n -> n <> "memmove".
Proof.
  unfold MemOp.isMemmove, MemOp.getName.
  destruct (MemOp.asMI inst) as [[ID Args] |].
  - intros Hm [= <-]. destruct ID; simpl in *; done.
  - intros _. destruct (MemOp.getLibFunc inst) as [[| |] |]; intros [= <-]; done.
Qed.

Lemma performInfo_actual cfg st MO info st' :
  performInfo cfg st MO = Ret (Some info, st') ->
  exists inst VDs T a pl acc,
    Instrs (Func st) !! MO = Some inst
    /\ MemOp.isMemmove inst = false
    /\ readProfile cfg inst = Some (VDs, T)
    /\ actualTotal cfg st (HeadBB info) T = Some a
    /\ MemOPCountThreshold cfg <= a
    /\ Forall (fun p => scaledCountIs cfg a T p /\ MemOPCountThreshold cfg <= p.2) acc
    /\ length (CaseBBs info) = length acc
    /\ Version pl = Z.of_nat (length acc)
    /\ RemainCount pl = wrap64 (a - sumZ acc.*2)
    /\ CaseCounts pl = 0 :: acc.*2
    /\ rewrite cfg st MO inst VDs pl (<[0%nat := RemainCount pl]> (CaseCounts pl))
         (if RemainCount pl >? MaxCount pl then RemainCount pl else MaxCount pl)
         (wrap64 (a - RemainCount pl)) a
       = Ret (info, st').
Proof.
  intros H.
  apply performInfo_success in H
    as (inst & VDs & T & a & pl & HI & Hmv & _ & Hread & Hact & Hthr & _ & Hpl & Hv & H).
  destruct (plan_versions _ _ _ _ _ _ Hread Hpl Hv)
    as (acc & _ & _ & HF & _ & HV & HS & HC & HR & _).
  destruct (rewrite_switch _ _ _ _ _ _ _ _ _ _ _ _ H) as (Hcs & _).
  pose proof H as H'.
  apply rewrite_Ret in H' as (F1 & F2 & Fsw & Fph & Fmd & Fcs & HP & _).
  exists inst, VDs, T, a, pl, acc.
  split; [done |]. split; [done |]. split; [done |]. split.
  { unfold actualTotal. destruct (MemOPScaleCount cfg).
    - destruct Hact as (BB & HBB & Hc). congruence.
    - by subst. }
  split; [done |]. split; [done |].
  split; [by rewrite Hcs, HS, !length_fmap |]. done.
Qed.

(** X12: after a successful rewrite the
    switch is a new instruction whose default target is the default block and
    whose case targets are, in order, the case blocks; its profile record
    holds one count per successor: first the count that remains for the
    default block, which is the total planned against (the execution count of
    the block of the call under count scaling, else the total of the profile
    record) minus the counts of the cases, modulo 2^64, then one count per
    case, each at least the count threshold. *)
Theorem X_switch_has_one_count_per_successor (cfg : Options) (st st' : State)
    (MO : InstId) (info : RewriteInfo) :
  performInfo cfg st MO = Ret (Some info, st') ->
  exists inst VDs T a si cond cases d cs mc,
    Instrs (Func st) !! MO = Some inst
    /\ readProfile cfg inst = Some (VDs, T)
    /\ actualTotal cfg st (HeadBB info) T = Some a
    /\ Instrs (Func st') !! Switch info = Some si
    /\ (Switch info ∉ dom (Instrs (Func st)))
    /\ Body si = SwitchInst cond (DefaultBB info) cases
    /\ cases.*2 = (CaseBBs info).*1
    /\ Prof si = Some (MD_BranchWeights (d :: cs) mc)
    /\ length cs = length cases
    /\ Forall (fun c => MemOPCountThreshold cfg <= c) cs
    /\ d = wrap64 (a - sumZ cs).
Proof.
  intros H.
  apply performInfo_actual in H
    as (inst & VDs & T & a & pl & acc & HI & _ & Hread & Hact & _ & HF & Hk & _ & HR & HC & H).
  destruct (rewrite_switch _ _ _ _ _ _ _ _ _ _ _ _ H)
    as (_ & si & cond & cases & Hsi & HB & Ht & HP).
  destruct (rewrite_frame _ _ _ _ _ _ _ _ _ _ _ _ H HI) as (_ & HSI & _).
  exists inst, VDs, T, a, si, cond, cases, (RemainCount pl), acc.*2,
    (if RemainCount pl >? MaxCount pl then RemainCount pl else MaxCount pl).
  split; [done |]. split; [done |]. split; [done |].
  split; [done |]. split; [done |]. split; [done |]. split; [done |].
  split; [by rewrite HP, HC |].
  split.
  { by rewrite <- (length_fmap snd cases), Ht, !length_fmap. }
  split; [| done].
  apply Forall_fmap. eapply Forall_impl; [exact HF |]. by intros p [_ ?].
Qed.

Lemma X_switch_has_one_count_per_successor_witness :
  exists info st' si,
    performInfo (exampleOptions false true) cmpState 1%nat = Ret (Some info, st')
    /\ Instrs (Func st') !! Switch info = Some si
    /\ Prof si = Some (MD_BranchWeights [1000; 6000; 3000] 6000).
Proof.
  assert (exists info st' si,
             performInfo (exampleOptions false true) cmpState 1%nat = Ret (Some info, st')
             /\ Instrs (Func st') !! Switch info = Some si
             /\ Prof si = Some (MD_BranchWeights [1000; 6000; 3000] 6000))
    as (info & st' & si & E & Hsi & HP).
  { do 3 eexists. split; [vm_compute; reflexivity |]. split; reflexivity. }
  destruct (X_switch_has_one_count_per_successor (exampleOptions false true) cmpState st'
              1%nat info E)
    as (inst & VDs & T & a & si' & cond & cases & d & cs & mc & _ & _ & _ & Hsi' & _).
  exists info, st', si'.
  assert (si' = si) as -> by congruence.
  exact (conj E (conj Hsi HP)).
Defined.

(** X13: a successful rewrite leaves the remarks as
    they were when remarks are off, and otherwise appends exactly one: it
    names the operation of the call site, which is never [memmove], gives the
    number of case blocks as the number of versions, the total planned
    against as the total, and as the count the sum of the counts of the
    switch cases modulo 2^64. *)
Theorem X_one_remark_per_rewrite (cfg : Options) (st st' : State) (MO : InstId)
    (info : RewriteInfo) :
  performInfo cfg st MO = Ret (Some info, st') ->
  RemarksEnabled st' = RemarksEnabled st
  /\ (RemarksEnabled st = false -> ORE st' = ORE st)
  /\ (RemarksEnabled st = true ->
      exists inst VDs T a n d cs mc,
        Instrs (Func st) !! MO = Some inst
        /\ readProfile cfg inst = Some (VDs, T)
        /\ actualTotal cfg st (HeadBB info) T = Some a
        /\ MemOp.getName inst = Some n
        /\ n <> "memmove"
        /\ profOf (Func st') (Switch info) = Some (MD_BranchWeights (d :: cs) mc)
        /\ ORE st' = ORE st ++ [{| RemarkMemop := n;
                                   RemarkCount := wrap64 (sumZ cs);
                                   RemarkTotal := a;
                                   RemarkVersions := Z.of_nat (length (CaseBBs info)) |}]).
Proof.
  intros H.
  apply performInfo_actual in H
    as (inst & VDs & T & a & pl & acc & HI & Hmv & Hread & Hact & _ & _ & Hk & HV & HR & HC & H).
  destruct (rewrite_switch _ _ _ _ _ _ _ _ _ _ _ _ H)
    as (_ & si & cond & cases & Hsi & _ & _ & HP).
  destruct (rewrite_frame _ _ _ _ _ _ _ _ _ _ _ _ H HI) as (_ & _ & _ & Hen & Hore).
  split; [done |]. split.
  - intros E. by rewrite E in Hore.
  - intros E. rewrite E in Hore. destruct Hore as (n & Hn & Hore).
    exists inst, VDs, T, a, n, (RemainCount pl), acc.*2,
      (if RemainCount pl >? MaxCount pl then RemainCount pl else MaxCount pl).
    split; [done |]. split; [done |]. split; [done |]. split; [done |].
    split; [by eapply getName_not_memmove |].
    split; [unfold profOf; by rewrite Hsi, HP, HC |].
    rewrite Hore, HV, Hk. do 3 f_equal. rewrite HR. apply wrap64_sub_wrap64.
Qed.

Lemma X_one_remark_per_rewrite_witness :
  exists info st',
    performInfo (exampleOptions false true) cmpState 1%nat = Ret (Some info, st')
    /\ RemarksEnabled st' = true
    /\ ORE st' = [{| RemarkMemop := "memcmp"; RemarkCount := 9000; RemarkTotal := 10000;
                     RemarkVersions := 2 |}].
Proof.
  assert (exists info st',
             performInfo (exampleOptions false true) cmpState 1%nat = Ret (Some info, st')
             /\ ORE st' = [{| RemarkMemop := "memcmp"; RemarkCount := 9000;
                              RemarkTotal := 10000; RemarkVersions := 2 |}])
    as (info & st' & E & HO).
  { do 2 eexists. split; [vm_compute; reflexivity | reflexivity]. }
  destruct (X_one_remark_per_rewrite (exampleOptions false true) cmpState st' 1%nat info E)
    as (Hen & _).
  exists info, st'.
  exact (conj E (conj Hen HO)).
Defined.

(** ** The case blocks *)

Lemma setLength_clone k cb orig :
  setParent (Some cb) (MemOp.setLength k (MemOp.clone orig))
  = setParent (Some cb) (MemOp.setLength k orig).
Proof. unfold MemOp.setLength, MemOp.clone. simpl. by destruct (Body orig). Qed.

Lemma getLength_Body i i' : Body i' = Body i -> MemOp.getLength i' = MemOp.getLength i.
Proof. unfold MemOp.getLength, MemOp.asCI. by intros ->. Qed.

Lemma getLength_clone i : MemOp.getLength (MemOp.clone i) = MemOp.getLength i.
Proof. by apply getLength_Body. Qed.

Lemma getLength_call i len :
  MemOp.getLength i = Ret len ->
  (exists ID Args, Body i = MemIntrinsic ID Args) \/ (exists C Args, Body i = CallInst C Args).
Proof.
  unfold MemOp.getLength, MemOp.asCI. destruct (Body i); try discriminate; eauto.
Qed.

Lemma getType_Instrs F G v : Instrs F = Instrs G -> getType F v = getType G v.
Proof. unfold getType, getInst. by intros ->. Qed.

Lemma getType_keptFrom MO F G v ty :
  keptFrom MO F G -> getType F v = Ret ty -> getType G v = Ret ty.
Proof.
  intros K. destruct v as [| j |]; simpl; try done.
  unfold getInst. destruct (Instrs F !! j) as [i |] eqn:E; [| discriminate].
  destruct (K _ _ E) as (i' & -> & (_ & Ht & _) & _). simpl. by rewrite Ht.
Qed.

(** One case block, in full. *)
Lemma createCase_full cfg MO D M SI PHI F SizeId F' cb c :
  createCase cfg MO D M SI PHI F SizeId = Ret (F', (cb, c)) ->
  exists orig len bits br,
    Instrs F !! MO = Some orig
    /\ MemOp.getLength orig = Ret len
    /\ getType F len = Ret (IntegerTy bits)
    /\ cb = fresh (dom (Blocks F))
    /\ c = fresh (dom (Instrs F))
    /\ c <> br
    /\ (br ∉ dom (Instrs F))
    /\ Blocks F' = <[cb := {| Name := "MemOP.Case." +:+ pretty SizeId; Insts := [c; br] |}]>
                     (Blocks F)
    /\ Instrs F' =
         (match PHI with
          | Some P => alter (addIncoming (InstVal c) cb) P
          | None => fun m => m
          end)
           (alter (addCase (caseValue bits SizeId) cb) SI
              (<[br := {| Body := BranchInst M; InstTy := VoidTy; Prof := None;
                          Parent := Some cb |}]>
                 (<[c := setParent (Some cb)
                           (MemOp.setLength (caseValue bits SizeId) orig)]>
                    (Instrs F)))).
Proof.
  unfold createCase. intros H.
  apply bind_Ret in H as (orig & Horig & H).
  apply bind_Ret in H as (len & Hlen & H).
  apply bind_Ret in H as (ty & Hty & H).
  destruct ty as [| bits |]; try (unfold failed in H; destruct (NDEBUG cfg); discriminate).
  injection H as <- <- <-.
  unfold getInst in Horig. simpl in Horig.
  destruct (Instrs F !! MO) as [o |] eqn:HMO; [| discriminate]. injection Horig as ->.
  rewrite getLength_clone in Hlen.
  set (c := fresh (dom (Instrs F))).
  exists orig, len, bits,
    (fresh (dom (<[c := setParent (Some (fresh (dom (Blocks F))))
                         (MemOp.setLength (caseValue bits SizeId) orig)]>
                   (Instrs F)))).
  split; [done |]. split; [done |]. split; [exact Hty |]. split; [done |]. split; [done |].
  split; [| split; [| split]]; cycle 3.
  - destruct PHI; unfold updateInst, appendInst; simpl; rewrite !setLength_clone;
      reflexivity.
  - rewrite dom_insert_L. intros Heq.
    pose proof (is_fresh ({[c]} ∪ dom (Instrs F))) as Hf.
    rewrite <- Heq in Hf. apply Hf. apply elem_of_union_l. by apply elem_of_singleton.
  - rewrite dom_insert_L. intros Hin.
    apply (is_fresh ({[c]} ∪ dom (Instrs F))). by apply elem_of_union_r.
  - assert (forall G : Function, Blocks (match PHI with
                                         | Some P => updateInst G P (addIncoming (InstVal c)
                                                       (fresh (dom (Blocks F))))
                                         | None => G
                                         end) = Blocks G) as HB by (by destruct PHI).
    rewrite HB. simpl. rewrite !alter_insert_eq, !setLength_clone. reflexivity.
Qed.

Lemma createCases_blocks_lookup cfg MO D M SI PHI SizeIds F F' cs b bb :
  createCases cfg MO D M SI PHI SizeIds F = Ret (F', cs) ->
  Blocks F !! b = Some bb -> Blocks F' !! b = Some bb.
Proof.
  revert F F' cs. induction SizeIds as [| SizeId rest IH]; intros F F' cs H Hb; simpl in H.
  - by injection H as <- <-.
  - apply bind_Ret in H as ([F1 [cb c]] & H1 & H). simpl in H.
    apply bind_Ret in H as ([F2 cs'] & H2 & H). simpl in H.
    injection H as <- <-.
    eapply IH; [exact H2 |].
    apply createCase_full in H1
      as (orig & len & bits & br & _ & _ & _ & -> & _ & _ & _ & HB & _).
    rewrite HB, lookup_insert_ne; [done |].
    intros E. apply (is_fresh (dom (Blocks F))). rewrite E. by apply elem_of_dom.
Qed.

Lemma createCases_full cfg MO D M SI PHI SizeIds F F' cs call len bits si cond d cases :
  createCases cfg MO D M SI PHI SizeIds F = Ret (F', cs) ->
  Instrs F !! MO = Some call ->
  MO <> SI ->
  PHI <> Some MO ->
  (forall P, PHI = Some P -> P ∈ dom (Instrs F)) ->
  MemOp.getLength call = Ret len ->
  getType F len = Ret (IntegerTy bits) ->
  Instrs F !! SI = Some si ->
  Body si = SwitchInst cond d cases ->
  Forall2 (caseBlockOf F' call bits M) SizeIds cs
  /\ exists si', Instrs F' !! SI = Some si'
                 /\ Body si' = SwitchInst cond d
                                 (cases ++ zip (caseValue bits <$> SizeIds) cs.*1).
Proof.
  revert F F' cs si cases.
  induction SizeIds as [| SizeId rest IH];
    intros F F' cs si cases H HMO HSI HPMO HP Hlen Hty Hsi HB; simpl in H.
  { injection H as <- <-. split; [constructor |]. exists si. simpl. by rewrite app_nil_r. }
  apply bind_Ret in H as ([F1 [cb c]] & H1 & H). simpl in H.
  apply bind_Ret in H as ([F2 cs'] & H2 & H). simpl in H.
  injection H as <- <-.
  pose proof (keptFrom_createCase MO _ _ _ _ _ _ _ _ _ _ _ H1) as K1.
  apply createCase_full in H1
    as (orig & len' & bits' & br & HMO' & Hlen' & Hty' & -> & -> & Hcbr & Hbr & HB1 & HI1).
  assert (orig = call) as -> by congruence.
  assert (len' = len) as -> by congruence.
  assert (bits' = bits) as -> by congruence.
  set (cb := fresh (dom (Blocks F))) in *.
  set (c := fresh (dom (Instrs F))) in *.
  assert (Hc : c ∉ dom (Instrs F)) by apply is_fresh.
  assert (forall j, j ∈ dom (Instrs F) -> j <> c /\ j <> br) as Hold.
  { intros j Hj. split; intros ->; done. }
  assert (MO ∈ dom (Instrs F)) as HdMO by (by apply elem_of_dom).
  assert (SI ∈ dom (Instrs F)) as HdSI by (by apply elem_of_dom).
  destruct (Hold _ HdMO) as [HMOc HMObr]. destruct (Hold _ HdSI) as [HSIc HSIbr].
  assert (PHI <> Some c /\ PHI <> Some br) as [HPc HPbr].
  { split; intros E; destruct (Hold _ (HP _ E)); done. }
  (* what the first case leaves *)
  assert (forall j x, j <> SI -> PHI <> Some j ->
            <[br := {| Body := BranchInst M; InstTy := VoidTy; Prof := None;
                       Parent := Some cb |}]>
              (<[c := setParent (Some cb) (MemOp.setLength (caseValue bits SizeId) call)]>
                 (Instrs F)) !! j = Some x ->
            Instrs F1 !! j = Some x) as Hother.
  { intros j x Hj HPj Hx. rewrite HI1. destruct PHI as [P |].
    - assert (P <> j) by congruence. by rewrite !lookup_alter_ne.
    - by rewrite lookup_alter_ne. }
  assert (Instrs F1 !! MO = Some call) as HMO1.
  { apply Hother; [done | congruence |]. by rewrite !lookup_insert_ne. }
  assert (Instrs F1 !! c
          = Some (setParent (Some cb) (MemOp.setLength (caseValue bits SizeId) call)))
    as Hc1.
  { apply Hother; [done | congruence |].
    by rewrite lookup_insert_ne, lookup_insert_eq. }
  assert (Instrs F1 !! br
          = Some {| Body := BranchInst M; InstTy := VoidTy; Prof := None;
                    Parent := Some cb |}) as Hbr1.
  { apply Hother; [done | congruence |]. by rewrite lookup_insert_eq. }
  assert (exists si1, Instrs F1 !! SI = Some si1
                      /\ Body si1 = SwitchInst cond d
                                      (cases ++ [(caseValue bits SizeId, cb)]))
    as (si1 & Hsi1 & HB1').
  { assert (Body (addCase (caseValue bits SizeId) cb si)
            = SwitchInst cond d (cases ++ [(caseValue bits SizeId, cb)])) as HB'.
    { unfold addCase. by rewrite HB. }
    rewrite HI1. destruct PHI as [P |].
    - destruct (decide (P = SI)) as [-> | Hne].
      + rewrite !lookup_alter_eq, !lookup_insert_ne, Hsi by done. simpl.
        eexists. split; [reflexivity |]. by apply addIncoming_SwitchInst.
      + rewrite lookup_alter_ne, lookup_alter_eq, !lookup_insert_ne, Hsi by done. simpl.
        eexists. split; [reflexivity | exact HB'].
    - rewrite lookup_alter_eq, !lookup_insert_ne, Hsi by done. simpl.
      eexists. split; [reflexivity | exact HB']. }
  assert (forall P, PHI = Some P -> P ∈ dom (Instrs F1)) as HP1.
  { intros P E. destruct (elem_of_dom (Instrs F) P) as [[x Hx] _]; [by apply HP |].
    destruct (K1 _ _ Hx) as (x' & Hx' & _). by apply elem_of_dom. }
  destruct (IH _ _ _ _ _ H2 HMO1 HSI HPMO HP1 Hlen (getType_keptFrom _ _ _ _ _ K1 Hty)
              Hsi1 HB1') as (HF & si' & Hsi' & HB').
  split.
  - constructor; [| exact HF].
    exists br. simpl. split; [| split].
    + eapply createCases_blocks_lookup; [exact H2 |]. by rewrite HB1, lookup_insert_eq.
    + eapply createCases_lookup; [exact H2 | exact Hc1 | done | done].
    + eapply createCases_lookup; [exact H2 | exact Hbr1 | done | done].
  - exists si'. split; [done |]. rewrite HB'. f_equal.
    by rewrite <- app_assoc.
Qed.

Lemma getLength_replaceIncomingBlock Old New i :
  MemOp.getLength (replaceIncomingBlock Old New i) = MemOp.getLength i.
Proof.
  unfold replaceIncomingBlock, MemOp.getLength, MemOp.asCI.
  destruct (Body i) eqn:E; simpl; rewrite ?E; done.
Qed.

Lemma SplitBlock_getLength F Old I F' New j i :
  SplitBlock F Old I = Ret (F', New) ->
  Instrs F !! j = Some i ->
  exists i', Instrs F' !! j = Some i' /\ MemOp.getLength i' = MemOp.getLength i.
Proof.
  intros H Hj. apply SplitBlock_Ret in H as (bb & before & after & _ & _ & _ & _ & HI).
  rewrite HI.
  assert (j <> fresh (dom (Instrs F))).
  { intros ->. apply (is_fresh (dom (Instrs F))). by apply elem_of_dom. }
  rewrite lookup_insert_ne by done.
  destruct (lookup_foldr_setParent_kept (replaceIncomingBlock Old New <$> Instrs F) (Some New)
              after j (replaceIncomingBlock Old New i)) as (i' & Hi' & EB & _).
  { by rewrite lookup_fmap, Hj. }
  exists i'. split; [done |].
  rewrite (getLength_Body _ _ EB). apply getLength_replaceIncomingBlock.
Qed.

Lemma getLength_replaceUses a b i len :
  MemOp.getLength i = Ret len ->
  MemOp.getLength (setBody (replaceUsesInBody a b (Body i)) i) = Ret (replaceUse a b len).
Proof.
  unfold MemOp.getLength, MemOp.asCI. simpl.
  destruct (Body i) as [ID Args | C Args | | | |]; simpl; try discriminate;
    rewrite list_lookup_fmap; destruct (Args !! 2%nat); simpl; try discriminate;
    by intros [= ->].
Qed.

Lemma createPHI_lookup F MO ty D M F' P :
  createPHI F MO ty D M = Ret (F', P) ->
  (P ∉ dom (Instrs F))
  /\ P ∈ dom (Instrs F')
  /\ forall j i, Instrs F !! j = Some i ->
       Instrs F' !! j
       = Some (setBody (replaceUsesInBody (InstVal MO) (InstVal P) (Body i)) i).
Proof.
  unfold createPHI, getBlock. intros H.
  destruct (Blocks F !! M) as [mb |]; [| discriminate]. simpl in H.
  destruct (insertBeforeFirstNonPHI _ _ _) as [insts |]; [| discriminate].
  injection H as <- <-.
  split; [apply is_fresh |]. split.
  - unfold updateInst, replaceAllUsesWith. simpl.
    rewrite dom_alter_L, dom_fmap_L, dom_insert_L.
    by apply elem_of_union_l, elem_of_singleton.
  - intros j i Hj.
    assert (j <> fresh (dom (Instrs F))).
    { intros ->. apply (is_fresh (dom (Instrs F))). by apply elem_of_dom. }
    unfold updateInst, replaceAllUsesWith. simpl.
    by rewrite lookup_alter_ne, lookup_fmap, lookup_insert_ne, Hj.
Qed.

(** The state in which the case blocks are made, and what they are made
    from. *)
Lemma rewrite_cases cfg st MO inst VDs pl CC MC Sum Tot info st' :
  rewrite cfg st MO inst VDs pl CC MC Sum Tot = Ret (info, st') ->
  Instrs (Func st) !! MO = Some inst ->
  exists Fmd Fcs imd len0 len si0,
    createCases cfg MO (DefaultBB info) (MergeBB info) (Switch info) (PHI info)
      (SizeIds pl) Fmd = Ret (Fcs, CaseBBs info)
    /\ Func st' = updateInst Fcs (Switch info) (setProfMetadata CC MC)
    /\ Instrs Fmd !! MO = Some imd
    /\ MO <> Switch info
    /\ PHI info <> Some MO
    /\ (forall P, PHI info = Some P -> P ∈ dom (Instrs Fmd))
    /\ MemOp.getLength inst = Ret len0
    /\ len = match PHI info with
             | Some P => replaceUse (InstVal MO) (InstVal P) len0
             | None => len0
             end
    /\ MemOp.getLength imd = Ret len
    /\ Instrs Fmd !! Switch info = Some si0
    /\ Body si0 = SwitchInst len (DefaultBB info) [].
Proof.
  unfold rewrite. intros H HMO.
  destruct (Parent inst) as [BB |] eqn:HP; [| discriminate].
  apply bind_Ret in H as ([F1 DefaultBB] & Hs1 & H). simpl in H.
  apply bind_Ret in H as (db & Hdb & H).
  destruct (Insts db) as [| x [| It rest]];
    try (unfold failed in H; destruct (NDEBUG cfg); discriminate).
  apply bind_Ret in H as ([F2 MergeBB] & Hs2 & H). simpl in H.
  destruct (getTerminator _ BB) as [T |] eqn:HT; [| discriminate].
  apply bind_Ret in H as (cur & Hcur & H).
  apply bind_Ret in H as (SizeVar & Hlen & H).
  apply bind_Ret in H as ([Fph PHI] & Hph & H). simpl in H.
  apply bind_Ret in H as ([Fcs cs] & Hcs & H). simpl in H.
  apply bind_Ret in H as (remarks & Hrem & H).
  injection H as <- <-. simpl.
  set (Ferase := eraseFromParent _ T) in *.
  set (SI := fresh (dom (Instrs Ferase))) in *.
  set (sw := {| Body := SwitchInst SizeVar DefaultBB []; InstTy := VoidTy; Prof := None;
                Parent := None |}) in *.
  set (Fsw := appendInst Ferase BB SI sw) in *.
  set (Fmd := if _ || _ then _ else _) in *.
  pose proof (head_terminator _ _ _ _ _ _ _ _ _ _ _ Hs1 Hs2 HT) as ET.
  (* the call when the switch is made *)
  unfold getInst in Hcur.
  destruct (Instrs Ferase !! MO) as [cur' |] eqn:Hcur'; [| discriminate].
  injection Hcur as ->.
  assert (MemOp.getLength inst = Ret SizeVar) as Hlen0.
  { destruct (SplitBlock_getLength _ _ _ _ _ _ _ Hs1 HMO) as (i1 & H1 & E1).
    destruct (SplitBlock_getLength _ _ _ _ _ _ _ Hs2 H1) as (i2 & H2 & E2).
    assert (Instrs Ferase !! MO = Some i2) as Hi2.
    { subst Ferase. rewrite Instrs_eraseFromParent, lookup_delete_ne; [done |].
      rewrite ET. intros <-. apply (is_fresh (dom (Instrs (Func st)))).
      by apply elem_of_dom. }
    assert (i2 = cur) as -> by congruence. congruence. }
  assert (MO <> SI) as HMOSI.
  { intros E. apply (is_fresh (dom (Instrs Ferase))). fold SI. rewrite <- E.
    by apply elem_of_dom. }
  assert (Instrs Fsw !! MO = Some cur) as HswMO.
  { subst Fsw. unfold appendInst. simpl. by rewrite lookup_insert_ne. }
  assert (Instrs Fsw !! SI = Some (setParent (Some BB) sw)) as HswSI.
  { subst Fsw. unfold appendInst. simpl. by rewrite lookup_insert_eq. }
  (* after the phi node *)
  set (len := match PHI with
              | Some P => replaceUse (InstVal MO) (InstVal P) SizeVar
              | None => SizeVar
              end).
  assert (PHI <> Some MO
          /\ (forall P, PHI = Some P -> P ∈ dom (Instrs Fph))
          /\ (exists iph, Instrs Fph !! MO = Some iph /\ MemOp.getLength iph = Ret len)
          /\ (exists sph, Instrs Fph !! SI = Some sph
                          /\ Body sph = SwitchInst len DefaultBB []))
    as (HPMO & HPd & (iph & Hiph & Hliph) & (sph & Hsph & HBsph)).
  { subst len. destruct (bool_decide (InstTy inst = VoidTy)).
    - injection Hph as <- <-. split; [done |]. split; [done |]. split; eauto.
    - apply bind_Ret in Hph as ([Fp P] & Hc & Hph). simpl in Hph.
      injection Hph as <- <-.
      destruct (createPHI_lookup _ _ _ _ _ _ _ Hc) as (HPf & HPin & Hl).
      split.
      { intros [= ->]. apply HPf. by apply elem_of_dom. }
      split; [by intros ? [= <-] |]. split.
      + eexists. split; [by apply Hl |]. by apply getLength_replaceUses.
      + eexists. split; [by apply Hl |]. reflexivity. }
  assert (Instrs Fmd !! SI = Some sph /\ dom (Instrs Fmd) = dom (Instrs Fph)
          /\ exists imd, Instrs Fmd !! MO = Some imd /\ Body imd = Body iph)
    as (HmdSI & Hdmd & imd & Himd & HBimd).
  { subst Fmd. destruct (_ || _); unfold updateInst; simpl.
    - rewrite !lookup_alter_ne, !dom_alter_L by done. split; [done |]. split; [done |].
      eexists. rewrite !lookup_alter_eq, Hiph. simpl. split; [reflexivity | done].
    - rewrite !lookup_alter_ne, !dom_alter_L by done. split; [done |]. split; [done |].
      eexists. rewrite !lookup_alter_eq, Hiph. simpl. split; [reflexivity | done]. }
  exists Fmd, Fcs, imd, SizeVar, len, sph.
  split; [exact Hcs |]. split; [done |]. split; [done |]. split; [done |].
  split; [done |]. split; [by rewrite Hdmd |]. split; [done |]. split; [done |].
  split; [by rewrite (getLength_Body _ _ HBimd) |]. done.
Qed.

Lemma getType_updateInst F I f v ty :
  (forall i, InstTy (f i) = InstTy i) ->
  getType F v = Ret ty -> getType (updateInst F I f) v = Ret ty.
Proof.
  intros Hf. destruct v as [| j |]; simpl; try done.
  unfold getInst, updateInst. simpl.
  destruct (decide (I = j)) as [-> | Hne].
  - rewrite lookup_alter_eq. destruct (Instrs F !! j); [| done]. simpl. by rewrite Hf.
  - by rewrite lookup_alter_ne.
Qed.

Lemma Body_setLength_call k i len :
  MemOp.getLength i = Ret len ->
  (exists ID Args, Body (MemOp.setLength k i) = MemIntrinsic ID Args)
  \/ (exists C Args, Body (MemOp.setLength k i) = CallInst C Args).
Proof.
  intros [(ID & Args & E) | (C & Args & E)]%getLength_call;
    unfold MemOp.setLength; rewrite E; simpl; eauto.
Qed.

Lemma caseBlockOf_updateInst F call bits M s c SI f si cond d cases len :
  caseBlockOf F call bits M s c ->
  Instrs F !! SI = Some si ->
  Body si = SwitchInst cond d cases ->
  MemOp.getLength call = Ret len ->
  caseBlockOf (updateInst F SI f) call bits M s c.
Proof.
  intros (br & Hb & Hc & Hbr) Hsi HB Hlen. exists br.
  assert (SI <> c.2).
  { intros ->. rewrite Hsi in Hc. injection Hc as ->. simpl in HB.
    destruct (Body_setLength_call (caseValue bits s) call len Hlen)
      as [(? & ? & E) | (? & ? & E)]; congruence. }
  assert (SI <> br).
  { intros ->. rewrite Hsi in Hbr. injection Hbr as ->. simpl in HB. discriminate. }
  unfold updateInst. simpl. by rewrite !lookup_alter_ne.
Qed.

(** X14: after a successful rewrite,
    the switch dispatches on the length operand of the call, and for the
    selected sizes, which are those of the first samples that pass the
    value-kind filter, it has in order one case per size, whose value is the
    size as a constant of the type of the length and whose target is the case
    block made for the size.  Each case block is named after its size and
    holds two instructions: the call as the rewrite leaves it, with the
    constant in place of the length and with the same profile record, and a
    branch to the merge block.  The length operand is the one of the call
    before the rewrite, except that a use of the result of the call itself
    is a use of the phi node. *)
Theorem X_versions_are_calls_with_constant_length (cfg : Options) (st st' : State)
    (MO : InstId) (info : RewriteInfo) :
  performInfo cfg st MO = Ret (Some info, st') ->
  exists inst VDs T fin len0 len bits si,
    let sizes := sizeOf <$> take (length (CaseBBs info)) (unskipped cfg VDs) in
    Instrs (Func st) !! MO = Some inst
    /\ readProfile cfg inst = Some (VDs, T)
    /\ MemOp.getLength inst = Ret len0
    /\ len = match PHI info with
             | Some P => replaceUse (InstVal MO) (InstVal P) len0
             | None => len0
             end
    /\ Instrs (Func st') !! MO = Some fin
    /\ MemOp.getLength fin = Ret len
    /\ getType (Func st') len = Ret (IntegerTy bits)
    /\ Instrs (Func st') !! Switch info = Some si
    /\ Body si = SwitchInst len (DefaultBB info)
                   (zip (caseValue bits <$> sizes) (CaseBBs info).*1)
    /\ Forall2 (caseBlockOf (Func st') fin bits (MergeBB info)) sizes (CaseBBs info).
Proof.
  intros H.
  apply performInfo_success in H
    as (inst & VDs & T & a & pl & HI & _ & _ & Hread & _ & _ & _ & Hpl & Hv & H).
  destruct (plan_versions _ _ _ _ _ _ Hread Hpl Hv)
    as (acc & _ & Hpre & _ & Hlen & _ & HS & _).
  destruct (rewrite_switch _ _ _ _ _ _ _ _ _ _ _ _ H) as (Hk & _).
  destruct (rewrite_cases _ _ _ _ _ _ _ _ _ _ _ _ H HI)
    as (Fmd & Fcs & imd & len0 & len & si0 & Hcs & Hfin & Himd & HMOSI & HPMO & HPd
        & Hlen0 & Elen & Hlimd & Hsi0 & HB0).
  assert (length (CaseBBs info) = length acc) as Hk'.
  { by rewrite Hk, HS, !length_fmap. }
  assert (SizeIds pl = sizeOf <$> take (length (CaseBBs info)) (unskipped cfg VDs)) as HS'.
  { rewrite HS, Hk'. f_equal. rewrite <- (length_fmap fst). by apply prefix_take. }
  (* the type of the length, from the first case *)
  assert (exists bits, getType Fmd len = Ret (IntegerTy bits)) as [bits Hty].
  { pose proof Hcs as Hcs'.
    destruct (SizeIds pl) as [| s rest] eqn:E.
    { rewrite HS in E. destruct acc; [simpl in Hlen; lia | discriminate]. }
    simpl in Hcs'. apply bind_Ret in Hcs' as ([F1 [cb c]] & H1 & _).
    apply createCase_full in H1 as (orig & len' & bits & br & HMO' & Hl' & Hty & _).
    exists bits. assert (orig = imd) as -> by congruence. congruence. }
  destruct (createCases_full _ _ _ _ _ _ _ _ _ _ _ _ _ _ _ _ _ Hcs Himd HMOSI HPMO HPd
              Hlimd Hty Hsi0 HB0) as (HF & si' & Hsi' & HB').
  pose proof (keptFrom_createCases MO _ _ _ _ _ _ _ _ _ _ Hcs) as Kcs.
  assert (Instrs Fcs !! MO = Some imd) as Hics.
  { eapply createCases_lookup; [exact Hcs | exact Himd | done | done]. }
  exists inst, VDs, T, imd, len0, len, bits,
    (setProfMetadata (<[0%nat := RemainCount pl]> (CaseCounts pl))
       (if RemainCount pl >? MaxCount pl then RemainCount pl else MaxCount pl) si').
  simpl. rewrite <- HS'.
  split; [done |]. split; [done |]. split; [done |]. split; [done |].
  split; [rewrite Hfin; unfold updateInst; simpl; by rewrite lookup_alter_ne |].
  split; [done |].
  split.
  { rewrite Hfin. apply getType_updateInst; [done |].
    by eapply getType_keptFrom. }
  split; [rewrite Hfin; unfold updateInst; simpl; by rewrite lookup_alter_eq, Hsi' |].
  split; [by rewrite HB' |].
  rewrite Hfin.
  eapply Forall2_impl; [exact HF |].
  intros s c Hc. by eapply caseBlockOf_updateInst.
Qed.

Lemma X_versions_are_calls_with_constant_length_witness :
  exists info st' si,
    performInfo (exampleOptions false true) cmpState 1%nat = Ret (Some info, st')
    /\ Instrs (Func st') !! Switch info = Some si
    /\ (CaseBBs info).*1 = [3; 4]%nat
    /\ Body si = SwitchInst (InstVal 0) (DefaultBB info)
                   [(ConstantInt 64 4, 3%nat); (ConstantInt 64 8, 4%nat)].
Proof.
  assert (exists info st',
             performInfo (exampleOptions false true) cmpState 1%nat = Ret (Some info, st')
             /\ PHI info = Some 7%nat
             /\ (CaseBBs info).*1 = [3; 4]%nat
             /\ length (CaseBBs info) = 2%nat) as (info & st' & E & HP & Hc & Hn).
  { do 2 eexists. split; [vm_compute; reflexivity |]. repeat split; reflexivity. }
  destruct (X_versions_are_calls_with_constant_length (exampleOptions false true) cmpState
              st' 1%nat info E)
    as (inst & VDs & T & fin & len0 & len & bits & si & HI & Hread & Hl0 & Hl & _ & _ & Hty
        & Hsi & HB & _).
  assert (inst = memcmpCall (memOPSizeProfile 10000 [VD 4 6000; VD 8 3000; VD 9 1000]))
    as -> by (injection HI as <-; reflexivity).
  assert (VDs = [VD 4 6000; VD 8 3000; VD 9 1000]) as ->
    by (injection Hread as <- _; reflexivity).
  assert (len0 = InstVal 0) as -> by (injection Hl0 as <-; reflexivity).
  rewrite HP in Hl. assert (len = InstVal 0) as -> by (rewrite Hl; reflexivity).
  assert (bits = 64%N) as ->.
  { assert (getType (Func st') (InstVal 0) = Ret (IntegerTy 64)) as Hty'.
    { clear -E. unfold performInfo in E. vm_compute in E. injection E as _ <-.
      vm_compute. reflexivity. }
    congruence. }
  exists info, st', si.
  rewrite Hc, Hn in HB.
  exact (conj E (conj Hsi (conj Hc HB))).
Defined.

(** ** The [MemOp] wrapper *)

(** X15: on an instruction that has a length operand,
    [setLength] followed by [getLength] gives the value set; [setLength]
    changes no other argument, nor the name, the kind, the type or the
    profile of the call; setting the length it already has changes nothing,
    and of two [setLength] in a row the second wins. *)
Theorem X_set_length_round_trip (i : Instruction) (len v w : IRValue) :
  MemOp.getLength i = Ret len ->
  MemOp.getLength (MemOp.setLength v i) = Ret v
  /\ (forall n, n <> 2%nat ->
        callArgs (MemOp.setLength v i) !! n = callArgs i !! n)
  /\ MemOp.getName (MemOp.setLength v i) = MemOp.getName i
  /\ opcode (Body (MemOp.setLength v i)) = opcode (Body i)
  /\ InstTy (MemOp.setLength v i) = InstTy i
  /\ Prof (MemOp.setLength v i) = Prof i
  /\ MemOp.setLength len i = i
  /\ MemOp.setLength v (MemOp.setLength w i) = MemOp.setLength v i.
Proof.
  unfold MemOp.getLength, MemOp.asCI, MemOp.setLength, MemOp.getName, MemOp.asMI,
    MemOp.getLibFunc, callArgs.
  destruct i as [b ty p par]. simpl.
  destruct b as [ID Args | C Args | | | |]; simpl; try discriminate;
    (destruct (Args !! 2%nat) as [x |] eqn:E; simpl; [| discriminate]);
    intros [= ->];
    assert (2 < length Args)%nat by (by eapply lookup_lt_Some).
  - rewrite list_lookup_insert_eq by done.
    split; [done |]. split; [intros n Hn; by rewrite list_lookup_insert_ne |].
    split; [done |]. split; [done |]. split; [done |]. split; [done |].
    split; [by rewrite list_insert_id |]. by rewrite list_insert_insert_eq.
  - rewrite list_lookup_insert_eq by done.
    split; [done |]. split; [intros n Hn; by rewrite list_lookup_insert_ne |].
    split; [done |]. split; [done |]. split; [done |]. split; [done |].
    split; [by rewrite list_insert_id |]. by rewrite list_insert_insert_eq.
Qed.

Lemma X_set_length_round_trip_witness :
  MemOp.getLength (MemOp.setLength (ConstantInt 64 16) (memcpyCall None))
  = Ret (ConstantInt 64 16)
  /\ MemOp.getName (MemOp.setLength (ConstantInt 64 16) (memcpyCall None)) = Some "memcpy".
Proof.
  destruct (X_set_length_round_trip (memcpyCall None) (InstVal 0) (ConstantInt 64 16)
              (ConstantInt 64 16) eq_refl) as (H1 & _ & H2 & _).
  exact (conj H1 H2).
Defined.

(** ** Sizes that are never selected *)

(** X16: whenever the planning loop returns, every
    size it selected is the value of a sample that the value-kind filter lets
    pass: with the old value profiling it is neither the marker of the large
    group (the large value, when that is not zero) nor the marker of the
    other group (one past the precise range); with the new one it is a value
    that the profile records on its own and, as a signed number, at most the
    largest size to optimise. *)
Theorem X_selected_sizes_pass_filter (cfg : Options) (A D : Z)
    (VDs : list InstrProfValueData) (pl : PlanState) :
  planLoop cfg A D VDs (initPlan A D) = Ret pl ->
  Forall (fun s =>
            exists vd, vd ∈ VDs /\ s = sizeOf vd
              /\ let V := toInt64 (Value vd) in
                 if UseOldMemOpValueProf cfg
                 then (V = MemOPSizeLarge cfg -> MemOPSizeLarge cfg = 0)
                      /\ V <> PreciseRangeLast cfg + 1
                 else InstrProfIsSingleValRange cfg (wrap64 V) = true
                      /\ V <= MemOpMaxOptSize cfg)
         (SizeIds pl).
Proof.
  intros H. apply planLoop_accepts in H as (acc & Hpre & _ & ->).
  destruct (acceptAll_lists (initPlan A D) acc) as [-> _]. simpl.
  apply Forall_fmap, Forall_forall. intros vd Hvd.
  assert (vd ∈ unskipped cfg VDs) as Hin.
  { destruct Hpre as [r ->]. by apply elem_of_app; left. }
  apply list_elem_of_filter in Hin as [Hs Hin].
  exists vd. split; [done |]. split; [done |]. simpl.
  unfold skipValue, getMemOPSizeKind in Hs.
  destruct (UseOldMemOpValueProf cfg).
  - apply negb_false_iff, bool_decide_eq_true in Hs.
    destruct (Z.eqb_spec (toInt64 (Value vd)) (MemOPSizeLarge cfg)) as [E |];
      destruct (Z.eqb_spec (MemOPSizeLarge cfg) 0); simpl in Hs; try discriminate;
      destruct (Z.eqb_spec (toInt64 (Value vd)) (PreciseRangeLast cfg + 1));
      try discriminate; split; (done || lia).
  - apply orb_false_iff in Hs as [Hs1 Hs2]. apply negb_false_iff in Hs1.
    split; [done |]. destruct (Z.gtb_spec (toInt64 (Value vd)) (MemOpMaxOptSize cfg));
      [discriminate | lia].
Qed.

Lemma X_selected_sizes_pass_filter_witness :
  exists pl,
    planLoop (exampleOptions false true) 10000 10000
      [VD 9 5000; VD 4 4500; VD 8 500] (initPlan 10000 10000) = Ret pl
    /\ SizeIds pl = [4]
    /\ Forall (fun s => exists vd, vd ∈ [VD 9 5000; VD 4 4500; VD 8 500] /\ s = sizeOf vd
                         /\ toInt64 (Value vd) <> 9)
         (SizeIds pl).
Proof.
  assert (exists pl,
             planLoop (exampleOptions false true) 10000 10000
               [VD 9 5000; VD 4 4500; VD 8 500] (initPlan 10000 10000) = Ret pl
             /\ SizeIds pl = [4]) as (pl & E & HS).
  { eexists. split; [vm_compute; reflexivity | reflexivity]. }
  exists pl. split; [exact E |]. split; [exact HS |].
  pose proof (X_selected_sizes_pass_filter (exampleOptions false true) 10000 10000
                [VD 9 5000; VD 4 4500; VD 8 500] pl E) as HF.
  eapply Forall_impl; [exact HF |].
  intros s (vd & Hin & Hs & _ & Hne). exists vd. exact (conj Hin (conj Hs Hne)).
Defined.

(** ** What the pass managers are told *)

(** X17: when [run] answers that all
    analyses are preserved, and when [runOnFunction] answers [false], the
    function, the block frequencies and the remarks are exactly as they were;
    otherwise [run] names the two analyses it keeps. *)
Theorem X_all_preserved_only_when_unchanged (cfg : Options) (st st' : State) :
  (run cfg st = Ret (PA_all, st') -> st' = st)
  /\ (runOnFunction cfg st = Ret (false, st') -> st' = st)
  /\ (forall pa, run cfg st = Ret (pa, st') ->
        pa = PA_all \/ pa = PA_preserve [GlobalsAA; DominatorTreeAnalysis]).
Proof.
  assert (forall s, PGOMemOPSizeOptImpl cfg st = Ret (false, s) -> s = st) as Himpl.
  { unfold PGOMemOPSizeOptImpl, performAll. intros s H.
    destruct (DisableMemOPOPT cfg); [by injection H |].
    destruct (OptimizeForSize (Func st)); [by injection H |].
    apply bind_Ret in H as (r & Hr & H). injection H as Hc <-.
    apply bind_Ret in Hr as (w & _ & Hr).
    apply performWorkList_stats in Hr as (_ & _ & HF & _).
    by destruct (HF Hc) as (_ & -> & _). }
  split; [| split].
  - unfold run. intros H. apply bind_Ret in H as ([b s] & Hr & H).
    destruct b; simpl in H; [discriminate |]. injection H as <-. by apply Himpl.
  - apply Himpl.
  - unfold run. intros pa H. apply bind_Ret in H as ([b s] & Hr & H).
    destruct b; simpl in H; injection H as <- <-; auto.
Qed.

Lemma X_all_preserved_only_when_unchanged_witness :
  run noCmpOptions cmpState = Ret (PA_all, cmpState) /\ cmpState = cmpState.
Proof.
  assert (E : run noCmpOptions cmpState = Ret (PA_all, cmpState))
    by (vm_compute; reflexivity).
  split; [exact E |].
  exact (proj1 (X_all_preserved_only_when_unchanged noCmpOptions cmpState cmpState) E).
Defined.

(** ** The blocks of the dispatch *)

Lemma splitBefore_spec I l a b :
  splitBefore I l = Some (a, b) ->
  l = a ++ b /\ (exists r, b = I :: r) /\ I ∉ a.
Proof.
  revert a b. induction l as [| x l IH]; intros a b H; simpl in H; [discriminate |].
  destruct (decide (x = I)) as [-> | Hne].
  - injection H as <- <-. split; [done |]. split; [eauto | apply not_elem_of_nil].
  - destruct (splitBefore I l) as [[a' b'] |]; [| discriminate].
    injection H as <- <-. destruct (IH _ _ eq_refl) as (-> & Hb & Ha).
    split; [done |]. split; [done |].
    apply not_elem_of_cons. split; [congruence | done].
Qed.

Lemma insertBeforeFirstNonPHI_spec F New l l' :
  insertBeforeFirstNonPHI F New l = Some l' ->
  exists phis rest,
    l = phis ++ rest
    /\ l' = phis ++ New :: rest
    /\ rest <> []
    /\ Forall (fun x => exists i, Instrs F !! x = Some i /\ isPHI (Body i) = true) phis.
Proof.
  revert l'. induction l as [| x l IH]; intros l' H; simpl in H; [discriminate |].
  destruct (Instrs F !! x) as [i |] eqn:E.
  - destruct (isPHI (Body i)) eqn:Hphi.
    + destruct (insertBeforeFirstNonPHI F New l) as [r' |]; [| discriminate].
      injection H as <-. destruct (IH _ eq_refl) as (phis & rest & -> & -> & Hne & HF).
      exists (x :: phis), rest. split; [done |]. split; [done |]. split; [done |].
      constructor; [eauto | done].
    + injection H as <-. exists [], (x :: l). by repeat split.
  - injection H as <-. exists [], (x :: l). by repeat split.
Qed.

(** The new instruction goes right before the first instruction that is not
    a phi node. *)
Lemma insertBeforeFirstNonPHI_first F New l l' :
  insertBeforeFirstNonPHI F New l = Some l' ->
  exists phis x rest,
    l = phis ++ x :: rest
    /\ l' = phis ++ New :: x :: rest
    /\ Forall (fun j => exists i, Instrs F !! j = Some i /\ isPHI (Body i) = true) phis
    /\ (forall i, Instrs F !! x = Some i -> isPHI (Body i) = false).
Proof.
  revert l'. induction l as [| y l IH]; intros l' H; simpl in H; [discriminate |].
  destruct (Instrs F !! y) as [i |] eqn:E.
  - destruct (isPHI (Body i)) eqn:Hphi.
    + destruct (insertBeforeFirstNonPHI F New l) as [r' |]; [| discriminate].
      injection H as <-. destruct (IH _ eq_refl) as (phis & x & rest & -> & -> & HF & Hx).
      exists (y :: phis), x, rest. split; [done |]. split; [done |].
      split; [| done]. constructor; [eauto | done].
    + injection H as <-. exists [], y, l. split; [done |]. split; [done |].
      split; [constructor |]. intros i' Hi'. congruence.
  - injection H as <-. exists [], y, l. split; [done |]. split; [done |].
    split; [constructor |]. intros i' Hi'. congruence.
Qed.

Lemma isPHI_opcode b b' : opcode b' = opcode b -> isPHI b' = isPHI b.
Proof. destruct b, b'; simpl; intros [=]; subst; done. Qed.

Lemma lookup_foldr_alter_notin (m : gmap nat Instruction) f l j :
  j ∉ l -> foldr (fun x m => alter f x m) m l !! j = m !! j.
Proof.
  induction l as [| x l IH]; simpl; [done |].
  intros [Hne Hnin]%not_elem_of_cons. by rewrite lookup_alter_ne, IH.
Qed.

Lemma filter_ne_snoc (l : list nat) T :
  T ∉ l -> filter (fun j => j ≠ T) (l ++ [T]) = l.
Proof.
  intros Hn. rewrite filter_app, filter_cons, decide_False by (intros ?; done).
  rewrite filter_nil, app_nil_r.
  induction l as [| x l IH]; [done |].
  apply not_elem_of_cons in Hn as [Hne Hn].
  rewrite filter_cons, decide_True by done. by rewrite IH.
Qed.

Lemma createPHI_blocks F MO ty D M F' P :
  createPHI F MO ty D M = Ret (F', P) ->
  exists mb insts,
    Blocks F !! M = Some mb
    /\ insertBeforeFirstNonPHI F P (Insts mb) = Some insts
    /\ Blocks F' = <[M := {| Name := Name mb; Insts := insts |}]> (Blocks F).
Proof.
  unfold createPHI, getBlock. intros H.
  destruct (Blocks F !! M) as [mb |] eqn:Hmb; [| discriminate]. simpl in H.
  destruct (insertBeforeFirstNonPHI _ _ _) as [insts |] eqn:Hins; [| discriminate].
  injection H as <- <-. exists mb, insts. done.
Qed.

Lemma parentKept_refl F : parentKept F F.
Proof. intros j i H. eauto. Qed.

Lemma parentKept_trans F G H : parentKept F G -> parentKept G H -> parentKept F H.
Proof.
  intros H1 H2 j i Hj. destruct (H1 _ _ Hj) as (i1 & Hj1 & E1).
  destruct (H2 _ _ Hj1) as (i2 & Hj2 & E2). exists i2. split; [done | congruence].
Qed.

Lemma parentKept_updateInst F I f :
  (forall i, Parent (f i) = Parent i) -> parentKept F (updateInst F I f).
Proof.
  intros Hf j i Hj. unfold updateInst. simpl.
  destruct (decide (I = j)) as [-> | Hne].
  - exists (f i). by rewrite lookup_alter_eq, Hj.
  - exists i. by rewrite lookup_alter_ne.
Qed.

Lemma parentKept_fresh F B i :
  parentKept F (appendInst F B (fresh (dom (Instrs F))) i).
Proof.
  intros j i0 Hj. unfold appendInst. simpl.
  assert (j <> fresh (dom (Instrs F))).
  { intros ->. apply (is_fresh (dom (Instrs F))). by apply elem_of_dom. }
  exists i0. by rewrite lookup_insert_ne.
Qed.

Lemma parentKept_createPHI F MO ty D M F' P :
  createPHI F MO ty D M = Ret (F', P) -> parentKept F F'.
Proof.
  intros H j i Hj. destruct (createPHI_lookup _ _ _ _ _ _ _ H) as (_ & _ & Hl).
  eexists. split; [by apply Hl | done].
Qed.

Lemma Parent_addCase k cb i : Parent (addCase k cb i) = Parent i.
Proof. unfold addCase. by destruct (Body i). Qed.

Lemma Parent_addIncoming v bb i : Parent (addIncoming v bb i) = Parent i.
Proof. unfold addIncoming. by destruct (Body i). Qed.

Lemma Parent_replaceIncomingBlock Old New i :
  Parent (replaceIncomingBlock Old New i) = Parent i.
Proof. unfold replaceIncomingBlock. by destruct (Body i). Qed.

Lemma parentKept_createCase cfg MO D M SI PHI F SizeId F' cb c :
  createCase cfg MO D M SI PHI F SizeId = Ret (F', (cb, c)) -> parentKept F F'.
Proof.
  intros H j i Hj.
  apply createCase_full in H
    as (orig & len & bits & br & _ & _ & _ & -> & -> & Hcbr & Hbr & _ & HI).
  assert (j ∈ dom (Instrs F)) as Hd by (by apply elem_of_dom).
  assert (br <> j) by (intros ->; done).
  assert (fresh (dom (Instrs F)) <> j).
  { intros E. apply (is_fresh (dom (Instrs F))). by rewrite E. }
  rewrite HI.
  set (m := <[br := _]> _).
  assert (m !! j = Some i) as Hm by (subst m; by rewrite !lookup_insert_ne).
  assert (exists i1, alter (addCase (caseValue bits SizeId) (fresh (dom (Blocks F)))) SI m !! j
                     = Some i1 /\ Parent i1 = Parent i) as (i1 & H1 & E1).
  { destruct (decide (SI = j)) as [-> | Hne].
    - rewrite lookup_alter_eq, Hm. simpl. eexists. split; [done | apply Parent_addCase].
    - rewrite lookup_alter_ne by done. eauto. }
  destruct PHI as [P |]; [| eauto].
  destruct (decide (P = j)) as [-> | Hne].
  - rewrite lookup_alter_eq, H1. simpl. eexists. split; [done |].
    by rewrite Parent_addIncoming.
  - rewrite lookup_alter_ne by done. eauto.
Qed.

Lemma parentKept_createCases cfg MO D M SI PHI SizeIds F F' cs :
  createCases cfg MO D M SI PHI SizeIds F = Ret (F', cs) -> parentKept F F'.
Proof.
  revert F F' cs. induction SizeIds as [| SizeId rest IH]; intros F F' cs H; simpl in H.
  - injection H as <- <-. apply parentKept_refl.
  - apply bind_Ret in H as ([F1 [cb c]] & H1 & H). simpl in H.
    apply bind_Ret in H as ([F2 cs'] & H2 & H). simpl in H.
    injection H as <- <-.
    eapply parentKept_trans; [by eapply parentKept_createCase | by eapply IH].
Qed.

Lemma lookup_foldr_setParent_in (m : gmap nat Instruction) p l j i :
  j ∈ l -> m !! j = Some i ->
  foldr (fun x m => alter (setParent p) x m) m l !! j = Some (setParent p i).
Proof.
  intros Hin Hj. induction l as [| x l IH]; [by apply elem_of_nil in Hin |].
  simpl. destruct (decide (x = j)) as [-> | Hne].
  - rewrite lookup_alter_eq.
    destruct (decide (j ∈ l)) as [Hl | Hl].
    + by rewrite (IH Hl).
    + by rewrite lookup_foldr_alter_notin, Hj.
  - rewrite lookup_alter_ne by done. apply IH.
    apply elem_of_cons in Hin as [-> | Hin]; [done | done].
Qed.

Lemma SplitBlock_lookup F Old I F' New bb before after j i :
  SplitBlock F Old I = Ret (F', New) ->
  Blocks F !! Old = Some bb ->
  splitBefore I (Insts bb) = Some (before, after) ->
  Instrs F !! j = Some i ->
  Instrs F' !! j
  = Some (if decide (j ∈ after)
          then setParent (Some New) (replaceIncomingBlock Old New i)
          else replaceIncomingBlock Old New i).
Proof.
  intros H Hbb Hsp Hj.
  apply SplitBlock_Ret in H as (bb' & before' & after' & Hbb' & Hsp' & _ & _ & HI).
  assert (bb' = bb) as -> by congruence.
  rewrite Hsp in Hsp'. injection Hsp' as <- <-.
  assert (j <> fresh (dom (Instrs F))).
  { intros ->. apply (is_fresh (dom (Instrs F))). by apply elem_of_dom. }
  rewrite HI, lookup_insert_ne by done.
  destruct (decide (j ∈ after)) as [Hin | Hnin].
  - apply lookup_foldr_setParent_in; [done |]. by rewrite lookup_fmap, Hj.
  - by rewrite lookup_foldr_alter_notin, lookup_fmap, Hj.
Qed.

(** The three blocks of the dispatch, for a call in a block without
    repeated instructions whose instructions all exist. *)
Lemma rewrite_blocks cfg st MO inst VDs pl CC MC Sum Tot info st' bb :
  rewrite cfg st MO inst VDs pl CC MC Sum Tot = Ret (info, st') ->
  Instrs (Func st) !! MO = Some inst ->
  Blocks (Func st) !! HeadBB info = Some bb ->
  NoDup (Insts bb) ->
  (forall j, j ∈ Insts bb -> j ∈ dom (Instrs (Func st))) ->
  exists before after br mi,
    Insts bb = before ++ MO :: after
    /\ after <> []
    /\ Blocks (Func st') !! HeadBB info
       = Some {| Name := Name bb; Insts := before ++ [Switch info] |}
    /\ Blocks (Func st') !! DefaultBB info
       = Some {| Name := "MemOP.Default"; Insts := [MO; br] |}
    /\ Instrs (Func st') !! br
       = Some {| Body := BranchInst (MergeBB info); InstTy := VoidTy; Prof := None;
                 Parent := Some (DefaultBB info) |}
    /\ Blocks (Func st') !! MergeBB info = Some {| Name := "MemOP.Merge"; Insts := mi |}
    /\ match PHI info with
       | None => mi = after
       | Some P => exists phis rest,
                     after = phis ++ rest /\ mi = phis ++ P :: rest /\ rest <> []
                     /\ Forall (fun j => exists i, Instrs (Func st) !! j = Some i
                                                    /\ isPHI (Body i) = true) phis
                     /\ exists x i, head rest = Some x
                                     /\ Instrs (Func st) !! x = Some i
                                     /\ isPHI (Body i) = false
       end
    /\ (br ∉ dom (Instrs (Func st)))
    /\ (forall j i, j ∈ before -> Instrs (Func st) !! j = Some i ->
          exists i', Instrs (Func st') !! j = Some i' /\ Parent i' = Parent i)
    /\ (exists fin, Instrs (Func st') !! MO = Some fin
                    /\ Parent fin = Some (DefaultBB info))
    /\ (forall j, j ∈ after ->
          exists i', Instrs (Func st') !! j = Some i' /\ Parent i' = Some (MergeBB info))
    /\ (exists si, Instrs (Func st') !! Switch info = Some si
                   /\ Parent si = Some (HeadBB info))
    /\ (forall P, PHI info = Some P ->
          (P ∉ dom (Instrs (Func st)))
          /\ exists phi, Instrs (Func st') !! P = Some phi
                         /\ Parent phi = Some (MergeBB info)).
Proof.
  unfold rewrite. intros H HMO Hbb Hnd Hdom.
  destruct (Parent inst) as [BB |] eqn:HP; [| discriminate].
  apply bind_Ret in H as ([F1 DefaultBB] & Hs1 & H). simpl in H.
  apply bind_Ret in H as (db & Hdb & H).
  pose proof (SplitBlock_dom _ _ _ _ _ Hs1) as [HDf HDd].
  pose proof Hs1 as Hs1'.
  apply SplitBlock_Ret in Hs1'
    as (bb' & before & after0 & Hbb' & Hsp & ED & HB1 & HI1).
  unfold getBlock in Hdb. rewrite HB1, lookup_insert_eq in Hdb.
  injection Hdb as <-. simpl in H.
  destruct (splitBefore_spec _ _ _ _ Hsp) as (Hl & [r ->] & HMOb).
  destruct r as [| It rest];
    try (unfold failed in H; destruct (NDEBUG cfg); discriminate).
  apply bind_Ret in H as ([F2 MergeBB] & Hs2 & H). simpl in H.
  destruct (getTerminator _ BB) as [T |] eqn:HT; [| discriminate].
  apply bind_Ret in H as (cur & Hcur & H).
  apply bind_Ret in H as (SizeVar & Hlen & H).
  apply bind_Ret in H as ([Fph PHI] & Hph & H). simpl in H.
  apply bind_Ret in H as ([Fcs cs] & Hcs & H). simpl in H.
  apply bind_Ret in H as (remarks & Hrem & H).
  injection H as <- <-. simpl in *.
  assert (bb' = bb) as -> by congruence.
  pose proof (head_terminator _ _ _ _ _ _ _ _ _ _ _ Hs1 Hs2 HT) as ET.
  pose proof (SplitBlock_dom _ _ _ _ _ Hs2) as [HMf HMd].
  set (T1 := fresh (dom (Instrs (Func st)))) in *.
  assert (Blocks F1 !! DefaultBB
          = Some {| Name := Name bb +:+ ".split"; Insts := MO :: It :: rest |}) as HF1D.
  { by rewrite HB1, lookup_insert_eq. }
  pose proof Hs2 as Hs2'.
  apply SplitBlock_Ret in Hs2'
    as (db & before' & after' & Hdb & Hsp' & EM & HB2 & HI2).
  rewrite HB1, lookup_insert_eq in Hdb. injection Hdb as <-. simpl in *.
  (* the second split is between the call and what follows it *)
  assert (MO <> It) as HMOIt.
  { rewrite Hl in Hnd. apply NoDup_app in Hnd as (_ & _ & Hnd).
    apply NoDup_cons in Hnd as [Hn _]. intros ->. apply Hn. by apply elem_of_cons; left. }
  assert (splitBefore It (MO :: It :: rest) = Some ([MO], It :: rest)) as Hsp2.
  { simpl. by rewrite decide_False, decide_True. }
  rewrite decide_False, decide_True in Hsp' by done. injection Hsp' as <- <-.
  set (T2 := fresh (dom (Instrs F1))) in *.
  subst T.
  set (Fn := setName (setName F2 MergeBB "MemOP.Merge") DefaultBB "MemOP.Default") in *.
  assert (BB ∈ dom (Blocks (Func st))) as HBBd by (by apply elem_of_dom).
  assert (BB <> DefaultBB) as HBD by (intros ->; done).
  assert (BB ∈ dom (Blocks F1)) as HBB1 by (rewrite HDd; by apply elem_of_union_r).
  assert (BB <> MergeBB) as HBM by (intros ->; done).
  assert (DefaultBB ∈ dom (Blocks F1)) as HD1.
  { rewrite HDd. by apply elem_of_union_l, elem_of_singleton. }
  assert (DefaultBB <> MergeBB) as HDM by (intros ->; done).
  (* the new instructions are none of the block *)
  assert (forall j, j ∈ Insts bb -> j <> T1) as Hfresh.
  { intros j Hj ->. apply (is_fresh (dom (Instrs (Func st)))). by apply Hdom. }
  assert (T1 ∉ before) as HT1b.
  { intros Hin. apply (Hfresh T1); [| done]. rewrite Hl. by apply elem_of_app; left. }
  assert (T1 ∉ It :: rest) as HT1r.
  { intros Hin. apply (Hfresh T1); [| done]. rewrite Hl.
    apply elem_of_app; right. by apply elem_of_cons; right. }
  assert (T1 ∈ dom (Instrs F1)) as HT1d.
  { rewrite HI1, dom_insert_L. by apply elem_of_union_l, elem_of_singleton. }
  assert (T1 <> T2) as HT12.
  { intros E. apply (is_fresh (dom (Instrs F1))). fold T2. by rewrite <- E. }
  assert (MO ∈ dom (Instrs F1)) as HMO1.
  { destruct (keptFrom_SplitBlock MO _ _ _ _ _ Hs1 _ _ HMO) as (i' & Hi' & _).
    by apply elem_of_dom. }
  assert (MO <> T2) as HMOT2.
  { intros E. apply (is_fresh (dom (Instrs F1))). fold T2. by rewrite <- E. }
  (* the blocks and the two branches after the splits *)
  assert (Blocks Fn !! BB = Some {| Name := Name bb; Insts := before ++ [T1] |}) as HnBB.
  { subst Fn. unfold setName. simpl. rewrite !lookup_alter_ne by done.
    rewrite HB2, !lookup_insert_ne by done.
    by rewrite HB1, lookup_insert_ne, lookup_insert_eq. }
  assert (Blocks Fn !! DefaultBB
          = Some {| Name := "MemOP.Default"; Insts := [MO; T2] |}) as HnD.
  { subst Fn. unfold setName. simpl. rewrite lookup_alter_eq, lookup_alter_ne by done.
    by rewrite HB2, lookup_insert_ne, lookup_insert_eq. }
  assert (Blocks Fn !! MergeBB
          = Some {| Name := "MemOP.Merge"; Insts := It :: rest |}) as HnM.
  { subst Fn. unfold setName. simpl. rewrite lookup_alter_ne, lookup_alter_eq by done.
    by rewrite HB2, lookup_insert_eq. }
  assert (Instrs Fn !! T1
          = Some {| Body := BranchInst DefaultBB; InstTy := VoidTy; Prof := None;
                    Parent := Some BB |}) as HnT1.
  { subst Fn. simpl. rewrite HI2, lookup_insert_ne by done.
    rewrite lookup_foldr_alter_notin by done.
    by rewrite lookup_fmap, HI1, lookup_insert_eq. }
  assert (Instrs Fn !! T2
          = Some {| Body := BranchInst MergeBB; InstTy := VoidTy; Prof := None;
                    Parent := Some DefaultBB |}) as HnT2.
  { subst Fn. simpl. by rewrite HI2, lookup_insert_eq. }
  (* the head loses its branch and gets the switch *)
  set (Ferase := eraseFromParent Fn T1) in *.
  assert (Blocks Ferase = alter (removeInst T1) BB (Blocks Fn)
          /\ Instrs Ferase = delete T1 (Instrs Fn)) as [HBe HIe].
  { subst Ferase. unfold eraseFromParent. by rewrite HnT1. }
  set (SI := fresh (dom (Instrs Ferase))) in *.
  set (sw := {| Body := SwitchInst SizeVar DefaultBB []; InstTy := VoidTy; Prof := None;
                Parent := None |}) in *.
  set (Fsw := appendInst Ferase BB SI sw) in *.
  assert (Instrs Ferase !! T2
          = Some {| Body := BranchInst MergeBB; InstTy := VoidTy; Prof := None;
                    Parent := Some DefaultBB |}) as HeT2.
  { by rewrite HIe, lookup_delete_ne. }
  assert (SI <> T2) as HSIT2.
  { intros E. apply (is_fresh (dom (Instrs Ferase))). fold SI. rewrite E.
    by apply elem_of_dom. }
  assert (Blocks Fsw !! BB = Some {| Name := Name bb; Insts := before ++ [SI] |}) as HsBB.
  { subst Fsw. unfold appendInst. simpl. rewrite lookup_alter_eq, HBe, lookup_alter_eq, HnBB.
    simpl. unfold removeInst. simpl. by rewrite filter_ne_snoc. }
  assert (Blocks Fsw !! DefaultBB
          = Some {| Name := "MemOP.Default"; Insts := [MO; T2] |}) as HsD.
  { subst Fsw. unfold appendInst. simpl. by rewrite lookup_alter_ne, HBe, lookup_alter_ne. }
  assert (Blocks Fsw !! MergeBB
          = Some {| Name := "MemOP.Merge"; Insts := It :: rest |}) as HsM.
  { subst Fsw. unfold appendInst. simpl. by rewrite lookup_alter_ne, HBe, lookup_alter_ne. }
  assert (Instrs Fsw !! T2
          = Some {| Body := BranchInst MergeBB; InstTy := VoidTy; Prof := None;
                    Parent := Some DefaultBB |}) as HsT2.
  { subst Fsw. unfold appendInst. simpl. by rewrite lookup_insert_ne. }
  (* where the instructions of the block are after the splits *)
  assert (NoDup (before ++ MO :: It :: rest)) as Hnd' by (by rewrite <- Hl).
  apply NoDup_app in Hnd' as (_ & Hdisj & Hnd2).
  assert (forall j, j ∈ Insts bb -> j <> T2) as Hfresh2.
  { intros j Hj ->. apply (is_fresh (dom (Instrs F1))). fold T2.
    destruct (elem_of_dom (Instrs (Func st)) T2) as [[i Hi] _]; [by apply Hdom |].
    destruct (keptFrom_SplitBlock MO _ _ _ _ _ Hs1 _ _ Hi) as (i' & Hi' & _).
    by apply elem_of_dom. }
  assert (T2 ∉ dom (Instrs (Func st))) as HT2f.
  { intros [i Hi]%elem_of_dom. apply (is_fresh (dom (Instrs F1))). fold T2.
    destruct (keptFrom_SplitBlock MO _ _ _ _ _ Hs1 _ _ Hi) as (i' & Hi' & _).
    by apply elem_of_dom. }
  assert (forall j, j ∈ dom (Instrs (Func st)) -> j <> T1 /\ j <> T2) as Hold.
  { intros j Hj. split; intros ->; [by apply (is_fresh (dom (Instrs (Func st)))) | done]. }
  assert (forall j i, Instrs (Func st) !! j = Some i ->
            Instrs Ferase !! j
            = Some (let i1 := if decide (j ∈ MO :: It :: rest)
                              then setParent (Some DefaultBB)
                                     (replaceIncomingBlock BB DefaultBB i)
                              else replaceIncomingBlock BB DefaultBB i in
                    if decide (j ∈ It :: rest)
                    then setParent (Some MergeBB)
                           (replaceIncomingBlock DefaultBB MergeBB i1)
                    else replaceIncomingBlock DefaultBB MergeBB i1)) as Hlook.
  { intros j i Hi.
    destruct (Hold j) as [Hj1 Hj2]; [by apply elem_of_dom |].
    rewrite HIe, lookup_delete_ne by done.
    pose proof (SplitBlock_lookup _ _ _ _ _ _ _ _ _ _ Hs1 Hbb Hsp Hi) as H1.
    exact (SplitBlock_lookup _ _ _ _ _ _ _ _ _ _ Hs2 HF1D Hsp2 H1). }
  assert (forall j i, j ∈ before -> Instrs (Func st) !! j = Some i ->
            exists i', Instrs Ferase !! j = Some i' /\ Parent i' = Parent i) as Hbefore.
  { intros j i Hj Hi.
    assert (j ∉ MO :: It :: rest) as Hj1 by (by apply Hdisj).
    assert (j ∉ It :: rest) as Hj2.
    { intros Hin. apply Hj1. by apply elem_of_cons; right. }
    rewrite (Hlook _ _ Hi). cbv zeta. rewrite !decide_False by done.
    eexists. split; [reflexivity |]. by rewrite !Parent_replaceIncomingBlock. }
  assert (exists i', Instrs Ferase !! MO = Some i' /\ Parent i' = Some DefaultBB) as HeMO.
  { assert (MO ∉ It :: rest) as HMOr by (by apply NoDup_cons in Hnd2 as [? _]).
    rewrite (Hlook _ _ HMO). cbv zeta.
    rewrite (decide_True (P := MO ∈ MO :: It :: rest)) by (by apply elem_of_cons; left).
    rewrite (decide_False (P := MO ∈ It :: rest)) by done.
    eexists. split; [reflexivity |]. by rewrite Parent_replaceIncomingBlock. }
  assert (forall j, j ∈ It :: rest ->
            exists i', Instrs Ferase !! j = Some i' /\ Parent i' = Some MergeBB) as Hafter.
  { intros j Hj.
    assert (j ∈ Insts bb) as Hjb.
    { rewrite Hl. apply elem_of_app; right. by apply elem_of_cons; right. }
    destruct (elem_of_dom (Instrs (Func st)) j) as [[i Hi] _]; [by apply Hdom |].
    rewrite (Hlook _ _ Hi). cbv zeta. rewrite (decide_True (P := j ∈ It :: rest)) by done.
    eexists. split; [reflexivity | done]. }
  assert (Instrs Fsw !! SI = Some (setParent (Some BB) sw)) as HsSI.
  { subst Fsw. unfold appendInst. simpl. by rewrite lookup_insert_eq. }
  assert (keptFrom MO (Func st) Ferase) as Kerase.
  { intros j i Hj.
    destruct (keptFrom_trans MO _ _ _ (keptFrom_SplitBlock MO _ _ _ _ _ Hs1)
                (keptFrom_SplitBlock MO _ _ _ _ _ Hs2) j i Hj) as (i' & Hj' & E).
    exists i'. split; [| done].
    rewrite HIe, lookup_delete_ne; [done |].
    intros <-. apply (is_fresh (dom (Instrs (Func st)))). by apply elem_of_dom. }
  assert (dom (Instrs (Func st)) ⊆ dom (Instrs Fsw)) as Hsub.
  { intros j [i Hi]%elem_of_dom.
    destruct (keptFrom_trans _ _ _ _ Kerase (keptFrom_fresh MO Ferase BB sw) _ _ Hi)
      as (i' & Hi' & _). by apply elem_of_dom. }
  (* the phi node goes into the merge block *)
  assert (Blocks Fph !! BB = Some {| Name := Name bb; Insts := before ++ [SI] |}
          /\ Blocks Fph !! DefaultBB
             = Some {| Name := "MemOP.Default"; Insts := [MO; T2] |}
          /\ Instrs Fph !! T2
             = Some {| Body := BranchInst MergeBB; InstTy := VoidTy; Prof := None;
                       Parent := Some DefaultBB |}
          /\ PHI <> Some T2
          /\ parentKept Fsw Fph
          /\ (forall P, PHI = Some P ->
                (P ∉ dom (Instrs (Func st)))
                /\ exists phi, Instrs Fph !! P = Some phi /\ Parent phi = Some MergeBB)
          /\ exists mi,
               Blocks Fph !! MergeBB = Some {| Name := "MemOP.Merge"; Insts := mi |}
               /\ match PHI with
                  | None => mi = It :: rest
                  | Some P => exists phis rest0,
                                It :: rest = phis ++ rest0 /\ mi = phis ++ P :: rest0
                                /\ rest0 <> []
                                /\ Forall (fun j => exists i, Instrs (Func st) !! j = Some i
                                                               /\ isPHI (Body i) = true) phis
                                /\ exists x i, head rest0 = Some x
                                                /\ Instrs (Func st) !! x = Some i
                                                /\ isPHI (Body i) = false
                  end) as (HpBB & HpD & HpT2 & HPT2 & Pph & HPphi & mi & HpM & Hmi).
  { destruct (bool_decide (InstTy inst = VoidTy)).
    - injection Hph as <- <-. repeat (split; [done |]).
      split; [apply parentKept_refl |]. split; [done |]. by exists (It :: rest).
    - apply bind_Ret in Hph as ([Fp P] & Hc & Hph). simpl in Hph.
      injection Hph as <- <-.
      destruct (createPHI_lookup _ _ _ _ _ _ _ Hc) as (HPf & _ & Hl').
      destruct (createPHI_blocks _ _ _ _ _ _ _ Hc) as (mb & insts & Hmb & Hins & HBp).
      rewrite HsM in Hmb. injection Hmb as <-.
      apply insertBeforeFirstNonPHI_first in Hins as (phis & x & rest0 & E1 & E2 & HFphi & Hx).
      simpl in E1.
      assert (forall j, j ∈ It :: rest ->
                exists i i', Instrs (Func st) !! j = Some i /\ Instrs Fsw !! j = Some i'
                             /\ isPHI (Body i') = isPHI (Body i)) as Hsame.
      { intros j Hj.
        assert (j ∈ Insts bb) as Hjb.
        { rewrite Hl. apply elem_of_app; right. by apply elem_of_cons; right. }
        destruct (elem_of_dom (Instrs (Func st)) j) as [[i Hi] _]; [by apply Hdom |].
        destruct (keptFrom_trans _ _ _ _ Kerase (keptFrom_fresh MO Ferase BB sw) _ _ Hi)
          as (i' & Hi' & (Ho & _) & _).
        exists i, i'. split; [done |]. split; [done |]. by apply isPHI_opcode. }
      assert (Forall (fun j => exists i, Instrs (Func st) !! j = Some i
                                         /\ isPHI (Body i) = true) phis) as HFst.
      { apply Forall_forall. intros j Hj.
        destruct (Hsame j) as (i & i' & Hi & Hi' & Ep).
        { rewrite E1. by apply elem_of_app; left. }
        rewrite Forall_forall in HFphi. destruct (HFphi j Hj) as (i2 & Hi2 & Ep2).
        exists i. split; [done |]. congruence. }
      assert (exists i, Instrs (Func st) !! x = Some i /\ isPHI (Body i) = false) as Hxst.
      { destruct (Hsame x) as (i & i' & Hi & Hi' & Ep).
        { rewrite E1. apply elem_of_app; right. by apply elem_of_cons; left. }
        exists i. split; [done |]. rewrite <- Ep. by apply Hx. }
      rewrite HBp, !lookup_insert_ne, lookup_insert_eq by done.
      split; [done |]. split; [done |]. split; [by rewrite (Hl' _ _ HsT2) |].
      split.
      { intros [= ->]. apply HPf. by apply elem_of_dom. }
      split; [by eapply parentKept_createPHI |].
      split.
      { intros P' [= <-]. split; [intros Hin; by apply HPf, Hsub |].
        destruct (createPHI_Ret _ _ _ _ _ _ _ Hc) as (_ & _ & (phi & Hphi & _ & HPp & _) & _).
        { destruct HeMO as (i' & Hi' & _). exists i'. subst Fsw. unfold appendInst. simpl.
          rewrite lookup_insert_ne; [done |].
          intros E. apply (is_fresh (dom (Instrs Ferase))). fold SI. rewrite E.
          by apply elem_of_dom. }
        eauto. }
      destruct Hxst as (ix & Hix & Hxn).
      eexists. split; [reflexivity |]. exists phis, (x :: rest0).
      split; [done |]. split; [done |]. split; [done |]. split; [done |].
      by exists x, ix. }
  set (Fmd := if _ || _ then _ else _) in *.
  assert (Blocks Fmd = Blocks Fph) as HBmd by (subst Fmd; by destruct (_ || _)).
  assert (Instrs Fmd !! T2
          = Some {| Body := BranchInst MergeBB; InstTy := VoidTy; Prof := None;
                    Parent := Some DefaultBB |}) as HmT2.
  { subst Fmd. destruct (_ || _); unfold updateInst; simpl;
      by rewrite !lookup_alter_ne. }
  assert (parentKept Fph Fmd) as Pmd.
  { subst Fmd. destruct (_ || _).
    - apply (parentKept_trans Fph (updateInst Fph MO (setProf None)));
        by apply parentKept_updateInst.
    - by apply parentKept_updateInst. }
  assert (parentKept Ferase (updateInst Fcs SI (setProfMetadata CC MC))) as Pall.
  { eapply parentKept_trans; [apply parentKept_fresh |]. fold SI. fold Fsw.
    eapply parentKept_trans; [exact Pph |].
    eapply parentKept_trans; [exact Pmd |].
    eapply parentKept_trans; [by eapply parentKept_createCases |].
    by apply parentKept_updateInst. }
  assert (parentKept Fsw (updateInst Fcs SI (setProfMetadata CC MC))) as Psw.
  { eapply parentKept_trans; [exact Pph |].
    eapply parentKept_trans; [exact Pmd |].
    eapply parentKept_trans; [by eapply parentKept_createCases |].
    by apply parentKept_updateInst. }
  assert (parentKept Fph (updateInst Fcs SI (setProfMetadata CC MC))) as Pphf.
  { eapply parentKept_trans; [exact Pmd |].
    eapply parentKept_trans; [by eapply parentKept_createCases |].
    by apply parentKept_updateInst. }
  exists before, (It :: rest), T2, mi.
  split; [done |]. split; [done |].
  split; [eapply createCases_blocks_lookup; [exact Hcs | by rewrite HBmd] |].
  split; [eapply createCases_blocks_lookup; [exact Hcs | by rewrite HBmd] |].
  split.
  { rewrite lookup_alter_ne by done.
    eapply createCases_lookup; [exact Hcs | exact HmT2 | done | done]. }
  split; [eapply createCases_blocks_lookup; [exact Hcs | by rewrite HBmd] |].
  split; [done |]. split; [done |].
  split.
  { intros j i Hj Hi. destruct (Hbefore j i Hj Hi) as (i1 & Hi1 & E1).
    destruct (Pall _ _ Hi1) as (i2 & Hi2 & E2). exists i2. split; [done | congruence]. }
  split.
  { destruct HeMO as (i1 & Hi1 & E1).
    destruct (Pall _ _ Hi1) as (i2 & Hi2 & E2). exists i2. split; [done | congruence]. }
  split.
  { intros j Hj. destruct (Hafter j Hj) as (i1 & Hi1 & E1).
    destruct (Pall _ _ Hi1) as (i2 & Hi2 & E2). exists i2. split; [done | congruence]. }
  split.
  { destruct (Psw _ _ HsSI) as (i2 & Hi2 & E2). exists i2. split; [done |].
    by rewrite E2. }
  intros P EPHI. destruct (HPphi P EPHI) as (HPf & phi & Hphi & EP).
  split; [done |].
  destruct (Pphf _ _ Hphi) as (i2 & Hi2 & E2). exists i2. split; [done | congruence].
Qed.

Lemma createCases_dom_blocks cfg MO D M SI PHI SizeIds F F' cs :
  createCases cfg MO D M SI PHI SizeIds F = Ret (F', cs) ->
  dom (Blocks F') = list_to_set cs.*1 ∪ dom (Blocks F).
Proof.
  revert F F' cs. induction SizeIds as [| SizeId rest IH]; intros F F' cs H; simpl in H.
  - injection H as <- <-. simpl. by rewrite union_empty_l_L.
  - apply bind_Ret in H as ([F1 [cb c]] & H1 & H). simpl in H.
    apply bind_Ret in H as ([F2 cs'] & H2 & H). simpl in H.
    injection H as <- <-. rewrite (IH _ _ _ H2).
    apply createCase_full in H1
      as (orig & len & bits & br & _ & _ & _ & _ & _ & _ & _ & HB & _).
    rewrite HB, dom_insert_L. simpl.
    apply set_eq. intros x. rewrite !elem_of_union, !elem_of_singleton.
    split; [intros [? | [? | ?]] | intros [[? | ?] | ?]]; auto.
Qed.

Lemma rewrite_dom_blocks cfg st MO inst VDs pl CC MC Sum Tot info st' :
  rewrite cfg st MO inst VDs pl CC MC Sum Tot = Ret (info, st') ->
  dom (Blocks (Func st'))
  = list_to_set (DefaultBB info :: MergeBB info :: (CaseBBs info).*1)
      ∪ dom (Blocks (Func st))
  /\ NoDup (DefaultBB info :: MergeBB info :: (CaseBBs info).*1)
  /\ (forall b, b ∈ DefaultBB info :: MergeBB info :: (CaseBBs info).*1 ->
        b ∉ dom (Blocks (Func st)))
  /\ HeadBB info ∈ dom (Blocks (Func st)).
Proof.
  intros H.
  apply rewrite_Ret in H
    as (F1 & F2 & Fsw & Fph & Fmd & Fcs & HP & _ & _ & Hs1 & [It Hs2] & HMO & Hdsw
        & Hph & HBmd & _ & Hcs & Hfin & _).
  pose proof (SplitBlock_dom _ _ _ _ _ Hs1) as [HDf HDd].
  pose proof (SplitBlock_dom _ _ _ _ _ Hs2) as [HMf HMd].
  assert (dom (Blocks Fph) = dom (Blocks Fsw)) as Hdph.
  { destruct Hph as [(_ & _ & ->) | (_ & P & _ & Hphi)]; [done |].
    by destruct (createPHI_Ret _ _ _ _ _ _ _ Hphi HMO) as (_ & _ & _ & _ & ? & _). }
  assert (dom (Blocks Fmd) = {[MergeBB info]} ∪ ({[DefaultBB info]} ∪ dom (Blocks (Func st))))
    as Hdmd by (by rewrite HBmd, Hdph, Hdsw, HMd, HDd).
  destruct (createCases_spec _ _ _ _ _ _ _ _ _ _ Hcs) as (_ & Hnd & Hfresh & _).
  assert (HeadBB info ∈ dom (Blocks (Func st))) as HH.
  { apply SplitBlock_Ret in Hs1 as (bb & ? & ? & Hbb & _). by apply elem_of_dom. }
  split; [| split; [| split; [| done]]].
  - rewrite Hfin. unfold updateInst. simpl.
    rewrite (createCases_dom_blocks _ _ _ _ _ _ _ _ _ _ Hcs), Hdmd. simpl.
    apply set_eq. intros x. rewrite !elem_of_union, !elem_of_singleton.
    split; [intros [? | [? | [? | ?]]] | intros [[? | [? | ?]] | ?]]; auto.
  - apply NoDup_cons. split.
    { intros [E | Hin]%elem_of_cons.
      - apply HMf. rewrite <- E, HDd. by apply elem_of_union_l, elem_of_singleton.
      - apply (Hfresh _ Hin). rewrite Hdmd.
        by apply elem_of_union_r, elem_of_union_l, elem_of_singleton. }
    apply NoDup_cons. split; [| done].
    intros Hin. apply (Hfresh _ Hin). rewrite Hdmd.
    by apply elem_of_union_l, elem_of_singleton.
  - intros b [-> | [-> | Hin]%elem_of_cons]%elem_of_cons; [done | |].
    + intros Hb. apply HMf. rewrite HDd. by apply elem_of_union_r.
    + intros Hb. apply (Hfresh _ Hin). rewrite Hdmd. by do 2 apply elem_of_union_r.
Qed.

(** X18: a successful rewrite adds to the function exactly the
    default block, the merge block and the case blocks, which are new and
    pairwise different.  When the block of the call has no instruction twice
    and only instructions of the function, the call splits it in three: the
    head keeps its name and the instructions before the call and ends in the
    switch; the default block, named [MemOP.Default], holds the call and a
    branch to the merge block; the merge block, named [MemOP.Merge], holds
    the instructions that followed the call, of which there is at least one,
    and the new phi node when there is one: it stands after the phi nodes
    that begin them, all of them, and right before the first instruction that
    is not a phi node. *)
Theorem X_dispatch_blocks (cfg : Options) (st st' : State) (MO : InstId)
    (info : RewriteInfo) (bb : BasicBlock) :
  performInfo cfg st MO = Ret (Some info, st') ->
  (dom (Blocks (Func st'))
   = list_to_set (DefaultBB info :: MergeBB info :: (CaseBBs info).*1)
       ∪ dom (Blocks (Func st))
   /\ NoDup (DefaultBB info :: MergeBB info :: (CaseBBs info).*1)
   /\ (forall b, b ∈ DefaultBB info :: MergeBB info :: (CaseBBs info).*1 ->
         b ∉ dom (Blocks (Func st))))
  /\ (Blocks (Func st) !! HeadBB info = Some bb ->
      NoDup (Insts bb) ->
      (forall j, j ∈ Insts bb -> j ∈ dom (Instrs (Func st))) ->
      exists before after br mi,
        Insts bb = before ++ MO :: after
        /\ after <> []
        /\ Blocks (Func st') !! HeadBB info
           = Some {| Name := Name bb; Insts := before ++ [Switch info] |}
        /\ Blocks (Func st') !! DefaultBB info
           = Some {| Name := "MemOP.Default"; Insts := [MO; br] |}
        /\ Instrs (Func st') !! br
           = Some {| Body := BranchInst (MergeBB info); InstTy := VoidTy; Prof := None;
                     Parent := Some (DefaultBB info) |}
        /\ Blocks (Func st') !! MergeBB info
           = Some {| Name := "MemOP.Merge"; Insts := mi |}
        /\ match PHI info with
           | None => mi = after
           | Some P => exists phis rest,
                         after = phis ++ rest /\ mi = phis ++ P :: rest /\ rest <> []
                         /\ Forall (fun j => exists i, Instrs (Func st) !! j = Some i
                                                        /\ isPHI (Body i) = true) phis
                         /\ exists x i, head rest = Some x
                                         /\ Instrs (Func st) !! x = Some i
                                         /\ isPHI (Body i) = false
           end).
Proof.
  intros H.
  apply performInfo_Some in H as (inst & VDs & T & a & pl & HI & _ & _ & _ & _ & H).
  split.
  - by destruct (rewrite_dom_blocks _ _ _ _ _ _ _ _ _ _ _ _ H) as (? & ? & ? & _).
  - intros Hbb Hnd Hdom.
    destruct (rewrite_blocks _ _ _ _ _ _ _ _ _ _ _ _ _ H HI Hbb Hnd Hdom)
      as (before & after & br & mi & H1 & H2 & H3 & H4 & H5 & H6 & H7 & _).
    exists before, after, br, mi. done.
Qed.

Lemma X_dispatch_blocks_witness :
  exists info st' br before after mi P,
    performInfo (exampleOptions false true) cmpState 1%nat = Ret (Some info, st')
    /\ [0; 1; 2; 3]%nat = before ++ 1%nat :: after
    /\ Blocks (Func st') !! HeadBB info
       = Some {| Name := "entry"; Insts := before ++ [Switch info] |}
    /\ Blocks (Func st') !! DefaultBB info
       = Some {| Name := "MemOP.Default"; Insts := [1%nat; br] |}
    /\ Blocks (Func st') !! MergeBB info = Some {| Name := "MemOP.Merge"; Insts := mi |}
    /\ PHI info = Some P
    /\ exists phis rest,
         after = phis ++ rest /\ mi = phis ++ P :: rest /\ rest <> []
         /\ Forall (fun j => exists i, Instrs (Func cmpState) !! j = Some i
                                        /\ isPHI (Body i) = true) phis
         /\ exists x i, head rest = Some x
                         /\ Instrs (Func cmpState) !! x = Some i
                         /\ isPHI (Body i) = false.
Proof.
  assert (exists info st' P,
             performInfo (exampleOptions false true) cmpState 1%nat = Ret (Some info, st')
             /\ HeadBB info = 0%nat /\ PHI info = Some P)
    as (info & st' & P & E & Hh & HP).
  { do 3 eexists. split; [vm_compute; reflexivity | split; reflexivity]. }
  destruct (X_dispatch_blocks (exampleOptions false true) cmpState st' 1%nat info
              {| Name := "entry"; Insts := [0; 1; 2; 3]%nat |} E) as [_ Hb].
  destruct Hb as (before & after & br & mi & Hl & _ & HBB & HD & _ & HM & Hphi).
  - rewrite Hh. reflexivity.
  - simpl. clear. apply NoDup_ListNoDup. repeat constructor; simpl; intuition lia.
  - simpl. clear. intros j Hj. apply elem_of_dom.
    repeat (apply elem_of_cons in Hj as [-> | Hj]); try (eexists; reflexivity).
    destruct (not_elem_of_nil _ Hj).
  - rewrite HP in Hphi.
    exists info, st', br, before, after, mi, P.
    exact (conj E (conj Hl (conj HBB (conj HD (conj HM (conj HP Hphi)))))).
Defined.

(** ** [perform] returns on well-formed call sites *)

Lemma splitBefore_elem I l :
  I ∈ l -> exists a r, splitBefore I l = Some (a, I :: r) /\ l = a ++ I :: r.
Proof.
  induction l as [| x l IH]; intros Hin; [by apply elem_of_nil in Hin |].
  simpl. destruct (decide (x = I)) as [-> | Hne].
  - exists [], l. done.
  - apply elem_of_cons in Hin as [-> | Hin]; [done |].
    destruct (IH Hin) as (a & r & -> & ->). exists (x :: a), r. done.
Qed.

Lemma insertBeforeFirstNonPHI_total F New l x :
  x ∈ l ->
  (forall i, Instrs F !! x = Some i -> isPHI (Body i) = false) ->
  is_Some (insertBeforeFirstNonPHI F New l).
Proof.
  intros Hin Hx. induction l as [| y l IH]; [by apply elem_of_nil in Hin |].
  simpl. destruct (Instrs F !! y) as [i |] eqn:E; [| eauto].
  destruct (isPHI (Body i)) eqn:Hphi; [| eauto].
  apply elem_of_cons in Hin as [-> | Hin].
  - rewrite (Hx _ E) in Hphi. discriminate.
  - destruct (IH Hin) as [r ->]. eauto.
Qed.

Lemma isCandidate_getName inst :
  isCandidate inst = true -> is_Some (MemOp.getName inst).
Proof.
  unfold isCandidate, MemOp.getName, MemOp.asMI, MemOp.getLibFunc.
  destruct (Body inst) as [ID Args | [C |] Args | | | |]; try discriminate; [eauto |].
  intros [Hc _]%andb_true_iff.
  apply orb_true_iff in Hc as [Hc | Hc]; apply bool_decide_eq_true in Hc; subst; eauto.
Qed.

Lemma isCandidate_not_terminator inst :
  isCandidate inst = true -> isTerminator (Body inst) = false.
Proof. unfold isCandidate. by destruct (Body inst) as [| [|] | | | |]. Qed.

Lemma isTerminator_opcode b b' :
  opcode b' = opcode b -> isTerminator b' = isTerminator b.
Proof. destruct b, b'; simpl; intros [=]; subst; done. Qed.

Lemma isTerminator_not_PHI b : isTerminator b = true -> isPHI b = false.
Proof. by destruct b. Qed.

(** The case blocks are made whenever the call is there with a length of
    integer type. *)
Lemma createCases_total cfg MO D M SI PHI SizeIds F call len bits :
  Instrs F !! MO = Some call ->
  MO <> SI ->
  PHI <> Some MO ->
  MemOp.getLength call = Ret len ->
  getType F len = Ret (IntegerTy bits) ->
  exists F' cs, createCases cfg MO D M SI PHI SizeIds F = Ret (F', cs).
Proof.
  revert F. induction SizeIds as [| SizeId rest IH]; intros F HMO HSI HP Hlen Hty; simpl.
  { eauto. }
  assert (exists F1 cb c, createCase cfg MO D M SI PHI F SizeId = Ret (F1, (cb, c)))
    as (F1 & cb & c & H1).
  { unfold createCase, getInst. simpl. rewrite HMO. simpl.
    rewrite getLength_clone, Hlen. simpl.
    rewrite (getType_Instrs _ F) by done. rewrite Hty. simpl. eauto. }
  rewrite H1. simpl.
  pose proof (keptFrom_createCase MO _ _ _ _ _ _ _ _ _ _ _ H1) as K1.
  assert (Instrs F1 !! MO = Some call) as HMO1.
  { apply createCase_full in H1
      as (orig & len' & bits' & br & _ & _ & _ & -> & -> & Hcbr & Hbr & _ & HI).
    assert (MO ∈ dom (Instrs F)) as Hd by (by apply elem_of_dom).
    assert (br <> MO) by (intros ->; done).
    assert (fresh (dom (Instrs F)) <> MO).
    { intros E. apply (is_fresh (dom (Instrs F))). by rewrite E. }
    rewrite HI. destruct PHI as [P |].
    - assert (P <> MO) by congruence.
      by rewrite !lookup_alter_ne, !lookup_insert_ne.
    - by rewrite !lookup_alter_ne, !lookup_insert_ne. }
  destruct (IH F1 HMO1 HSI HP Hlen (getType_keptFrom _ _ _ _ _ K1 Hty)) as (F' & cs & ->).
  simpl. eauto.
Qed.

(** The rewrite of a well-formed call site goes through, whatever the plan. *)
Lemma rewrite_total cfg st MO inst BB bb VDs pl CC MC Sum Tot :
  siteOk st MO inst BB bb ->
  exists info st', rewrite cfg st MO inst VDs pl CC MC Sum Tot = Ret (info, st').
Proof.
  intros [HMO Hcand HP Hbb Hin Hnd Hdom (t & ti & Hlast & Ht & Hterm)
            (len & bits & Hlen & Hlne & Hty)].
  unfold rewrite. rewrite HP.
  (* the first split *)
  destruct (splitBefore_elem MO (Insts bb) Hin) as (before & r & Hsp & Hl).
  assert (exists F1 D, SplitBlock (Func st) BB MO = Ret (F1, D)) as (F1 & D & Hs1).
  { unfold SplitBlock, getBlock. rewrite Hbb. simpl. rewrite Hsp. eauto. }
  rewrite Hs1. simpl.
  pose proof (SplitBlock_dom _ _ _ _ _ Hs1) as [HDf HDd].
  pose proof Hs1 as Hs1'.
  apply SplitBlock_Ret in Hs1'
    as (bb' & before' & after0 & Hbb' & Hsp' & ED & HB1 & HI1).
  assert (bb' = bb) as -> by congruence.
  rewrite Hsp in Hsp'. injection Hsp' as <- <-.
  unfold getBlock at 1. rewrite HB1, lookup_insert_eq. simpl.
  (* the call is not the last instruction of its block *)
  destruct r as [| It rest].
  { exfalso. rewrite Hl, last_snoc in Hlast. injection Hlast as <-.
    rewrite HMO in Ht. injection Ht as <-.
    by rewrite (isCandidate_not_terminator _ Hcand) in Hterm. }
  assert (MO <> It) as HMOIt.
  { rewrite Hl in Hnd. apply NoDup_app in Hnd as (_ & _ & Hnd).
    apply NoDup_cons in Hnd as [Hn _]. intros ->. apply Hn. by apply elem_of_cons; left. }
  (* the second split *)
  assert (exists F2 M, SplitBlock F1 D It = Ret (F2, M)) as (F2 & M & Hs2).
  { unfold SplitBlock, getBlock. rewrite HB1, lookup_insert_eq. simpl.
    rewrite decide_False, decide_True by done. eauto. }
  rewrite Hs2. simpl.
  pose proof (SplitBlock_dom _ _ _ _ _ Hs2) as [HMf HMd].
  pose proof Hs2 as Hs2'.
  apply SplitBlock_Ret in Hs2'
    as (db & before' & after' & Hdb & Hsp' & EM & HB2 & HI2).
  rewrite HB1, lookup_insert_eq in Hdb. injection Hdb as <-. simpl in Hsp', HB2, HI2.
  rewrite decide_False, decide_True in Hsp' by done. injection Hsp' as <- <-.
  set (T1 := fresh (dom (Instrs (Func st)))) in *.
  set (T2 := fresh (dom (Instrs F1))) in *.
  set (Fn := setName (setName F2 M "MemOP.Merge") D "MemOP.Default") in *.
  assert (BB ∈ dom (Blocks (Func st))) as HBBd by (by apply elem_of_dom).
  assert (BB <> D) as HBD by (intros ->; done).
  assert (BB ∈ dom (Blocks F1)) as HBB1 by (rewrite HDd; by apply elem_of_union_r).
  assert (BB <> M) as HBM by (intros ->; done).
  assert (D ∈ dom (Blocks F1)) as HD1.
  { rewrite HDd. by apply elem_of_union_l, elem_of_singleton. }
  assert (D <> M) as HDM by (intros ->; done).
  assert (forall j, j ∈ Insts bb -> j <> T1) as Hfresh.
  { intros j Hj ->. apply (is_fresh (dom (Instrs (Func st)))). by apply Hdom. }
  assert (T1 ∉ It :: rest) as HT1r.
  { intros Hi. apply (Hfresh T1); [| done]. rewrite Hl.
    apply elem_of_app; right. by apply elem_of_cons; right. }
  assert (T1 ∈ dom (Instrs F1)) as HT1d.
  { rewrite HI1, dom_insert_L. by apply elem_of_union_l, elem_of_singleton. }
  assert (T1 <> T2) as HT12.
  { intros E. apply (is_fresh (dom (Instrs F1))). fold T2. by rewrite <- E. }
  assert (Blocks Fn !! BB = Some {| Name := Name bb; Insts := before ++ [T1] |}) as HnBB.
  { subst Fn. unfold setName. simpl. rewrite !lookup_alter_ne by done.
    rewrite HB2, !lookup_insert_ne by done.
    by rewrite HB1, lookup_insert_ne, lookup_insert_eq. }
  assert (Blocks Fn !! M = Some {| Name := "MemOP.Merge"; Insts := It :: rest |}) as HnM.
  { subst Fn. unfold setName. simpl. rewrite lookup_alter_ne, lookup_alter_eq by done.
    by rewrite HB2, lookup_insert_eq. }
  assert (Instrs Fn !! T1
          = Some {| Body := BranchInst D; InstTy := VoidTy; Prof := None;
                    Parent := Some BB |}) as HnT1.
  { subst Fn. simpl. rewrite HI2, lookup_insert_ne by done.
    rewrite lookup_foldr_alter_notin by done.
    by rewrite lookup_fmap, HI1, lookup_insert_eq. }
  (* the head ends in the branch of the first split *)
  assert (getTerminator Fn BB = Some T1) as HT.
  { unfold getTerminator. rewrite HnBB. cbn [Insts]. by rewrite last_snoc, HnT1. }
  rewrite HT.
  set (Ferase := eraseFromParent Fn T1) in *.
  assert (Blocks Ferase = alter (removeInst T1) BB (Blocks Fn)
          /\ Instrs Ferase = delete T1 (Instrs Fn)) as [HBe HIe].
  { subst Ferase. unfold eraseFromParent. by rewrite HnT1. }
  assert (keptFrom MO (Func st) Ferase) as Kerase.
  { intros j i Hj.
    destruct (keptFrom_trans MO _ _ _ (keptFrom_SplitBlock MO _ _ _ _ _ Hs1)
                (keptFrom_SplitBlock MO _ _ _ _ _ Hs2) j i Hj) as (i' & Hj' & E).
    exists i'. split; [| done].
    rewrite HIe, lookup_delete_ne; [done |].
    intros <-. apply (is_fresh (dom (Instrs (Func st)))). by apply elem_of_dom. }
  assert (exists cur, Instrs Ferase !! MO = Some cur /\ MemOp.getLength cur = Ret len)
    as (cur & Hcur & Hlcur).
  { destruct (SplitBlock_getLength _ _ _ _ _ _ _ Hs1 HMO) as (i1 & H1 & E1).
    destruct (SplitBlock_getLength _ _ _ _ _ _ _ Hs2 H1) as (i2 & H2 & E2).
    exists i2. split; [| congruence].
    rewrite HIe, lookup_delete_ne; [done |].
    intros <-. apply (is_fresh (dom (Instrs (Func st)))). by apply elem_of_dom. }
  unfold getInst at 1. rewrite Hcur. simpl. rewrite Hlcur. simpl.
  set (SI := fresh (dom (Instrs Ferase))) in *.
  set (sw := {| Body := SwitchInst len D []; InstTy := VoidTy; Prof := None;
                Parent := None |}) in *.
  set (Fsw := appendInst Ferase BB SI sw) in *.
  assert (keptFrom MO (Func st) Fsw) as Ksw.
  { eapply keptFrom_trans; [exact Kerase | apply keptFrom_fresh]. }
  assert (MO <> SI) as HMOSI.
  { intros E. apply (is_fresh (dom (Instrs Ferase))). fold SI. rewrite <- E.
    by apply elem_of_dom. }
  assert (Instrs Fsw !! MO = Some cur) as HswMO.
  { subst Fsw. unfold appendInst. simpl. by rewrite lookup_insert_ne. }
  assert (Blocks Fsw !! M = Some {| Name := "MemOP.Merge"; Insts := It :: rest |}) as HsM.
  { subst Fsw. unfold appendInst. simpl. by rewrite lookup_alter_ne, HBe, lookup_alter_ne. }
  (* the phi node *)
  assert (exists Fph PHI,
             (if bool_decide (InstTy inst = VoidTy) then Ret (Fsw, None)
              else r <- createPHI Fsw MO (InstTy inst) D M ;; Ret (r.1, Some r.2))
             = Ret (Fph, PHI)
             /\ PHI <> Some MO
             /\ keptFrom MO Fsw Fph
             /\ exists iph, Instrs Fph !! MO = Some iph /\ MemOp.getLength iph = Ret len)
    as (Fph & PHI & Hph & HPMO & Kph & iph & Hiph & Hliph).
  { destruct (bool_decide (InstTy inst = VoidTy)).
    - exists Fsw, None. split; [done |]. split; [done |].
      split; [apply keptFrom_refl | eauto].
    - assert (t ∈ It :: rest) as Htin.
      { rewrite Hl, last_app_cons, last_cons_cons in Hlast. by apply last_Some_elem_of. }
      assert (forall i, Instrs Fsw !! t = Some i -> isPHI (Body i) = false) as Htphi.
      { intros i Hi. destruct (Ksw _ _ Ht) as (i' & Hi' & (Ho & _) & _).
        assert (i' = i) as -> by congruence.
        rewrite (isPHI_opcode _ _ Ho). by apply isTerminator_not_PHI. }
      destruct (insertBeforeFirstNonPHI_total Fsw (fresh (dom (Instrs Fsw))) _ _ Htin Htphi)
        as [insts Hins].
      assert (exists Fp P, createPHI Fsw MO (InstTy inst) D M = Ret (Fp, P))
        as (Fp & P & Hc).
      { unfold createPHI, getBlock. rewrite HsM. cbn [bind Insts]. rewrite Hins. eauto. }
      rewrite Hc. simpl. exists Fp, (Some P). split; [done |].
      destruct (createPHI_lookup _ _ _ _ _ _ _ Hc) as (HPf & _ & Hl').
      split.
      { intros [= ->]. apply HPf. by apply elem_of_dom. }
      split; [by eapply keptFrom_createPHI |].
      eexists. split; [by apply Hl' |].
      rewrite (getLength_replaceUses _ _ _ _ Hlcur). f_equal.
      unfold replaceUse. by rewrite decide_False. }
  rewrite Hph. simpl.
  set (Fmd := if _ || _ then _ else _).
  assert (keptFrom MO Fph Fmd
          /\ exists imd, Instrs Fmd !! MO = Some imd /\ Body imd = Body iph)
    as (Kmd & imd & Himd & HBimd).
  { subst Fmd. destruct (_ || _).
    - split.
      + apply (keptFrom_trans MO Fph (updateInst Fph MO (setProf None)));
          (apply keptFrom_updateInst; [| done]).
        * intros i. apply siteKept_keepsShape, keepsShape_setProf.
        * intros i. apply siteKept_keepsShape. unfold annotateValueSite.
          apply keepsShape_setProf.
      + eexists. unfold updateInst. simpl. rewrite !lookup_alter_eq, Hiph. simpl.
        split; [reflexivity | done].
    - split.
      + apply keptFrom_updateInst; [| done].
        intros i. apply siteKept_keepsShape, keepsShape_setProf.
      + eexists. unfold updateInst. simpl. rewrite lookup_alter_eq, Hiph. simpl.
        split; [reflexivity | done]. }
  assert (keptFrom MO (Func st) Fmd) as Kall.
  { eapply keptFrom_trans; [exact Ksw |]. by eapply keptFrom_trans. }
  destruct (createCases_total cfg MO D M SI PHI (SizeIds pl) Fmd imd len bits Himd HMOSI HPMO)
    as (Fcs & cs & Hcs).
  { by rewrite (getLength_Body _ _ HBimd). }
  { by eapply getType_keptFrom. }
  rewrite Hcs. simpl.
  assert (Instrs (updateInst Fcs SI (setProfMetadata CC MC)) !! MO = Some imd) as Hfin.
  { unfold updateInst. simpl. rewrite lookup_alter_ne by done.
    eapply createCases_lookup; [exact Hcs | exact Himd | done | done]. }
  destruct (RemarksEnabled st); simpl; [| eauto].
  unfold getInst. rewrite Hfin. simpl.
  destruct (Kall _ _ HMO) as (imd' & Himd' & (Ho & _) & _).
  assert (imd' = imd) as -> by congruence.
  rewrite (getName_opcode _ _ Ho).
  destruct (isCandidate_getName _ Hcand) as [n ->]. simpl. eauto.
Qed.

Lemma performInfo_total cfg st MO inst BB bb :
  siteOk st MO inst BB bb ->
  profileOk cfg st inst BB ->
  exists r st', performInfo cfg st MO = Ret (r, st').
Proof.
  intros Hok Hprof. pose proof Hok as [HMO _ HP _ _ _ _ _ _].
  unfold performInfo. rewrite HMO, HP.
  destruct (MemOp.isMemmove inst); [eauto |].
  destruct (_ && _); [eauto |].
  fold (readProfile cfg inst).
  destruct (readProfile cfg inst) as [[VDs T] |] eqn:Hread; [| eauto].
  destruct (Hprof _ _ Hread) as (HT & HF & Hsum & Hcount).
  assert (exists oa, (if MemOPScaleCount cfg
                      then Ret (getBlockProfileCount (BFI st) BB) else Ret (Some T))
                     = Ret oa
                     /\ forall a, oa = Some a ->
                          is_u64 a /\ (MemOPScaleCount cfg = false -> a = T))
    as (oa & -> & Hoa).
  { destruct (MemOPScaleCount cfg).
    - eexists. split; [reflexivity |]. intros a E. split; [by apply Hcount | done].
    - eexists. split; [reflexivity |]. intros a [= <-]. done. }
  destruct oa as [a |]; [| eauto].
  destruct (Hoa a eq_refl) as [Ha Hsc].
  destruct (a <? MemOPCountThreshold cfg); [eauto |].
  destruct (Z.eqb_spec T 0); [eauto |].
  assert (0 < T <= UINT64_MAX) as HT' by (unfold is_u64 in HT; lia).
  destruct (planLoop_inv cfg a T Ha HT' Hsc VDs (initPlan a T) HF
              (planInv_init a T Ha HT' VDs Hsum)) as (pl & -> & _).
  simpl. destruct (Version pl =? 0); [eauto |].
  destruct (rewrite_total cfg st MO inst BB bb VDs pl
              (<[0%nat := RemainCount pl]> (CaseCounts pl))
              (if RemainCount pl >? MaxCount pl then RemainCount pl else MaxCount pl)
              (wrap64 (a - RemainCount pl)) a Hok) as (info & st' & ->).
  simpl. eauto.
Qed.

(** The conditions of [NotApplicable] are the only ones under which
    [perform] skips a call site. *)
Lemma performInfo_None_not_applicable cfg st MO inst BB st' :
  Instrs (Func st) !! MO = Some inst ->
  Parent inst = Some BB ->
  performInfo cfg st MO = Ret (None, st') ->
  NotApplicable cfg st inst BB.
Proof.
  intros HI HP. unfold performInfo. rewrite HI, HP.
  destruct (MemOp.isMemmove inst) eqn:Hmv; [intros _; by apply NA_move |].
  destruct (negb (MemOPOptMemcmpBcmp cfg) && _) eqn:Hcmp.
  { intros _. apply andb_true_iff in Hcmp as [Hf Hc]. apply negb_true_iff in Hf.
    by apply NA_cmp_disabled. }
  fold (readProfile cfg inst).
  destruct (readProfile cfg inst) as [[VDs T] |] eqn:Hread;
    [| intros _; by apply NA_no_profile].
  assert ((if MemOPScaleCount cfg
           then Ret (getBlockProfileCount (BFI st) BB) else Ret (Some T))
          = Ret (actualTotal cfg st BB T)) as ->
    by (unfold actualTotal; by destruct (MemOPScaleCount cfg)).
  destruct (actualTotal cfg st BB T) as [a |] eqn:Hact.
  2:{ intros _. unfold actualTotal in Hact.
      destruct (MemOPScaleCount cfg) eqn:Hs; [| discriminate]. by apply NA_no_frequency. }
  destruct (Z.ltb_spec a (MemOPCountThreshold cfg)).
  { intros _. by eapply NA_below_threshold. }
  destruct (Z.eqb_spec T 0) as [-> |].
  { intros _. by eapply NA_zero_total. }
  intros Hrun. apply bind_Ret in Hrun as (pl & Hpl & Hrun).
  destruct (Z.eqb_spec (Version pl) 0).
  { by eapply NA_no_version. }
  apply bind_Ret in Hrun as (r & _ & Hrun). discriminate.
Qed.

(** X19: [perform] answers [false] for a
    call site only under one of these conditions: the call is a move; it is a
    comparison and comparison specialisation is off; it has no size profile;
    count scaling is on and its block has no execution count; the total
    planned against is below the count threshold; the total of the profile is
    zero; or the planning loop selected no size.  Then it has changed
    nothing. *)
Theorem X_skipped_only_when_not_applicable (cfg : Options) (st st' : State) (MO : InstId)
    (inst : Instruction) (BB : BlockId) :
  Instrs (Func st) !! MO = Some inst ->
  Parent inst = Some BB ->
  perform cfg st MO = Ret (false, st') ->
  NotApplicable cfg st inst BB /\ st' = st.
Proof.
  intros HI HP H. split; [| by eapply perform_false].
  unfold perform in H. apply bind_Ret in H as ([[info |] s] & Hi & H); simpl in H.
  - discriminate.
  - by eapply performInfo_None_not_applicable.
Qed.

Lemma X_skipped_only_when_not_applicable_witness :
  NotApplicable percent70Options (scenarioState 9)
    (memcpyCall (memOPSizeProfile 10000 [VD 16 6000; VD 32 3000; VD 9 1000])) 0%nat
  /\ scenarioState 9 = scenarioState 9.
Proof.
  apply (X_skipped_only_when_not_applicable percent70Options (scenarioState 9)
           (scenarioState 9) 1%nat
           (memcpyCall (memOPSizeProfile 10000 [VD 16 6000; VD 32 3000; VD 9 1000]))
           0%nat).
  - reflexivity.
  - reflexivity.
  - vm_compute. reflexivity.
Defined.

(** X20: for a candidate call site in a
    well-formed block (the call is in the block it names as its parent, the
    block has no instruction twice, only instructions of the function, and
    ends in a terminator, and the length has an integer type and is not the
    result of the call) with a consistent profile (64-bit totals, no negative
    count, counts that sum to at most the total), [perform] returns: no
    assertion fails and nothing undefined is executed, with assertions
    compiled in or out; and it answers [false] exactly under the conditions
    under which a site is not applicable. *)
Theorem X_perform_returns_on_wellformed_site (cfg : Options) (st : State) (MO : InstId)
    (inst : Instruction) (BB : BlockId) (bb : BasicBlock) :
  siteOk st MO inst BB bb ->
  profileOk cfg st inst BB ->
  exists b st',
    perform cfg st MO = Ret (b, st')
    /\ (b = false <-> NotApplicable cfg st inst BB).
Proof.
  intros Hok Hprof. pose proof Hok as [HMO _ HP _ _ _ _ _ _].
  destruct (performInfo_total cfg st MO inst BB bb Hok Hprof) as (r & st' & E).
  exists (bool_decide (is_Some r)), st'.
  split; [unfold perform; by rewrite E |].
  split.
  - intros Hb. destruct r as [info |]; [discriminate |].
    by eapply performInfo_None_not_applicable.
  - intros NA. rewrite (performInfo_not_applicable _ _ _ _ _ HMO HP NA) in E.
    by injection E as <- _.
Qed.

Lemma X_perform_returns_on_wellformed_site_witness :
  exists b st',
    perform (exampleOptions false true) cmpState 1%nat = Ret (b, st')
    /\ (b = false <->
        NotApplicable (exampleOptions false true) cmpState
          (memcmpCall (memOPSizeProfile 10000 [VD 4 6000; VD 8 3000; VD 9 1000])) 0%nat).
Proof.
  apply (X_perform_returns_on_wellformed_site (exampleOptions false true) cmpState 1%nat
           (memcmpCall (memOPSizeProfile 10000 [VD 4 6000; VD 8 3000; VD 9 1000])) 0%nat
           {| Name := "entry"; Insts := [0; 1; 2; 3]%nat |}).
  - split.
    + reflexivity.
    + reflexivity.
    + reflexivity.
    + reflexivity.
    + simpl. apply elem_of_cons; right. apply elem_of_cons; left. reflexivity.
    + simpl. apply NoDup_ListNoDup. repeat constructor; simpl; intuition lia.
    + simpl. intros j Hj. apply elem_of_dom.
      repeat (apply elem_of_cons in Hj as [-> | Hj]); try (eexists; reflexivity).
      destruct (not_elem_of_nil _ Hj).
    + exists 3%nat, (mkInst (OtherInst true [InstVal 2; InstVal 1]) VoidTy None).
      split; [reflexivity |]. split; reflexivity.
    + exists (InstVal 0), 64%N.
      split; [reflexivity |]. split; [discriminate | reflexivity].
  - intros VDs T HR.
    assert (VDs = [VD 4 6000; VD 8 3000; VD 9 1000] /\ T = 10000) as [-> ->].
    { vm_compute in HR. injection HR as <- <-. split; reflexivity. }
    split; [unfold is_u64, UINT64_MAX; lia |].
    split; [repeat constructor; simpl; lia |].
    split; [simpl; lia |].
    intros a Ha. vm_compute in Ha. discriminate.
Defined.

(** ** The remarks of a run *)

Lemma performInfo_versions_pos cfg st MO info st' :
  performInfo cfg st MO = Ret (Some info, st') -> (1 <= length (CaseBBs info))%nat.
Proof.
  intros H.
  apply performInfo_success in H
    as (inst & VDs & T & a & pl & _ & _ & _ & Hread & _ & _ & _ & Hpl & Hv & H).
  destruct (plan_versions _ _ _ _ _ _ Hread Hpl Hv) as (acc & _ & _ & _ & Hlen & _ & HS & _).
  destruct (rewrite_switch _ _ _ _ _ _ _ _ _ _ _ _ H) as (Hcs & _).
  rewrite Hcs, HS, !length_fmap. lia.
Qed.

Lemma perform_remarks cfg st MO b st' :
  perform cfg st MO = Ret (b, st') ->
  RemarksEnabled st' = RemarksEnabled st
  /\ (if RemarksEnabled st && b
      then exists rm, ORE st' = ORE st ++ [rm]
                      /\ RemarkMemop rm <> "memmove" /\ 1 <= RemarkVersions rm
      else ORE st' = ORE st).
Proof.
  destruct b; intros H.
  - apply perform_true in H as [info H].
    pose proof (performInfo_versions_pos _ _ _ _ _ H) as Hpos.
    apply performInfo_actual in H
      as (inst & VDs & T & a & pl & acc & HI & Hmv & Hread & _ & _ & _ & Hk & HV & _ & _ & H).
    destruct (rewrite_frame _ _ _ _ _ _ _ _ _ _ _ _ H HI) as (_ & _ & _ & Hen & Hore).
    split; [done |]. rewrite andb_true_r.
    destruct (RemarksEnabled st); [| done].
    destruct Hore as (n & Hn & ->). eexists. split; [reflexivity |]. simpl.
    split; [by eapply getName_not_memmove |]. lia.
  - apply perform_false in H as ->. split; [done |]. by rewrite andb_false_r.
Qed.

Lemma performWorkList_remarks cfg w r r' :
  performWorkList cfg w r = Ret r' ->
  RemarksEnabled (Final r') = RemarksEnabled (Final r)
  /\ (if RemarksEnabled (Final r)
      then exists new,
             ORE (Final r') = ORE (Final r) ++ new
             /\ Z.of_nat (length new) = NumOfPGOMemOPOpt r' - NumOfPGOMemOPOpt r
             /\ Forall (fun rm => RemarkMemop rm <> "memmove" /\ 1 <= RemarkVersions rm) new
      else ORE (Final r') = ORE (Final r)).
Proof.
  revert r. induction w as [| MO w IH]; intros r H; simpl in H.
  { injection H as <-. split; [done |]. destruct (RemarksEnabled (Final r)); [| done].
    exists []. rewrite app_nil_r. split; [done |]. split; [simpl; lia | constructor]. }
  apply bind_Ret in H as ([b s] & Hp & H). simpl in H.
  apply perform_remarks in Hp as [Hen Hore].
  apply IH in H as [Hen' Hore']. simpl in *.
  split; [congruence |]. rewrite Hen in Hore'.
  destruct (RemarksEnabled (Final r)); simpl in *; [| congruence].
  destruct Hore' as (new & -> & Hn & HF). destruct b.
  - destruct Hore as (rm & -> & Hrm). exists (rm :: new).
    split; [by rewrite <- app_assoc |]. split; [simpl length; lia |]. by constructor.
  - rewrite Hore. exists new. split; [done |]. split; [lia | done].
Qed.

(** X21: a run of the driver leaves the remarks
    as they were when remarks are off, and otherwise appends to them exactly
    as many remarks as it counts optimised call sites; none of them names
    [memmove] and each reports at least one version. *)
Theorem X_one_remark_per_optimised_site (cfg : Options) (st : State) (r : PassResult) :
  performAll cfg st = Ret r ->
  RemarksEnabled (Final r) = RemarksEnabled st
  /\ (RemarksEnabled st = false -> ORE (Final r) = ORE st)
  /\ (RemarksEnabled st = true ->
      exists new,
        ORE (Final r) = ORE st ++ new
        /\ Z.of_nat (length new) = NumOfPGOMemOPOpt r
        /\ Forall (fun rm => RemarkMemop rm <> "memmove" /\ 1 <= RemarkVersions rm) new).
Proof.
  unfold performAll. intros H. apply bind_Ret in H as (w & _ & H).
  apply performWorkList_remarks in H as [Hen Hore]. simpl in *.
  split; [done |]. split.
  - intros E. by rewrite E in Hore.
  - intros E. rewrite E in Hore. destruct Hore as (new & Ho & Hn & HF).
    exists new. split; [done |]. split; [lia | done].
Qed.

Lemma X_one_remark_per_optimised_site_witness :
  exists r,
    performAll (exampleOptions false true) cmpState = Ret r
    /\ NumOfPGOMemOPOpt r = 1
    /\ RemarksEnabled (Final r) = true
    /\ length (ORE (Final r)) = 1%nat.
Proof.
  assert (exists r, performAll (exampleOptions false true) cmpState = Ret r
                    /\ NumOfPGOMemOPOpt r = 1
                    /\ length (ORE (Final r)) = 1%nat) as (r & E & Hn & Hl).
  { eexists. split; [vm_compute; reflexivity |]. split; reflexivity. }
  destruct (X_one_remark_per_optimised_site (exampleOptions false true) cmpState r E)
    as (Hen & _).
  exists r.
  exact (conj E (conj Hn (conj Hen Hl))).
Defined.

(** ** The blocks of the dispatch are well formed *)

Lemma performInfo_case_blocks cfg st MO info st' :
  performInfo cfg st MO = Ret (Some info, st') ->
  exists fin len bits sizes,
    MemOp.getLength fin = Ret len
    /\ Forall2 (caseBlockOf (Func st') fin bits (MergeBB info)) sizes (CaseBBs info).
Proof.
  intros H.
  apply performInfo_success in H
    as (inst & VDs & T & a & pl & HI & _ & _ & Hread & _ & _ & _ & Hpl & Hv & H).
  destruct (plan_versions _ _ _ _ _ _ Hread Hpl Hv)
    as (acc & _ & Hpre & _ & Hlen & _ & HS & _).
  destruct (rewrite_cases _ _ _ _ _ _ _ _ _ _ _ _ H HI)
    as (Fmd & Fcs & imd & len0 & len & si0 & Hcs & Hfin & Himd & HMOSI & HPMO & HPd
        & Hlen0 & Elen & Hlimd & Hsi0 & HB0).
  assert (exists bits, getType Fmd len = Ret (IntegerTy bits)) as [bits Hty].
  { pose proof Hcs as Hcs'.
    destruct (SizeIds pl) as [| s rest] eqn:E.
    { rewrite HS in E. destruct acc; [simpl in Hlen; lia | discriminate]. }
    simpl in Hcs'. apply bind_Ret in Hcs' as ([F1 [cb c]] & H1 & _).
    apply createCase_full in H1 as (orig & len' & bits & br & HMO' & Hl' & Hty & _).
    exists bits. assert (orig = imd) as -> by congruence. congruence. }
  destruct (createCases_full _ _ _ _ _ _ _ _ _ _ _ _ _ _ _ _ _ Hcs Himd HMOSI HPMO HPd
              Hlimd Hty Hsi0 HB0) as (HF & si' & Hsi' & HB').
  exists imd, len, bits, (SizeIds pl). split; [done |].
  rewrite Hfin. eapply Forall2_impl; [exact HF |].
  intros s c Hc. by eapply caseBlockOf_updateInst.
Qed.

Lemma caseBlockOf_blockOk F call bits M s c len :
  MemOp.getLength call = Ret len ->
  caseBlockOf F call bits M s c -> blockOk F c.1.
Proof.
  intros Hlen (br & Hb & Hc & Hbr).
  assert (c.2 <> br) as Hne.
  { intros E. rewrite E, Hbr in Hc. injection Hc as Hc _.
    destruct (Body_setLength_call (caseValue bits s) call len Hlen)
      as [(? & ? & E') | (? & ? & E')]; congruence. }
  eexists _, br, _. split; [exact Hb |]. simpl.
  split.
  { apply NoDup_cons. split; [| apply NoDup_singleton].
    intros Hin. apply list_elem_of_singleton in Hin. by apply Hne. }
  split.
  { intros j [-> | ->%list_elem_of_singleton]%elem_of_cons; eexists; split; try done. }
  split; [done |]. split; [exact Hbr | done].
Qed.

(** X22: when the block of the call is well
    formed before a successful rewrite (no instruction twice, every
    instruction an instruction of the function that names the block as its
    parent, a terminator at the end), then so are, after it, the head block,
    the default block, the merge block and every case block: the rewrite
    leaves each block it touches or makes with a terminator at its end and
    with parent links that agree with the blocks. *)
Theorem X_dispatch_blocks_are_well_formed (cfg : Options) (st st' : State) (MO : InstId)
    (info : RewriteInfo) :
  performInfo cfg st MO = Ret (Some info, st') ->
  blockOk (Func st) (HeadBB info) ->
  forall B, B ∈ HeadBB info :: DefaultBB info :: MergeBB info :: (CaseBBs info).*1 ->
    blockOk (Func st') B.
Proof.
  intros H (blk & t & ti & Hbb & Hnd & Hpar & Hlast & Ht & Hterm) B HB.
  assert (forall j, j ∈ Insts blk -> j ∈ dom (Instrs (Func st))) as Hdom.
  { intros j Hj. destruct (Hpar j Hj) as (i & Hi & _). by apply elem_of_dom. }
  destruct (performInfo_case_blocks _ _ _ _ _ H) as (fin & len & bits & sizes & Hlen & HF).
  apply performInfo_Some in H as (inst & VDs & T & a & pl & HI & _ & _ & _ & _ & H).
  destruct (rewrite_blocks _ _ _ _ _ _ _ _ _ _ _ _ _ H HI Hbb Hnd Hdom)
    as (before & after & br & mi & Hl & Hane & HhB & HdB & Hbr & HmB & Hmi & Hbrf
        & Hbefore & (fin' & Hfin' & HPfin) & Hafter & (si & Hsi & HPsi) & HPphi).
  destruct (rewrite_switch _ _ _ _ _ _ _ _ _ _ _ _ H)
    as (_ & si' & cond & cases & Hsi' & HBsi & _).
  assert (si' = si) as -> by congruence.
  destruct (rewrite_frame _ _ _ _ _ _ _ _ _ _ _ _ H HI) as (Kall & HSIf & _).
  assert (NoDup (before ++ MO :: after)) as Hnd' by (by rewrite <- Hl).
  apply NoDup_app in Hnd' as (Hndb & _ & Hnda). apply NoDup_cons in Hnda as [_ Hnda].
  assert (forall j, j ∈ before -> j ∈ dom (Instrs (Func st))) as Hdb.
  { intros j Hj. apply Hdom. rewrite Hl. by apply elem_of_app; left. }
  assert (forall j, j ∈ after -> j ∈ dom (Instrs (Func st))) as Hda.
  { intros j Hj. apply Hdom. rewrite Hl. apply elem_of_app; right.
    by apply elem_of_cons; right. }
  (* the terminator of the block is the last of the instructions after the call *)
  assert (last after = Some t) as Hlast'.
  { rewrite Hl, last_app_cons in Hlast. destruct after; [done |].
    by rewrite last_cons_cons in Hlast. }
  assert (exists ti', Instrs (Func st') !! t = Some ti' /\ isTerminator (Body ti') = true)
    as (ti' & Hti' & Hterm').
  { destruct (Kall _ _ Ht) as (ti' & Hti' & (Ho & _) & _). exists ti'. split; [done |].
    by rewrite (isTerminator_opcode _ _ Ho). }
  apply elem_of_cons in HB as [-> | HB]; [| apply elem_of_cons in HB as [-> | HB];
                                            [| apply elem_of_cons in HB as [-> | HB]]].
  - (* the head *)
    eexists _, (Switch info), si. split; [exact HhB |]. simpl.
    split.
    { apply NoDup_app. split; [done |]. split; [| apply NoDup_singleton].
      intros j Hj ->%list_elem_of_singleton. by apply HSIf, Hdb. }
    split.
    { intros j [Hj | ->%list_elem_of_singleton]%elem_of_app; [| eauto].
      destruct (Hpar j) as (i & Hi & HPi); [rewrite Hl; by apply elem_of_app; left |].
      destruct (Hbefore j i Hj Hi) as (i' & Hi' & E). exists i'. split; [done | congruence]. }
    split; [by rewrite last_snoc |]. split; [done | by rewrite HBsi].
  - (* the default block *)
    eexists _, br, _. split; [exact HdB |]. simpl.
    split.
    { apply NoDup_cons. split; [| apply NoDup_singleton].
      intros ->%list_elem_of_singleton. apply Hbrf. by apply elem_of_dom. }
    split.
    { intros j [-> | ->%list_elem_of_singleton]%elem_of_cons; eauto. }
    split; [done |]. split; [exact Hbr | done].
  - (* the merge block *)
    eexists _, t, ti'. split; [exact HmB |]. simpl.
    destruct (PHI info) as [P |] eqn:EP.
    + destruct Hmi as (phis & rest & -> & -> & Hrne & _).
      destruct (HPphi P eq_refl) as (HPf & phi & Hphi & HPp).
      assert (P ∉ phis ++ rest) as HPn by (intros Hin; by apply HPf, Hda).
      apply not_elem_of_app in HPn as [HPn1 HPn2].
      apply NoDup_app in Hnda as (Hn1 & Hn12 & Hn2).
      split.
      { apply NoDup_app. split; [done |]. split.
        - intros j Hj [-> | Hin]%elem_of_cons; [done | by apply (Hn12 j)].
        - apply NoDup_cons. done. }
      split.
      { intros j [Hj | [-> | Hj]%elem_of_cons]%elem_of_app.
        - apply Hafter. by apply elem_of_app; left.
        - eauto.
        - apply Hafter. by apply elem_of_app; right. }
      split; [| done].
      rewrite last_app_cons. destruct rest as [| x rest]; [done |].
      rewrite last_cons_cons. by rewrite last_app_cons in Hlast'.
    + subst mi. split; [done |]. split; [done |]. done.
  - (* a case block *)
    apply list_elem_of_fmap in HB as (c & -> & Hc).
    apply list_elem_of_lookup in Hc as [n Hn].
    destruct (Forall2_lookup_r _ _ _ _ _ HF Hn) as (s & _ & Hs).
    by eapply caseBlockOf_blockOk.
Qed.

Lemma X_dispatch_blocks_are_well_formed_witness :
  exists info st',
    performInfo (exampleOptions false true) cmpState 1%nat = Ret (Some info, st')
    /\ blockOk (Func st') (HeadBB info)
    /\ blockOk (Func st') (MergeBB info).
Proof.
  assert (exists info st',
             performInfo (exampleOptions false true) cmpState 1%nat = Ret (Some info, st')
             /\ HeadBB info = 0%nat) as (info & st' & E & Hh).
  { do 2 eexists. split; [vm_compute; reflexivity | reflexivity]. }
  assert (blockOk (Func cmpState) (HeadBB info)) as Hok.
  { rewrite Hh. clear.
    exists {| Name := "entry"; Insts := [0; 1; 2; 3]%nat |}, 3%nat,
      (mkInst (OtherInst true [InstVal 2; InstVal 1]) VoidTy None).
    split; [reflexivity |]. simpl.
    split; [apply NoDup_ListNoDup; repeat constructor; simpl; intuition lia |].
    split.
    { intros j Hj.
      repeat (apply elem_of_cons in Hj as [-> | Hj]);
        try (eexists; split; reflexivity).
      destruct (not_elem_of_nil _ Hj). }
    split; [reflexivity |]. split; reflexivity. }
  pose proof (X_dispatch_blocks_are_well_formed (exampleOptions false true) cmpState st'
                1%nat info E Hok) as Hall.
  exists info, st'.
  refine (conj E (conj (Hall _ _) (Hall _ _))).
  - apply elem_of_cons. left. reflexivity.
  - apply elem_of_cons. right. apply elem_of_cons. right. apply elem_of_cons. left.
    reflexivity.
Defined.
